(** * Geofence containment and alert bookkeeping of the tourist-safety system

    A shallow embedding of the three places where the repository decides
    whether a tracked position lies in a circular danger zone:

    - the client hook [useDangerZoneDetection] (module [Hook]),
    - the Express handler of [POST /api/locations] (module [Server]),
    - the [TouristSafety] Solidity contract (module [Contract]).

    JavaScript numbers are modelled as real numbers: rounding, NaN and the
    infinities of IEEE doubles are outside the model.  Solidity integers
    are modelled as [Z] with the checks of the 0.8 compiler written out
    (an overflow reverts the transaction). *)

From Stdlib Require Import Reals Lra ZArith Lia.
From stdpp Require Import gmap strings list pretty.

(** ** JavaScript numbers and the [Math] functions the code calls *)

Module JS.

Local Open Scope R_scope.

(** [Math.atan2 y x] on real arguments: the angle of the point [(x, y)]. *)
Definition atan2 (y x : R) : R :=
  if Rlt_dec 0 x then atan (y / x)
  else if Rlt_dec x 0 then
    (if Rle_dec 0 y then atan (y / x) + PI else atan (y / x) - PI)
  else if Rlt_dec 0 y then PI / 2
  else if Rlt_dec y 0 then - (PI / 2)
  else 0.

(** The comparison [x <= y] as a boolean. *)
Definition le (x y : R) : bool := if Rle_dec x y then true else false.

End JS.

(** ** The Haversine formula, as the specification words it *)

Module Haversine.

Local Open Scope R_scope.

(** The mean Earth radius in meters. *)
Definition R_earth : R := 6371000.

(** Degrees to radians. *)
Definition radians (deg : R) : R := deg * PI / 180.

(** [a = sin²(Δφ/2) + cos φ1 · cos φ2 · sin²(Δλ/2)] *)
Definition hav_a (φ1 λ1 φ2 λ2 : R) : R :=
  let Δφ := φ2 - φ1 in
  let Δλ := λ2 - λ1 in
  (sin (Δφ / 2))² + cos φ1 * cos φ2 * (sin (Δλ / 2))².

(** [d = 2R · atan2(√a, √(1−a))], latitudes and longitudes in degrees. *)
Definition great_circle (lat1 lon1 lat2 lon2 : R) : R :=
  let a := hav_a (radians lat1) (radians lon1) (radians lat2) (radians lon2) in
  2 * R_earth * JS.atan2 (sqrt a) (sqrt (1 - a)).

End Haversine.

(** ** The client hook [useDangerZoneDetection] *)

Module Hook.

Local Open Scope R_scope.

Inductive Level := low | medium | high.

Record DangerZone := {
  zone_id : string;
  zone_name : string;
  zone_lat : R;
  zone_lng : R;
  zone_radius : R;
  zone_level : Level;
}.

Record UserLocation := {
  loc_lat : R;
  loc_lng : R;
}.

(** [calculateDistance] of the hook: distance between two points in meters. *)
Definition calculateDistance (lat1 lon1 lat2 lon2 : R) : R :=
  let R := 6371000 in
  let dLat := (lat2 - lat1) * PI / 180 in
  let dLon := (lon2 - lon1) * PI / 180 in
  let a :=
    sin (dLat / 2) * sin (dLat / 2) +
    cos (lat1 * PI / 180) * cos (lat2 * PI / 180) *
    sin (dLon / 2) * sin (dLon / 2) in
  let c := 2 * JS.atan2 (sqrt a) (sqrt (1 - a)) in
  R * c.

(** [distance <= zone.radius] for the location and the zone of one iteration. *)
Definition isInZone (userLocation : UserLocation) (zone : DangerZone) : bool :=
  let distance :=
    calculateDistance (loc_lat userLocation) (loc_lng userLocation)
                      (zone_lat zone) (zone_lng zone) in
  JS.le distance (zone_radius zone).

(** [`${userId}-${zone.id}`] *)
Definition zoneKey (userId : string) (zone : DangerZone) : string :=
  userId +:+ "-" +:+ zone_id zone.

(** A record pushed to the [dangerZoneAlerts] list of the local storage.
    The id [`${zoneKey}-${Date.now()}`] is kept as its two components,
    [alertId] renders it; [type] is always ['danger_zone_entry']. *)
Record DangerAlert := {
  alert_key : string;
  alert_now : Z;
  touristId : string;
  username : string;
  zoneName : string;
  zoneLevel : Level;
  timestamp : Z;
  location : UserLocation;
}.

Definition alertId (a : DangerAlert) : string :=
  alert_key a +:+ "-" +:+ pretty (alert_now a).

(** The two toasts of the hook, with the zone they are about. *)
Inductive Toast :=
| ToastEntered (zone : DangerZone)   (* '⚠️ Danger Zone Alert!' *)
| ToastLeft (zone : DangerZone).     (* '✅ Left Danger Zone' *)

Definition toast_zone (t : Toast) : DangerZone :=
  match t with ToastEntered z => z | ToastLeft z => z end.

Definition toUpperCase (l : Level) : string :=
  match l with low => "LOW" | medium => "MEDIUM" | high => "HIGH" end.

Definition toast_description (t : Toast) : string :=
  match t with
  | ToastEntered z =>
      "You have entered " +:+ zone_name z +:+
      " (" +:+ toUpperCase (zone_level z) +:+ " risk area)"
  | ToastLeft z => "You have left " +:+ zone_name z
  end.

(** The state the hook keeps between effect runs: the two refs, and the
    [dangerZoneAlerts] entry of the local storage. *)
Record State := {
  notifiedZonesRef : gset string;
  adminNotifiedRef : gset string;
  dangerZoneAlerts : list DangerAlert;
}.

Definition initial (stored : list DangerAlert) : State :=
  {| notifiedZonesRef := ∅; adminNotifiedRef := ∅; dangerZoneAlerts := stored |}.

(** The object pushed to [dangerAlerts] on an entry. *)
Definition entry_alert (userLocation : UserLocation) (userId uname : string)
    (now : Z) (zone : DangerZone) : DangerAlert :=
  {| alert_key := zoneKey userId zone; alert_now := now;
     touristId := userId; username := uname;
     zoneName := zone_name zone; zoneLevel := zone_level zone;
     timestamp := now; location := userLocation |}.

(** [set.has(key)] *)
Definition has (key : string) (set : gset string) : bool :=
  bool_decide (key ∈ set).

(** The body of [dangerZones.forEach]: one zone, with the state and the
    toasts shown so far. [now] is the clock, read by [Date.now()] and by
    [new Date()]; the [console.log] of the admin branch is left out. *)
Definition forEach_body (userLocation : UserLocation) (userId uname : string)
    (now : Z) (acc : State * list Toast) (zone : DangerZone)
  : State * list Toast :=
  let '(st, toasts) := acc in
  let zoneKey := zoneKey userId zone in
  if isInZone userLocation zone && negb (has zoneKey (notifiedZonesRef st)) then
    let notified := {[zoneKey]} ∪ notifiedZonesRef st in
    let toasts := toasts ++ [ToastEntered zone] in
    if negb (has zoneKey (adminNotifiedRef st)) then
      ({| notifiedZonesRef := notified;
          adminNotifiedRef := {[zoneKey]} ∪ adminNotifiedRef st;
          dangerZoneAlerts := dangerZoneAlerts st ++
            [entry_alert userLocation userId uname now zone] |},
       toasts)
    else
      ({| notifiedZonesRef := notified;
          adminNotifiedRef := adminNotifiedRef st;
          dangerZoneAlerts := dangerZoneAlerts st |},
       toasts)
  else if negb (isInZone userLocation zone) && has zoneKey (notifiedZonesRef st) then
    ({| notifiedZonesRef := notifiedZonesRef st ∖ {[zoneKey]};
        adminNotifiedRef := adminNotifiedRef st;
        dangerZoneAlerts := dangerZoneAlerts st |},
     toasts ++ [ToastLeft zone])
  else (st, toasts).

(** One run of the effect: [userLocation] may be [null]; [dangerZones] is
    the list parsed from the local storage at that moment. *)
Record Render := {
  userLocation : option UserLocation;
  userId : string;
  r_username : string;
  dangerZones : list DangerZone;
  date_now : Z;
}.

Definition useEffect (r : Render) (st : State) : State * list Toast :=
  match userLocation r with
  | None => (st, [])
  | Some loc =>
      fold_left (forEach_body loc (userId r) (r_username r) (date_now r))
                (dangerZones r) (st, [])
  end.

Definition clearNotifications (st : State) : State :=
  {| notifiedZonesRef := ∅; adminNotifiedRef := ∅;
     dangerZoneAlerts := dangerZoneAlerts st |}.

(** What happens to a mounted hook: the effect runs, or the caller clears. *)
Inductive Event :=
| EvRender (r : Render)
| EvClear.

Definition step (st : State) (e : Event) : State * list Toast :=
  match e with
  | EvRender r => useEffect r st
  | EvClear => (clearNotifications st, [])
  end.

(** A session: the state after the events and the toasts of each event. *)
Fixpoint run (es : list Event) (st : State) : State * list (list Toast) :=
  match es with
  | [] => (st, [])
  | e :: es' =>
      let '(st1, ts) := step st e in
      let '(st2, tss) := run es' st1 in
      (st2, ts :: tss)
  end.

(** The toasts about one zone id. *)
Definition toasts_of (zid : string) (ts : list Toast) : list Toast :=
  filter (λ t, zone_id (toast_zone t) = zid) ts.

(** The alerts stored under one key. *)
Definition alerts_of (key : string) (l : list DangerAlert) : list DangerAlert :=
  filter (λ a, alert_key a = key) l.

(** The alerts appended since [stored]: at most one under each key, and
    none under a key outside [adminNotifiedRef]. *)
Definition admin_inv (stored : list DangerAlert) (st : State) : Prop :=
  ∃ appended, dangerZoneAlerts st = stored ++ appended
    ∧ ∀ k, (length (alerts_of k appended)
              ≤ if has k (adminNotifiedRef st) then 1 else 0)%nat.

(** An effect run of user [u] whose zone list, with unique ids, has [z]. *)
Definition tracks (u : string) (z : DangerZone) (r : Render) : Prop :=
  userId r = u ∧ NoDup (zone_id <$> dangerZones r) ∧ z ∈ dangerZones r.

(** An effect run whose location is in [z] ([b = true]) or not in [z]. *)
Definition side (b : bool) (z : DangerZone) (r : Render) : Prop :=
  ∃ loc, userLocation r = Some loc ∧ isInZone loc z = b.

(** The toasts about zone [zid], run by run. *)
Definition transitions (zid : string) (rs : list Render) (st : State)
  : list (list Toast) :=
  toasts_of zid <$> (run (EvRender <$> rs) st).2.

(** The toasts of an entry. *)
Definition is_entered (t : Toast) : bool :=
  match t with ToastEntered _ => true | ToastLeft _ => false end.

End Hook.

(** ** The backend handler of [POST /api/locations] *)

Module Server.

Local Open Scope R_scope.

(** [calculateDistance] of [server.js] (Haversine formula). *)
Definition calculateDistance (lat1 lon1 lat2 lon2 : R) : R :=
  let R := 6371000 in
  let φ1 := lat1 * PI / 180 in
  let φ2 := lat2 * PI / 180 in
  let Δφ := (lat2 - lat1) * PI / 180 in
  let Δλ := (lon2 - lon1) * PI / 180 in
  let a := sin (Δφ / 2) * sin (Δφ / 2) +
           cos φ1 * cos φ2 *
           sin (Δλ / 2) * sin (Δλ / 2) in
  let c := 2 * JS.atan2 (sqrt a) (sqrt (1 - a)) in
  R * c.

(** Rows of the tables the handler touches, with the columns the migration
    under [supabase/migrations] declares and the handler uses. Strings
    stand for the uuid and text columns. *)
Record ZoneRow := {
  zone_name : string;
  zone_lat : R;
  zone_lng : R;
  zone_radius : R;
  zone_level : string;
}.

Record LocationRow := {
  loc_user_id : string;
  loc_tourist_id : string;
  loc_lat : R;
  loc_lng : R;
  loc_updated_at : Z;
}.

Record AlertRow := {
  alert_user_id : string;
  alert_tourist_id : string;
  alert_username : string;
  alert_status : string;
  alert_type : string;
  alert_lat : R;
  alert_lng : R;
  alert_zone_name : string;
  alert_zone_level : string;
}.

Record ProfileRow := {
  profile_user_id : string;
  profile_status : string;
}.

Record DB := {
  profiles : list ProfileRow;
  user_locations : list LocationRow;
  danger_zones : list ZoneRow;
  alerts : list AlertRow;
}.

(** [req.body] of the request. *)
Record Body := {
  user_id : string;
  tourist_id : string;
  lat : R;
  lng : R;
}.

Inductive Response :=
| Success (data : LocationRow)      (* { success: true, data } *)
| Status500.                        (* { success: false, error } *)

(** [upsert(row, { onConflict: 'user_id' })] on [user_locations]. *)
Fixpoint upsert (row : LocationRow) (rows : list LocationRow) : list LocationRow :=
  match rows with
  | [] => [row]
  | r :: rows' =>
      if String.eqb (loc_user_id r) (loc_user_id row) then row :: rows'
      else r :: upsert row rows'
  end.

(** The status of a user in [profiles], as [GET /api/users/:id] selects it. *)
Definition profile_of (uid : string) (db : DB) : option ProfileRow :=
  head (filter (λ p, profile_user_id p = uid) (profiles db)).

(** [distance <= zone.radius] for the position of the request. *)
Definition in_zone (body : Body) (zone : ZoneRow) : bool :=
  let distance := calculateDistance (lat body) (lng body)
                                    (zone_lat zone) (zone_lng zone) in
  JS.le distance (zone_radius zone).

(** The row the handler passes to the insert into [alerts]. The row [data]
    of [user_locations] has no username column, so
    [data.username || 'Unknown'] is ['Unknown']. *)
Definition alert_row (body : Body) (zone : ZoneRow) : AlertRow :=
  {| alert_user_id := user_id body;
     alert_tourist_id := tourist_id body;
     alert_username := "Unknown";
     alert_status := "danger";
     alert_type := "entered_danger_zone";
     alert_lat := lat body;
     alert_lng := lng body;
     alert_zone_name := zone_name zone;
     alert_zone_level := zone_level zone |}.

(** The CHECK constraints of table [alerts] in the migration:
    [status IN ('safe', 'alert', 'danger')] and
    [alert_type IN ('status_change', 'danger_zone_entry')]. *)
Definition status_check (status : string) : bool :=
  String.eqb status "safe" || String.eqb status "alert"
  || String.eqb status "danger".

Definition alert_type_check (ty : string) : bool :=
  String.eqb ty "status_change" || String.eqb ty "danger_zone_entry".

(** [supabase.from('alerts').insert(row)]: a row that violates a CHECK
    constraint is refused, the table stays as it is and the client
    returns an error ([true]) instead of throwing; a row that passes them
    is appended (the foreign key and the row-level policies of the table
    are not modelled). *)
Definition insert_alert (row : AlertRow) (table : list AlertRow)
  : list AlertRow * bool :=
  if status_check (alert_status row) && alert_type_check (alert_type row)
  then (table ++ [row], false)
  else (table, true).

(** The body of the loop over the zones: when the position is in the zone
    the insert of the alert row is awaited and its result dropped, so an
    error of the insert goes unnoticed and the loop goes on. *)
Definition for_zone (body : Body) (acc : list AlertRow) (zone : ZoneRow)
  : list AlertRow :=
  if in_zone body zone then (insert_alert (alert_row body zone) acc).1
  else acc.

(** [app.post('/api/locations')]. [upsert_error] and [select_error] say
    whether the database client reports an error for the upsert and for
    the select of the zones. The handler throws on the first and answers
    with status 500; on the second [zones] is null and the loop runs over
    the empty list. [now] is [new Date()]. *)
Definition post_locations (body : Body) (now : Z)
    (upsert_error select_error : bool) (db : DB) : DB * Response :=
  if upsert_error then (db, Status500)
  else
    let data := {| loc_user_id := user_id body;
                   loc_tourist_id := tourist_id body;
                   loc_lat := lat body; loc_lng := lng body;
                   loc_updated_at := now |} in
    let zones := if select_error then [] else danger_zones db in
    ({| profiles := profiles db;
        user_locations := upsert data (user_locations db);
        danger_zones := danger_zones db;
        alerts := fold_left (for_zone body) zones (alerts db) |},
     Success data).

End Server.

(** ** The [TouristSafety] contract *)

Module Contract.

Local Open Scope Z_scope.

Definition address : Type := Z.

Definition MAX_UINT256 : Z := 2 ^ 256 - 1.
Definition MIN_INT256 : Z := - 2 ^ 255.
Definition MAX_INT256 : Z := 2 ^ 255 - 1.

Inductive SafetyStatus := Safe | Alert | Danger.
Inductive ZoneLevel := Low | Medium | High | Critical.

#[export] Instance SafetyStatus_eq_dec : EqDecision SafetyStatus.
Proof. solve_decision. Defined.

Record Tourist := {
  t_touristId : string;
  t_username : string;
  t_email : string;
  t_phone : string;
  t_dateOfBirth : Z;
  t_status : SafetyStatus;
  t_registeredAt : Z;
  t_isActive : bool;
  t_lastLatitude : Z;  (* lat * 1e6 *)
  t_lastLongitude : Z;  (* lng * 1e6 *)
  t_lastLocationUpdate : Z;
}.

Record DangerZone := {
  z_zoneId : string;
  z_name : string;
  z_latitude : Z;
  z_longitude : Z;
  z_radius : Z;  (* in meters *)
  z_level : ZoneLevel;
  z_createdBy : address;
  z_createdAt : Z;
  z_isActive : bool;
}.

Record EmergencyAlert := {
  a_alertId : string;
  a_tourist : address;
  a_touristId : string;
  a_status : SafetyStatus;
  a_latitude : Z;
  a_longitude : Z;
  a_zoneName : string;
  a_zoneLevel : ZoneLevel;
  a_timestamp : Z;
  a_isDismissed : bool;
}.

Inductive Event :=
| TouristRegistered (wallet : address) (touristId username : string) (timestamp : Z)
| StatusUpdated (tourist : address) (touristId : string)
    (oldStatus newStatus : SafetyStatus) (timestamp : Z)
| LocationUpdated (tourist : address) (touristId : string)
    (latitude longitude timestamp : Z)
| DangerZoneCreated (zoneId name : string) (latitude longitude radius : Z)
    (level : ZoneLevel) (createdBy : address)
| DangerZoneUpdated (zoneId name : string) (radius : Z) (level : ZoneLevel)
| DangerZoneRemoved (zoneId : string) (removedBy : address)
| EmergencyAlertCreated (alertId : string) (tourist : address)
    (touristId : string) (status : SafetyStatus) (timestamp : Z)
| AlertDismissed (alertId : string) (dismissedBy : address)
| AdminAdded (admin addedBy : address)
| AdminRemoved (admin removedBy : address).

(** The storage of the contract. *)
Record State := {
  owner : address;
  admins : list address;
  isAdmin : gmap address bool;
  tourists : gmap address Tourist;
  touristIdToAddress : gmap string address;
  registeredTourists : list address;
  dangerZones : list DangerZone;
  zoneIdToIndex : gmap string Z;
  alerts : list EmergencyAlert;
  alertCount : Z;
  touristCounter : Z;
  zoneCounter : Z;
  alertCounter : Z;
}.

(** Field updates. *)

Definition set_owner (v : address) (x : State) : State :=
  Build_State v (admins x) (isAdmin x) (tourists x) (touristIdToAddress x)
    (registeredTourists x) (dangerZones x) (zoneIdToIndex x) (alerts x)
    (alertCount x) (touristCounter x) (zoneCounter x) (alertCounter x).

Definition set_admins (v : list address) (x : State) : State :=
  Build_State (owner x) v (isAdmin x) (tourists x) (touristIdToAddress x)
    (registeredTourists x) (dangerZones x) (zoneIdToIndex x) (alerts x)
    (alertCount x) (touristCounter x) (zoneCounter x) (alertCounter x).

Definition set_isAdmin (v : gmap address bool) (x : State) : State :=
  Build_State (owner x) (admins x) v (tourists x) (touristIdToAddress x)
    (registeredTourists x) (dangerZones x) (zoneIdToIndex x) (alerts x)
    (alertCount x) (touristCounter x) (zoneCounter x) (alertCounter x).

Definition set_tourists (v : gmap address Tourist) (x : State) : State :=
  Build_State (owner x) (admins x) (isAdmin x) v (touristIdToAddress x)
    (registeredTourists x) (dangerZones x) (zoneIdToIndex x) (alerts x)
    (alertCount x) (touristCounter x) (zoneCounter x) (alertCounter x).

Definition set_touristIdToAddress (v : gmap string address) (x : State) : State :=
  Build_State (owner x) (admins x) (isAdmin x) (tourists x) v
    (registeredTourists x) (dangerZones x) (zoneIdToIndex x) (alerts x)
    (alertCount x) (touristCounter x) (zoneCounter x) (alertCounter x).

Definition set_registeredTourists (v : list address) (x : State) : State :=
  Build_State (owner x) (admins x) (isAdmin x) (tourists x)
    (touristIdToAddress x) v (dangerZones x) (zoneIdToIndex x) (alerts x)
    (alertCount x) (touristCounter x) (zoneCounter x) (alertCounter x).

Definition set_dangerZones (v : list DangerZone) (x : State) : State :=
  Build_State (owner x) (admins x) (isAdmin x) (tourists x)
    (touristIdToAddress x) (registeredTourists x) v (zoneIdToIndex x)
    (alerts x) (alertCount x) (touristCounter x) (zoneCounter x)
    (alertCounter x).

Definition set_zoneIdToIndex (v : gmap string Z) (x : State) : State :=
  Build_State (owner x) (admins x) (isAdmin x) (tourists x)
    (touristIdToAddress x) (registeredTourists x) (dangerZones x) v
    (alerts x) (alertCount x) (touristCounter x) (zoneCounter x)
    (alertCounter x).

Definition set_alerts (v : list EmergencyAlert) (x : State) : State :=
  Build_State (owner x) (admins x) (isAdmin x) (tourists x)
    (touristIdToAddress x) (registeredTourists x) (dangerZones x)
    (zoneIdToIndex x) v (alertCount x) (touristCounter x) (zoneCounter x)
    (alertCounter x).

Definition set_alertCount (v : Z) (x : State) : State :=
  Build_State (owner x) (admins x) (isAdmin x) (tourists x)
    (touristIdToAddress x) (registeredTourists x) (dangerZones x)
    (zoneIdToIndex x) (alerts x) v (touristCounter x) (zoneCounter x)
    (alertCounter x).

Definition set_touristCounter (v : Z) (x : State) : State :=
  Build_State (owner x) (admins x) (isAdmin x) (tourists x)
    (touristIdToAddress x) (registeredTourists x) (dangerZones x)
    (zoneIdToIndex x) (alerts x) (alertCount x) v (zoneCounter x)
    (alertCounter x).

Definition set_zoneCounter (v : Z) (x : State) : State :=
  Build_State (owner x) (admins x) (isAdmin x) (tourists x)
    (touristIdToAddress x) (registeredTourists x) (dangerZones x)
    (zoneIdToIndex x) (alerts x) (alertCount x) (touristCounter x) v
    (alertCounter x).

Definition set_alertCounter (v : Z) (x : State) : State :=
  Build_State (owner x) (admins x) (isAdmin x) (tourists x)
    (touristIdToAddress x) (registeredTourists x) (dangerZones x)
    (zoneIdToIndex x) (alerts x) (alertCount x) (touristCounter x)
    (zoneCounter x) v.

Definition set_t_status (v : SafetyStatus) (x : Tourist) : Tourist :=
  Build_Tourist (t_touristId x) (t_username x) (t_email x) (t_phone x)
    (t_dateOfBirth x) v (t_registeredAt x) (t_isActive x) (t_lastLatitude x)
    (t_lastLongitude x) (t_lastLocationUpdate x).

Definition set_t_lastLatitude (v : Z) (x : Tourist) : Tourist :=
  Build_Tourist (t_touristId x) (t_username x) (t_email x) (t_phone x)
    (t_dateOfBirth x) (t_status x) (t_registeredAt x) (t_isActive x) v
    (t_lastLongitude x) (t_lastLocationUpdate x).

Definition set_t_lastLongitude (v : Z) (x : Tourist) : Tourist :=
  Build_Tourist (t_touristId x) (t_username x) (t_email x) (t_phone x)
    (t_dateOfBirth x) (t_status x) (t_registeredAt x) (t_isActive x)
    (t_lastLatitude x) v (t_lastLocationUpdate x).

Definition set_t_lastLocationUpdate (v : Z) (x : Tourist) : Tourist :=
  Build_Tourist (t_touristId x) (t_username x) (t_email x) (t_phone x)
    (t_dateOfBirth x) (t_status x) (t_registeredAt x) (t_isActive x)
    (t_lastLatitude x) (t_lastLongitude x) v.

Definition set_z_name (v : string) (x : DangerZone) : DangerZone :=
  Build_DangerZone (z_zoneId x) v (z_latitude x) (z_longitude x)
    (z_radius x) (z_level x) (z_createdBy x) (z_createdAt x) (z_isActive x).

Definition set_z_radius (v : Z) (x : DangerZone) : DangerZone :=
  Build_DangerZone (z_zoneId x) (z_name x) (z_latitude x) (z_longitude x) v
    (z_level x) (z_createdBy x) (z_createdAt x) (z_isActive x).

Definition set_z_level (v : ZoneLevel) (x : DangerZone) : DangerZone :=
  Build_DangerZone (z_zoneId x) (z_name x) (z_latitude x) (z_longitude x)
    (z_radius x) v (z_createdBy x) (z_createdAt x) (z_isActive x).

Definition set_z_isActive (v : bool) (x : DangerZone) : DangerZone :=
  Build_DangerZone (z_zoneId x) (z_name x) (z_latitude x) (z_longitude x)
    (z_radius x) (z_level x) (z_createdBy x) (z_createdAt x) v.

Definition set_a_isDismissed (v : bool) (x : EmergencyAlert) : EmergencyAlert :=
  Build_EmergencyAlert (a_alertId x) (a_tourist x) (a_touristId x)
    (a_status x) (a_latitude x) (a_longitude x) (a_zoneName x)
    (a_zoneLevel x) (a_timestamp x) v.


(** A mapping reads as the zero value at a key never written. *)
Definition zeroTourist : Tourist :=
  {| t_touristId := ""; t_username := ""; t_email := ""; t_phone := "";
     t_dateOfBirth := 0; t_status := Safe; t_registeredAt := 0;
     t_isActive := false; t_lastLatitude := 0; t_lastLongitude := 0;
     t_lastLocationUpdate := 0 |}.

Definition zeroAlert : EmergencyAlert :=
  {| a_alertId := ""; a_tourist := 0; a_touristId := ""; a_status := Safe;
     a_latitude := 0; a_longitude := 0; a_zoneName := ""; a_zoneLevel := Low;
     a_timestamp := 0; a_isDismissed := false |}.

Definition tourist_at (st : State) (a : address) : Tourist :=
  default zeroTourist (tourists st !! a).

Definition isAdmin_at (st : State) (a : address) : bool :=
  default false (isAdmin st !! a).

(** What a transaction sees of its environment. [keccak] stands for the 32
    bytes of the hash [_generateTouristId] takes its digits from. *)
Record Env := {
  msg_sender : address;
  block_timestamp : Z;
  keccak : list Z;
}.

(** *** Transactions: state, emitted events, revert *)

Definition M (A : Type) : Type := State → option (A * State * list Event).

#[export] Instance M_ret : MRet M := λ A a st, Some (a, st, []).

#[export] Instance M_bind : MBind M := λ A B f m st,
  match m st with
  | None => None
  | Some (a, st1, ev1) =>
      match f a st1 with
      | None => None
      | Some (b, st2, ev2) => Some (b, st2, ev1 ++ ev2)
      end
  end.

Definition revert {A} : M A := λ _, None.
Definition require (b : bool) : M unit :=
  λ st, if b then Some (tt, st, []) else None.
Definition get : M State := λ st, Some (st, st, []).
Definition modify (f : State → State) : M unit := λ st, Some (tt, f st, []).
Definition emit (e : Event) : M unit := λ st, Some (tt, st, [e]).

(** Checked arithmetic of Solidity 0.8: a result out of range is [None],
    and [checked] reverts the transaction on it. *)
Definition uint256 (x : Z) : option Z :=
  if bool_decide (0 ≤ x ≤ MAX_UINT256) then Some x else None.
Definition int256 (x : Z) : option Z :=
  if bool_decide (MIN_INT256 ≤ x ≤ MAX_INT256) then Some x else None.
Definition checked {A} (o : option A) : M A :=
  λ st, match o with Some a => Some (a, st, []) | None => None end.

(** The explicit conversion [int256(x)] of an unsigned value wraps. *)
Definition int256_of_uint256 (x : Z) : Z :=
  if bool_decide (x ≤ MAX_INT256) then x else x - 2 ^ 256.

(** *** Utility functions *)

Fixpoint digits (fuel : nat) (i : Z) (acc : string) : string :=
  match fuel with
  | O => acc
  | S fuel' =>
      if bool_decide (i = 0) then acc
      else digits fuel' (i / 10)
             (String (Ascii.ascii_of_N (Z.to_N (48 + (i - i / 10 * 10)))) acc)
  end.

(** [_uint2str]: 78 digits are enough for a [uint256]. *)
Definition _uint2str (_i : Z) : string :=
  if bool_decide (_i = 0) then "0" else digits 78 _i "".

Definition hexchar (b : Z) : string :=
  match String.get (Z.to_nat (b `mod` 16)) "0123456789ABCDEF" with
  | Some c => String c ""
  | None => ""
  end.

(** [_generateTouristId]: [TID-XXXXXX-XXXX] from the first ten hash bytes. *)
Definition _generateTouristId (env : Env) : string :=
  let hash i := default 0 (keccak env !! i) in
  "TID-" +:+ String.concat "" (hexchar <$> (hash <$> seq 0 6)) +:+ "-"
         +:+ String.concat "" (hexchar <$> (hash <$> seq 6 4)).

(** *** Modifiers *)

Definition onlyOwner (env : Env) : M unit :=
  st ← get; require (bool_decide (msg_sender env = owner st)).

Definition onlyAdmin (env : Env) : M unit :=
  st ← get;
  require (isAdmin_at st (msg_sender env)
           || bool_decide (msg_sender env = owner st)).

Definition onlyRegisteredTourist (env : Env) : M unit :=
  st ← get; require (t_isActive (tourist_at st (msg_sender env))).

(** *** Constructor and admin management *)

Definition constructor (env : Env) : State :=
  {| owner := msg_sender env;
     admins := [msg_sender env];
     isAdmin := {[ msg_sender env := true ]};
     tourists := ∅; touristIdToAddress := ∅; registeredTourists := [];
     dangerZones := []; zoneIdToIndex := ∅;
     alerts := []; alertCount := 0;
     touristCounter := 0; zoneCounter := 0; alertCounter := 0 |}.

Definition addAdmin (env : Env) (_admin : address) : M unit :=
  onlyOwner env;;
  require (negb (bool_decide (_admin = 0)));;
  st ← get;
  require (negb (isAdmin_at st _admin));;
  modify (λ st, set_isAdmin (<[_admin := true]> (isAdmin st)) st);;
  modify (λ st, set_admins (admins st ++ [_admin]) st);;
  emit (AdminAdded _admin (msg_sender env)).

(** The loop of [removeAdmin]: the first occurrence is overwritten with the
    last element, and the last element is popped. *)
Fixpoint remove_swap (i : nat) (_admin : address) (l : list address)
    (todo : list address) : list address :=
  match todo with
  | [] => l
  | a :: todo' =>
      if bool_decide (a = _admin) then
        removelast (<[i := List.last l 0]> l)
      else remove_swap (S i) _admin l todo'
  end.

Definition removeAdmin (env : Env) (_admin : address) : M unit :=
  onlyOwner env;;
  st ← get;
  require (negb (bool_decide (_admin = owner st)));;
  require (isAdmin_at st _admin);;
  modify (λ st, set_isAdmin (<[_admin := false]> (isAdmin st)) st);;
  modify (λ st, set_admins (remove_swap 0 _admin (admins st) (admins st)) st);;
  emit (AdminRemoved _admin (msg_sender env)).

(** *** Tourist registration *)

Definition registerTourist (env : Env)
    (_username _email _phone : string) (_dateOfBirth : Z) : M string :=
  st ← get;
  require (negb (t_isActive (tourist_at st (msg_sender env))));;
  require (bool_decide (0 < Z.of_nat (String.length _username)));;
  require (bool_decide (0 < Z.of_nat (String.length _email)));;
  c ← checked (uint256 (touristCounter st + 1));
  modify (set_touristCounter c);;
  let touristId := _generateTouristId env in
  modify (λ st, set_tourists (<[msg_sender env :=
    {| t_touristId := touristId; t_username := _username; t_email := _email;
       t_phone := _phone; t_dateOfBirth := _dateOfBirth; t_status := Safe;
       t_registeredAt := block_timestamp env; t_isActive := true;
       t_lastLatitude := 0; t_lastLongitude := 0;
       t_lastLocationUpdate := 0 |}]> (tourists st)) st);;
  modify (λ st, set_touristIdToAddress
                  (<[touristId := msg_sender env]> (touristIdToAddress st)) st);;
  modify (λ st, set_registeredTourists
                  (registeredTourists st ++ [msg_sender env]) st);;
  emit (TouristRegistered (msg_sender env) touristId _username
          (block_timestamp env));;
  mret touristId.

(** *** Emergency alerts *)

Definition _createEmergencyAlert (env : Env) (_tourist : address)
    (_status : SafetyStatus) (_zoneName : string) (_zoneLevel : ZoneLevel)
  : M unit :=
  st ← get;
  c ← checked (uint256 (alertCounter st + 1));
  modify (set_alertCounter c);;
  let alertId := "ALERT-" +:+ _uint2str c in
  st ← get;
  let tourist := tourist_at st _tourist in
  modify (λ st, set_alerts (alerts st ++
    [{| a_alertId := alertId; a_tourist := _tourist;
        a_touristId := t_touristId tourist; a_status := _status;
        a_latitude := t_lastLatitude tourist;
        a_longitude := t_lastLongitude tourist;
        a_zoneName := _zoneName; a_zoneLevel := _zoneLevel;
        a_timestamp := block_timestamp env; a_isDismissed := false |}]) st);;
  st ← get;
  n ← checked (uint256 (alertCount st + 1));
  modify (set_alertCount n);;
  emit (EmergencyAlertCreated alertId _tourist (t_touristId tourist) _status
          (block_timestamp env)).

Definition dismissAlert (env : Env) (_alertIndex : Z) : M unit :=
  onlyAdmin env;;
  st ← get;
  require (bool_decide (0 ≤ _alertIndex < Z.of_nat (length (alerts st))));;
  match alerts st !! Z.to_nat _alertIndex with
  | None => revert
  | Some a =>
      require (negb (a_isDismissed a));;
      modify (λ st, set_alerts
        (<[Z.to_nat _alertIndex := set_a_isDismissed true a]> (alerts st)) st);;
      n ← checked (uint256 (alertCount st - 1));
      modify (set_alertCount n);;
      emit (AlertDismissed (a_alertId a) (msg_sender env))
  end.

(** *** Status and location *)

Definition set_tourist (a : address) (t : Tourist) (st : State) : State :=
  set_tourists (<[a := t]> (tourists st)) st.

Definition updateStatus (env : Env) (_status : SafetyStatus) : M unit :=
  onlyRegisteredTourist env;;
  st ← get;
  let tourist := tourist_at st (msg_sender env) in
  let oldStatus := t_status tourist in
  modify (set_tourist (msg_sender env) (set_t_status _status tourist));;
  emit (StatusUpdated (msg_sender env) (t_touristId tourist) oldStatus _status
          (block_timestamp env));;
  if bool_decide (_status = Alert ∨ _status = Danger) then
    _createEmergencyAlert env (msg_sender env) _status "" Low
  else mret tt.

(** The test of one zone in [_checkDangerZoneEntry]: the squared coordinate
    distance against the squared radius (one meter taken as ten units). *)
Definition distanceSquared (_latitude _longitude : Z) (zone : DangerZone)
  : option Z :=
  latDiff ← int256 (_latitude - z_latitude zone);
  lngDiff ← int256 (_longitude - z_longitude zone);
  lat2 ← int256 (latDiff * latDiff);
  lng2 ← int256 (lngDiff * lngDiff);
  int256 (lat2 + lng2).

Definition radiusSquared (zone : DangerZone) : option Z :=
  r2 ← uint256 (z_radius zone * z_radius zone);
  r2' ← uint256 (r2 * 100);
  Some (int256_of_uint256 r2').

(** [distanceSquared <= radiusSquared] *)
Definition inZone (_latitude _longitude : Z) (zone : DangerZone) : option bool :=
  d ← distanceSquared _latitude _longitude zone;
  r ← radiusSquared zone;
  Some (bool_decide (d ≤ r)).

(** The loop of [_checkDangerZoneEntry] over [dangerZones]: inactive zones
    are skipped, the first zone the position is in ends the loop. *)
Fixpoint _checkDangerZoneEntry_from (env : Env) (zones : list DangerZone)
    (_tourist : address) (_latitude _longitude : Z) : M unit :=
  match zones with
  | [] => mret tt
  | zone :: zones' =>
      if negb (z_isActive zone) then
        _checkDangerZoneEntry_from env zones' _tourist _latitude _longitude
      else
        hit ← checked (inZone _latitude _longitude zone);
        if hit : bool then
          st ← get;
          let tourist := tourist_at st _tourist in
          if bool_decide (t_status tourist = Safe) then
            modify (set_tourist _tourist (set_t_status Alert tourist));;
            _createEmergencyAlert env _tourist Alert (z_name zone) (z_level zone)
          else mret tt
        else
          _checkDangerZoneEntry_from env zones' _tourist _latitude _longitude
  end.

Definition _checkDangerZoneEntry (env : Env) (_tourist : address)
    (_latitude _longitude : Z) : M unit :=
  st ← get;
  _checkDangerZoneEntry_from env (dangerZones st) _tourist _latitude _longitude.

Definition updateLocation (env : Env) (_latitude _longitude : Z) : M unit :=
  onlyRegisteredTourist env;;
  st ← get;
  let tourist := tourist_at st (msg_sender env) in
  modify (set_tourist (msg_sender env)
    (set_t_lastLocationUpdate (block_timestamp env)
       (set_t_lastLongitude _longitude
          (set_t_lastLatitude _latitude tourist))));;
  emit (LocationUpdated (msg_sender env) (t_touristId tourist)
          _latitude _longitude (block_timestamp env));;
  _checkDangerZoneEntry env (msg_sender env) _latitude _longitude.

(** *** Danger zone management *)

Definition createDangerZone (env : Env) (_name : string)
    (_latitude _longitude _radius : Z) (_level : ZoneLevel) : M string :=
  onlyAdmin env;;
  require (bool_decide (0 < Z.of_nat (String.length _name)));;
  require (bool_decide (0 < _radius));;
  st ← get;
  c ← checked (uint256 (zoneCounter st + 1));
  modify (set_zoneCounter c);;
  let zoneId := "ZONE-" +:+ _uint2str c in
  modify (λ st, set_dangerZones (dangerZones st ++
    [{| z_zoneId := zoneId; z_name := _name; z_latitude := _latitude;
        z_longitude := _longitude; z_radius := _radius; z_level := _level;
        z_createdBy := msg_sender env; z_createdAt := block_timestamp env;
        z_isActive := true |}]) st);;
  modify (λ st, set_zoneIdToIndex
    (<[zoneId := Z.of_nat (length (dangerZones st)) - 1]> (zoneIdToIndex st)) st);;
  emit (DangerZoneCreated zoneId _name _latitude _longitude _radius _level
          (msg_sender env));;
  mret zoneId.

Definition updateDangerZone (env : Env) (_zoneIndex : Z) (_name : string)
    (_radius : Z) (_level : ZoneLevel) : M unit :=
  onlyAdmin env;;
  st ← get;
  require (bool_decide (0 ≤ _zoneIndex < Z.of_nat (length (dangerZones st))));;
  match dangerZones st !! Z.to_nat _zoneIndex with
  | None => revert
  | Some zone =>
      require (z_isActive zone);;
      modify (set_dangerZones (<[Z.to_nat _zoneIndex :=
        set_z_level _level (set_z_radius _radius (set_z_name _name zone))]>
        (dangerZones st)));;
      emit (DangerZoneUpdated (z_zoneId zone) _name _radius _level)
  end.

Definition removeDangerZone (env : Env) (_zoneIndex : Z) : M unit :=
  onlyAdmin env;;
  st ← get;
  require (bool_decide (0 ≤ _zoneIndex < Z.of_nat (length (dangerZones st))));;
  match dangerZones st !! Z.to_nat _zoneIndex with
  | None => revert
  | Some zone =>
      require (z_isActive zone);;
      modify (set_dangerZones
        (<[Z.to_nat _zoneIndex := set_z_isActive false zone]> (dangerZones st)));;
      emit (DangerZoneRemoved (z_zoneId zone) (msg_sender env))
  end.

(** *** View functions *)

(** The loop of [getActiveAlerts]: the alerts not dismissed are written to
    the next free slot of the result; a write past its end reverts. *)
Fixpoint getActiveAlerts_from (todo : list EmergencyAlert)
    (activeAlerts : list EmergencyAlert) (index : nat)
  : option (list EmergencyAlert) :=
  match todo with
  | [] => Some activeAlerts
  | a :: todo' =>
      if negb (a_isDismissed a) then
        if bool_decide (index < length activeAlerts)%nat then
          getActiveAlerts_from todo' (<[index := a]> activeAlerts) (S index)
        else None
      else getActiveAlerts_from todo' activeAlerts index
  end.

Definition getActiveAlerts (env : Env) : M (list EmergencyAlert) :=
  onlyAdmin env;;
  st ← get;
  let activeAlerts := replicate (Z.to_nat (alertCount st)) zeroAlert in
  match getActiveAlerts_from (alerts st) activeAlerts 0 with
  | Some res => mret res
  | None => revert
  end.

(** *** Calls *)

Inductive Call :=
| AddAdmin (_admin : address)
| RemoveAdmin (_admin : address)
| RegisterTourist (_username _email _phone : string) (_dateOfBirth : Z)
| UpdateStatus (_status : SafetyStatus)
| UpdateLocation (_latitude _longitude : Z)
| CreateDangerZone (_name : string) (_latitude _longitude _radius : Z)
    (_level : ZoneLevel)
| UpdateDangerZone (_zoneIndex : Z) (_name : string) (_radius : Z)
    (_level : ZoneLevel)
| RemoveDangerZone (_zoneIndex : Z)
| DismissAlert (_alertIndex : Z).

Definition void {A} (m : M A) : M unit := m ≫= λ _, mret tt.

Definition dispatch (env : Env) (c : Call) : M unit :=
  match c with
  | AddAdmin a => addAdmin env a
  | RemoveAdmin a => removeAdmin env a
  | RegisterTourist u e p d => void (registerTourist env u e p d)
  | UpdateStatus s => updateStatus env s
  | UpdateLocation lat lng => updateLocation env lat lng
  | CreateDangerZone n lat lng r l => void (createDangerZone env n lat lng r l)
  | UpdateDangerZone i n r l => updateDangerZone env i n r l
  | RemoveDangerZone i => removeDangerZone env i
  | DismissAlert i => dismissAlert env i
  end.

(** A transaction that reverts leaves the storage as it was and emits
    nothing. *)
Definition transact (st : State) (tx : Env * Call) : State * list Event :=
  match dispatch tx.1 tx.2 st with
  | Some (_, st', evs) => (st', evs)
  | None => (st, [])
  end.

(** The storage after a history of transactions, with the events of each. *)
Fixpoint history (txs : list (Env * Call)) (st : State)
  : State * list (list Event) :=
  match txs with
  | [] => (st, [])
  | tx :: txs' =>
      let '(st1, evs) := transact st tx in
      let '(st2, evss) := history txs' st1 in
      (st2, evs :: evss)
  end.

(** The storages the contract can be in. *)
Definition reachable (st : State) : Prop :=
  ∃ env txs, st = (history txs (constructor env)).1.

(** The alerts not dismissed. *)
Definition active (l : list EmergencyAlert) : list EmergencyAlert :=
  filter (λ a, a_isDismissed a = false) l.

(** [alertCount] is the number of alerts not dismissed, and a [uint256]. *)
Definition count_ok (st : State) : Prop :=
  alertCount st = Z.of_nat (length (active (alerts st)))
  ∧ alertCount st ≤ MAX_UINT256.

(** A zone the loop of [_checkDangerZoneEntry] passes over: it is inactive,
    or the position is tested, without overflow, not to be in it. *)
Definition passed (_latitude _longitude : Z) (zone : DangerZone) : Prop :=
  z_isActive zone = false ∨ inZone _latitude _longitude zone = Some false.

(** The storage after the assignments of [updateLocation]. *)
Definition located (env : Env) (_latitude _longitude : Z) (st : State) : State :=
  set_tourist (msg_sender env)
    (set_t_lastLocationUpdate (block_timestamp env)
       (set_t_lastLongitude _longitude
          (set_t_lastLatitude _latitude (tourist_at st (msg_sender env))))) st.

(** The alert [_createEmergencyAlert] pushes in storage [st]. *)
Definition new_alert (env : Env) (st : State) (_tourist : address)
    (_status : SafetyStatus) (_zoneName : string) (_zoneLevel : ZoneLevel)
  : EmergencyAlert :=
  {| a_alertId := "ALERT-" +:+ _uint2str (alertCounter st + 1);
     a_tourist := _tourist;
     a_touristId := t_touristId (tourist_at st _tourist);
     a_status := _status;
     a_latitude := t_lastLatitude (tourist_at st _tourist);
     a_longitude := t_lastLongitude (tourist_at st _tourist);
     a_zoneName := _zoneName; a_zoneLevel := _zoneLevel;
     a_timestamp := block_timestamp env; a_isDismissed := false |}.

(** The events that announce an alert. *)
Definition is_alert_event (e : Event) : bool :=
  match e with EmergencyAlertCreated _ _ _ _ _ => true | _ => false end.

(** The scan of [_checkDangerZoneEntry] stops at zone [z]: every zone
    before it in the array is passed over, and [z] is active and the
    position is tested, without overflow, to be in it. *)
Definition stops_at (_latitude _longitude : Z) (zones : list DangerZone)
    (z : DangerZone) : Prop :=
  ∃ pre post, zones = pre ++ z :: post
    ∧ Forall (passed _latitude _longitude) pre
    ∧ z_isActive z = true ∧ inZone _latitude _longitude z = Some true.

(** The scan overflows: it reaches, every zone before it being passed
    over, an active zone whose test leaves the range of the checked
    arithmetic. *)
Definition overflows (_latitude _longitude : Z) (zones : list DangerZone)
  : Prop :=
  ∃ pre z post, zones = pre ++ z :: post
    ∧ Forall (passed _latitude _longitude) pre
    ∧ z_isActive z = true ∧ inZone _latitude _longitude z = None.

(** The event [LocationUpdated] of a location update. *)
Definition location_event (env : Env) (_latitude _longitude : Z) (st : State)
  : Event :=
  LocationUpdated (msg_sender env) (t_touristId (tourist_at st (msg_sender env)))
    _latitude _longitude (block_timestamp env).

(** *** Further view functions *)

Definition zeroZone : DangerZone :=
  {| z_zoneId := ""; z_name := ""; z_latitude := 0; z_longitude := 0;
     z_radius := 0; z_level := Low; z_createdBy := 0; z_createdAt := 0;
     z_isActive := false |}.

(** The first loop of the filtering views: the elements to return are
    counted. *)
Fixpoint count_from {A} (keep : A → bool) (todo : list A) (count : nat) : nat :=
  match todo with
  | [] => count
  | x :: todo' =>
      if keep x then count_from keep todo' (S count)
      else count_from keep todo' count
  end.

(** Their second loop: the elements to return are written to the next free
    slot of the result; a write past its end reverts. *)
Fixpoint fill_from {A} (keep : A → bool) (todo : list A) (result : list A)
    (index : nat) : option (list A) :=
  match todo with
  | [] => Some result
  | x :: todo' =>
      if keep x then
        if bool_decide (index < length result)%nat then
          fill_from keep todo' (<[index := x]> result) (S index)
        else None
      else fill_from keep todo' result index
  end.

Definition getActiveDangerZones : M (list DangerZone) :=
  st ← get;
  let activeCount := count_from z_isActive (dangerZones st) 0 in
  let activeZones := replicate activeCount zeroZone in
  checked (fill_from z_isActive (dangerZones st) activeZones 0).

Definition getAllDangerZones : M (list DangerZone) :=
  st ← get; mret (dangerZones st).

(** The two loops of [getTouristsByStatus] read
    [tourists[registeredTourists[i]]] for every index [i]. *)
Definition getTouristsByStatus (env : Env) (_status : SafetyStatus)
  : M (list Tourist) :=
  onlyAdmin env;;
  st ← get;
  let read := tourist_at st <$> registeredTourists st in
  let keep t := bool_decide (t_status t = _status) in
  let count := count_from keep read 0 in
  checked (fill_from keep read (replicate count zeroTourist) 0).

Definition getAllTourists (env : Env) : M (list Tourist) :=
  onlyAdmin env;;
  st ← get;
  mret (tourist_at st <$> registeredTourists st).

Definition getTourist (_wallet : address) : M Tourist :=
  st ← get; mret (tourist_at st _wallet).

Definition getTouristById (_touristId : string) : M Tourist :=
  st ← get;
  let wallet := default 0 (touristIdToAddress st !! _touristId) in
  require (negb (bool_decide (wallet = 0)));;
  mret (tourist_at st wallet).

Definition getAllAlerts (env : Env) : M (list EmergencyAlert) :=
  onlyAdmin env;; st ← get; mret (alerts st).

Definition getAdmins : M (list address) :=
  st ← get; mret (admins st).

Definition getTouristCount : M Z :=
  st ← get; mret (Z.of_nat (length (registeredTourists st))).

Definition isRegistered (_wallet : address) : M bool :=
  st ← get; mret (t_isActive (tourist_at st _wallet)).

(** *** Reading the generated identifiers *)

(** The value of a string of decimal digits, [None] on any other
    character; the inverse of [_uint2str]. *)
Fixpoint parse_digits (s : string) (acc : Z) : option Z :=
  match s with
  | EmptyString => Some acc
  | String c s' =>
      let d := Z.of_N (Ascii.N_of_ascii c) - 48 in
      if bool_decide (0 ≤ d ≤ 9) then parse_digits s' (acc * 10 + d)
      else None
  end.

Definition parse_uint (s : string) : option Z :=
  match s with
  | EmptyString => None
  | _ => parse_digits s 0
  end.

(** The characters of [chars] in [_generateTouristId]. *)
Definition is_hex (c : Ascii.ascii) : bool :=
  let n := Z.of_N (Ascii.N_of_ascii c) in
  bool_decide (48 ≤ n ≤ 57) || bool_decide (65 ≤ n ≤ 70).

(** *** Who may call what *)

Inductive Guard := ByOwner | ByAdmin | ByTourist | ByAnyone.

(** The modifier of each state-changing function. *)
Definition guard (c : Call) : Guard :=
  match c with
  | AddAdmin _ | RemoveAdmin _ => ByOwner
  | CreateDangerZone _ _ _ _ _ | UpdateDangerZone _ _ _ _
  | RemoveDangerZone _ | DismissAlert _ => ByAdmin
  | UpdateStatus _ | UpdateLocation _ _ => ByTourist
  | RegisterTourist _ _ _ _ => ByAnyone
  end.

(** Whether the sender passes the modifier. *)
Definition allowed (env : Env) (st : State) (g : Guard) : bool :=
  match g with
  | ByOwner => bool_decide (msg_sender env = owner st)
  | ByAdmin => isAdmin_at st (msg_sender env)
               || bool_decide (msg_sender env = owner st)
  | ByTourist => t_isActive (tourist_at st (msg_sender env))
  | ByAnyone => true
  end.

(** *** Invariants

    The owner is the deployer; the admins of the array are the addresses
    the mapping marks, once each, and the owner is one of them. *)
Definition admins_ok (env0 : Env) (st : State) : Prop :=
  owner st = msg_sender env0
  ∧ NoDup (admins st)
  ∧ (∀ a, a ∈ admins st ↔ isAdmin_at st a = true)
  ∧ owner st ∈ admins st.

(** The zones carry the ids ZONE-1, ZONE-2, ... in array order, and
    [zoneIdToIndex] maps the id of each zone to its index. *)
Definition zones_ok (st : State) : Prop :=
  zoneCounter st = Z.of_nat (length (dangerZones st))
  ∧ zoneCounter st ≤ MAX_UINT256
  ∧ ∀ (i : nat) z, dangerZones st !! i = Some z →
      z_zoneId z = "ZONE-" +:+ _uint2str (Z.of_nat i + 1)
      ∧ zoneIdToIndex st !! z_zoneId z = Some (Z.of_nat i).

(** The alerts carry the ids ALERT-1, ALERT-2, ... in array order. *)
Definition alerts_ok (st : State) : Prop :=
  alertCounter st = Z.of_nat (length (alerts st))
  ∧ alertCounter st ≤ MAX_UINT256
  ∧ ∀ (i : nat) a, alerts st !! i = Some a →
      a_alertId a = "ALERT-" +:+ _uint2str (Z.of_nat i + 1).

(** From [st] to [st'] every zone stays at its index with its id, center
    and creation data, and a zone that is inactive stays as it is. *)
Definition zones_kept (st st' : State) : Prop :=
  ∀ (i : nat) z, dangerZones st !! i = Some z →
    ∃ z', dangerZones st' !! i = Some z'
      ∧ z_zoneId z' = z_zoneId z
      ∧ z_latitude z' = z_latitude z ∧ z_longitude z' = z_longitude z
      ∧ z_createdBy z' = z_createdBy z ∧ z_createdAt z' = z_createdAt z
      ∧ (z_isActive z = false → z' = z).

(** From [st] to [st'] every alert stays at its index, unchanged but for
    its [isDismissed] flag, which never goes back to false. *)
Definition alerts_kept (st st' : State) : Prop :=
  ∀ (i : nat) a, alerts st !! i = Some a →
    ∃ a', alerts st' !! i = Some a'
      ∧ set_a_isDismissed (a_isDismissed a') a = a'
      ∧ (a_isDismissed a = true → a_isDismissed a' = true).

(** The registered wallets are the wallets of the active tourists, once
    each. *)
Definition registry_ok (st : State) : Prop :=
  NoDup (registeredTourists st)
  ∧ (∀ a, a ∈ registeredTourists st ↔ t_isActive (tourist_at st a) = true)
  ∧ touristCounter st = Z.of_nat (length (registeredTourists st)).

(** From [st] to [st'] every registered tourist stays registered, with
    the data of the registration. *)
Definition tourists_kept (st st' : State) : Prop :=
  ∀ a, t_isActive (tourist_at st a) = true →
    let t := tourist_at st a in
    let t' := tourist_at st' a in
    t_isActive t' = true
    ∧ t_touristId t' = t_touristId t ∧ t_username t' = t_username t
    ∧ t_email t' = t_email t ∧ t_phone t' = t_phone t
    ∧ t_dateOfBirth t' = t_dateOfBirth t
    ∧ t_registeredAt t' = t_registeredAt t.

End Contract.

(** ** The scenario of the specification

    Zone [Z1] of radius 1000 m around (10.0, 20.0); a sample at the center
    and a sample at (10.02, 20.0), about 2224 m to the north. *)

Module Scenario.

Local Open Scope R_scope.

Definition Z1 : Hook.DangerZone :=
  {| Hook.zone_id := "Z1"; Hook.zone_name := "Old Quarry";
     Hook.zone_lat := 10; Hook.zone_lng := 20;
     Hook.zone_radius := 1000; Hook.zone_level := Hook.high |}.

Definition center : Hook.UserLocation :=
  {| Hook.loc_lat := 10; Hook.loc_lng := 20 |}.

Definition north : Hook.UserLocation :=
  {| Hook.loc_lat := 10.02; Hook.loc_lng := 20 |}.

Definition render (loc : Hook.UserLocation) (now : Z) : Hook.Render :=
  {| Hook.userLocation := Some loc; Hook.userId := "TID-AB12CD-34EF";
     Hook.r_username := "alice"; Hook.dangerZones := [Z1];
     Hook.date_now := now |}.

(** A location north of the pole: its latitude is out of range. *)
Definition beyond_pole : Hook.UserLocation :=
  {| Hook.loc_lat := 90.005; Hook.loc_lng := 20 |}.

Definition polar_zone : Hook.DangerZone :=
  {| Hook.zone_id := "Z9"; Hook.zone_name := "Pole";
     Hook.zone_lat := 90; Hook.zone_lng := 20;
     Hook.zone_radius := 1000; Hook.zone_level := Hook.low |}.

Definition polar_render : Hook.Render :=
  {| Hook.userLocation := Some beyond_pole; Hook.userId := "TID-AB12CD-34EF";
     Hook.r_username := "alice"; Hook.dangerZones := [polar_zone];
     Hook.date_now := 7 |}.

(** A zone of radius zero: its center is at distance exactly the radius. *)
Definition point_zone : Hook.DangerZone :=
  {| Hook.zone_id := "Z0"; Hook.zone_name := "Point";
     Hook.zone_lat := 10; Hook.zone_lng := 20;
     Hook.zone_radius := 0; Hook.zone_level := Hook.low |}.

(** The backend: a request from the center of the zones of the table. *)
Definition zone_row (name : string) (radius : R) : Server.ZoneRow :=
  {| Server.zone_name := name; Server.zone_lat := 10; Server.zone_lng := 20;
     Server.zone_radius := radius; Server.zone_level := "high" |}.

Definition body : Server.Body :=
  {| Server.user_id := "user-1"; Server.tourist_id := "TID-AB12CD-34EF";
     Server.lat := 10; Server.lng := 20 |}.

Definition db (status : string) (zones : list Server.ZoneRow) : Server.DB :=
  {| Server.profiles :=
       [{| Server.profile_user_id := "user-1";
           Server.profile_status := status |}];
     Server.user_locations := [];
     Server.danger_zones := zones;
     Server.alerts := [] |}.

Local Close Scope R_scope.
Local Open Scope Z_scope.

(** The contract: an admin creates three zones around (10.0, 20.0), a
    tourist registers. Coordinates are degrees times 1e6. *)
Definition admin_env : Contract.Env :=
  {| Contract.msg_sender := 1; Contract.block_timestamp := 1000;
     Contract.keccak := [] |}.

Definition tourist_env (now : Z) : Contract.Env :=
  {| Contract.msg_sender := 2; Contract.block_timestamp := now;
     Contract.keccak := [171; 18; 205; 52; 239; 86; 120; 154; 188; 222]%Z |}.

Definition setup : list (Contract.Env * Contract.Call) :=
  [(admin_env,
    Contract.CreateDangerZone "Old Quarry" 10000000 20000000 1000 Contract.High);
   (admin_env,
    Contract.CreateDangerZone "Harbour" 10000000 20000000 2000 Contract.Medium);
   (admin_env,
    Contract.CreateDangerZone "Cliff" 10000000 20000000 3000 Contract.Low);
   (tourist_env 1001, Contract.RegisterTourist "alice" "alice@example.org" "555" 0)]%Z.

(** The first zone, as [createDangerZone] stores it. *)
Definition quarry : Contract.DangerZone :=
  {| Contract.z_zoneId := "ZONE-1"; Contract.z_name := "Old Quarry";
     Contract.z_latitude := 10000000; Contract.z_longitude := 20000000;
     Contract.z_radius := 1000; Contract.z_level := Contract.High;
     Contract.z_createdBy := 1; Contract.z_createdAt := 1000;
     Contract.z_isActive := true |}.

Definition harbour : Contract.DangerZone :=
  {| Contract.z_zoneId := "ZONE-2"; Contract.z_name := "Harbour";
     Contract.z_latitude := 10000000; Contract.z_longitude := 20000000;
     Contract.z_radius := 2000; Contract.z_level := Contract.Medium;
     Contract.z_createdBy := 1; Contract.z_createdAt := 1000;
     Contract.z_isActive := true |}.

Definition cliff : Contract.DangerZone :=
  {| Contract.z_zoneId := "ZONE-3"; Contract.z_name := "Cliff";
     Contract.z_latitude := 10000000; Contract.z_longitude := 20000000;
     Contract.z_radius := 3000; Contract.z_level := Contract.Low;
     Contract.z_createdBy := 1; Contract.z_createdAt := 1000;
     Contract.z_isActive := true |}.

Definition deployed : Contract.State :=
  (Contract.history setup (Contract.constructor admin_env)).1.

(** In, out to the north by 0.05 degrees, and in again. *)
Definition in_out_in : list (Contract.Env * Contract.Call) :=
  [(tourist_env 1002, Contract.UpdateLocation 10000000 20000000);
   (tourist_env 1003, Contract.UpdateLocation 10050000 20000000);
   (tourist_env 1004, Contract.UpdateLocation 10000000 20000000)]%Z.

(** The storage after the first update of [in_out_in]: the tourist is in
    the zones and has status [Alert]. *)
Definition alerted : Contract.State :=
  (Contract.history (take 1 in_out_in) deployed).1.

(** The alert of the first update of [in_out_in], as
    [_createEmergencyAlert] stores it. *)
Definition first_alert : Contract.EmergencyAlert :=
  {| Contract.a_alertId := "ALERT-1"; Contract.a_tourist := 2;
     Contract.a_touristId := "TID-B2D4F6-8ACE";
     Contract.a_status := Contract.Alert;
     Contract.a_latitude := 10000000; Contract.a_longitude := 20000000;
     Contract.a_zoneName := "Old Quarry"; Contract.a_zoneLevel := Contract.High;
     Contract.a_timestamp := 1002; Contract.a_isDismissed := false |}.

(** The storage before the registration of [setup]. *)
Definition zoned : Contract.State :=
  (Contract.history (take 3 setup) (Contract.constructor admin_env)).1.

(** A contract whose only zone has a radius of 2^128 m: its square does
    not fit a [uint256]. *)
Definition everywhere : Contract.DangerZone :=
  {| Contract.z_zoneId := "ZONE-1"; Contract.z_name := "Everywhere";
     Contract.z_latitude := 0; Contract.z_longitude := 0;
     Contract.z_radius := 2 ^ 128; Contract.z_level := Contract.Low;
     Contract.z_createdBy := 1; Contract.z_createdAt := 1000;
     Contract.z_isActive := true |}.

Definition oversized : list (Contract.Env * Contract.Call) :=
  [(admin_env,
    Contract.CreateDangerZone "Everywhere" 0 0 (2 ^ 128) Contract.Low);
   (tourist_env 1001, Contract.RegisterTourist "alice" "alice@example.org" "555" 0)].

Definition blocked : Contract.State :=
  (Contract.history oversized (Contract.constructor admin_env)).1.

(** A zone of radius 3e37 m: its square times 100 fits a [uint256] but
    not an [int256]. *)
Definition wrapped : Contract.DangerZone :=
  {| Contract.z_zoneId := "ZONE-1"; Contract.z_name := "Wrapped";
     Contract.z_latitude := 0; Contract.z_longitude := 0;
     Contract.z_radius := 3 * 10 ^ 37; Contract.z_level := Contract.Low;
     Contract.z_createdBy := 1; Contract.z_createdAt := 1000;
     Contract.z_isActive := true |}.

(** The tourist reports [Danger]. *)
Definition report_danger : Contract.Env * Contract.Call :=
  (tourist_env 1002, Contract.UpdateStatus Contract.Danger).

(** The storage after the first two updates of [in_out_in]: the tourist
    has status [Alert] and is north of the zones. *)
Definition away : Contract.State :=
  (Contract.history (take 2 in_out_in) deployed).1.

(** A request whose latitude and longitude are both out of range. *)
Definition polar_body : Server.Body :=
  {| Server.user_id := "7c9e6679-7425-40de-944b-e07fc1f90ae7";
     Server.tourist_id := "TID-AB12CD-34EF";
     Server.lat := 91%R; Server.lng := 181%R |}.

End Scenario.

(** ** Theorems *)

Section HaversineFacts.

Local Open Scope R_scope.

Lemma JS_le_true (x y : R) : JS.le x y = true ↔ x <= y.
Proof. unfold JS.le. destruct (Rle_dec x y); split; auto; discriminate. Qed.

Lemma JS_le_false (x y : R) : JS.le x y = false ↔ y < x.
Proof.
  unfold JS.le. destruct (Rle_dec x y); split; try discriminate; try lra; auto.
Qed.

Lemma JS_atan2_0_1 : JS.atan2 0 1 = 0.
Proof.
  unfold JS.atan2. destruct (Rlt_dec 0 1); [|lra].
  replace (0 / 1) with 0 by field. apply atan_0.
Qed.

Lemma JS_atan2_1_0 : JS.atan2 1 0 = PI / 2.
Proof.
  unfold JS.atan2.
  destruct (Rlt_dec 0 0); [lra|].
  destruct (Rlt_dec 0 1); [reflexivity|lra].
Qed.

Lemma hook_a_eq (lat1 lon1 lat2 lon2 : R) :
  sin ((lat2 - lat1) * PI / 180 / 2) * sin ((lat2 - lat1) * PI / 180 / 2) +
  cos (lat1 * PI / 180) * cos (lat2 * PI / 180) *
  sin ((lon2 - lon1) * PI / 180 / 2) * sin ((lon2 - lon1) * PI / 180 / 2)
  = Haversine.hav_a (Haversine.radians lat1) (Haversine.radians lon1)
                    (Haversine.radians lat2) (Haversine.radians lon2).
Proof.
  unfold Haversine.hav_a, Haversine.radians, Rsqr.
  replace ((lat2 * PI / 180 - lat1 * PI / 180) / 2)
    with ((lat2 - lat1) * PI / 180 / 2) by field.
  replace ((lon2 * PI / 180 - lon1 * PI / 180) / 2)
    with ((lon2 - lon1) * PI / 180 / 2) by field.
  ring.
Qed.

Lemma hook_distance_haversine (lat1 lon1 lat2 lon2 : R) :
  Hook.calculateDistance lat1 lon1 lat2 lon2
    = Haversine.great_circle lat1 lon1 lat2 lon2.
Proof.
  unfold Hook.calculateDistance, Haversine.great_circle, Haversine.R_earth.
  cbv zeta. rewrite hook_a_eq. ring.
Qed.

Lemma server_distance_haversine (lat1 lon1 lat2 lon2 : R) :
  Server.calculateDistance lat1 lon1 lat2 lon2
    = Haversine.great_circle lat1 lon1 lat2 lon2.
Proof.
  unfold Server.calculateDistance, Haversine.great_circle, Haversine.R_earth.
  cbv zeta. rewrite hook_a_eq. ring.
Qed.

(** C2: both [calculateDistance] functions compute the Haversine great-circle
    distance with Earth radius 6 371 000 m: a = sin²(Δφ/2) + cos φ1 · cos φ2 ·
    sin²(Δλ/2) and d = 2R · atan2(√a, √(1−a)) on coordinates converted to
    radians. *)
Theorem calculateDistance_is_haversine (lat1 lon1 lat2 lon2 : R) :
  Hook.calculateDistance lat1 lon1 lat2 lon2
    = Haversine.great_circle lat1 lon1 lat2 lon2
  ∧ Server.calculateDistance lat1 lon1 lat2 lon2
    = Haversine.great_circle lat1 lon1 lat2 lon2.
Proof.
  split; [apply hook_distance_haversine | apply server_distance_haversine].
Qed.

(** A point is at distance zero from itself. *)
Lemma hook_distance_self (lat lon : R) :
  Hook.calculateDistance lat lon lat lon = 0.
Proof.
  unfold Hook.calculateDistance. cbv zeta.
  replace ((lat - lat) * PI / 180 / 2) with 0 by field.
  replace ((lon - lon) * PI / 180 / 2) with 0 by field.
  rewrite sin_0.
  replace (0 * 0 + cos (lat * PI / 180) * cos (lat * PI / 180) * 0 * 0)
    with 0 by ring.
  rewrite Rminus_0_r, sqrt_0, sqrt_1, JS_atan2_0_1. ring.
Qed.

(** From pole to pole the distance is half the circumference. *)
Lemma hook_distance_poles (lon : R) :
  Hook.calculateDistance 90 lon (-90) lon = 6371000 * PI.
Proof.
  unfold Hook.calculateDistance. cbv zeta.
  replace ((-90 - 90) * PI / 180 / 2) with (- (PI / 2)) by field.
  replace ((lon - lon) * PI / 180 / 2) with 0 by field.
  replace (90 * PI / 180) with (PI / 2) by field.
  rewrite sin_neg, sin_PI2, sin_0, cos_PI2.
  replace (- (1) * - (1) + 0 * cos (-90 * PI / 180) * 0 * 0) with 1 by ring.
  replace (1 - 1) with 0 by ring.
  rewrite sqrt_0, sqrt_1, JS_atan2_1_0. field.
Qed.

(** Along a meridian, towards the south by less than 180 degrees, the
    distance is the arc of the difference of the latitudes. *)
Lemma hook_distance_meridian (lat1 lat2 lon : R) :
  0 <= lat1 - lat2 < 180 →
  Hook.calculateDistance lat1 lon lat2 lon
    = 6371000 * ((lat1 - lat2) * PI / 180).
Proof.
  intros H. unfold Hook.calculateDistance. cbv zeta.
  set (y := (lat1 - lat2) * PI / 180 / 2).
  replace ((lat2 - lat1) * PI / 180 / 2) with (- y) by (unfold y; field).
  replace ((lon - lon) * PI / 180 / 2) with 0 by field.
  rewrite sin_neg, sin_0.
  replace (- sin y * - sin y +
           cos (lat1 * PI / 180) * cos (lat2 * PI / 180) * 0 * 0)
    with ((sin y)²) by (unfold Rsqr; ring).
  assert (0 <= y < PI / 2) as Hy.
  { pose proof PI_RGT_0. unfold y. split; nra. }
  assert (0 < cos y) as Hcos by (apply cos_gt_0; lra).
  rewrite <- cos2.
  rewrite sqrt_Rsqr by (pose proof PI_RGT_0; apply sin_ge_0; lra).
  rewrite sqrt_Rsqr by lra.
  unfold JS.atan2. destruct (Rlt_dec 0 (cos y)); [|contradiction].
  change (sin y / cos y) with (tan y).
  rewrite atan_tan by lra. unfold y. field.
Qed.

(** *** The distance as a function *)

Lemma JS_atan2_sqrt_range (a b : R) :
  0 <= JS.atan2 (sqrt a) (sqrt b) <= PI / 2.
Proof.
  pose proof PI_RGT_0 as Hpi.
  pose proof (sqrt_pos a) as Ha. pose proof (sqrt_pos b) as Hb.
  unfold JS.atan2.
  destruct (Rlt_dec 0 (sqrt b)) as [Hlt|Hnlt].
  - pose proof (atan_bound (sqrt a / sqrt b)) as [_ Hub].
    split; [|lra].
    destruct (Req_dec (sqrt a) 0) as [H0|H0].
    + rewrite H0. replace (0 / sqrt b) with 0 by (field; lra).
      rewrite atan_0. lra.
    + left. rewrite <- atan_0. apply atan_increasing.
      apply Rdiv_lt_0_compat; lra.
  - destruct (Rlt_dec (sqrt b) 0); [lra|].
    destruct (Rlt_dec 0 (sqrt a)); [lra|].
    destruct (Rlt_dec (sqrt a) 0); lra.
Qed.

(** The distance does not depend on the order of the two points. *)
Lemma hook_distance_sym (lat1 lon1 lat2 lon2 : R) :
  Hook.calculateDistance lat1 lon1 lat2 lon2
  = Hook.calculateDistance lat2 lon2 lat1 lon1.
Proof.
  unfold Hook.calculateDistance. cbv zeta.
  replace ((lat1 - lat2) * PI / 180 / 2)
    with (- ((lat2 - lat1) * PI / 180 / 2)) by field.
  replace ((lon1 - lon2) * PI / 180 / 2)
    with (- ((lon2 - lon1) * PI / 180 / 2)) by field.
  rewrite !sin_neg.
  set (s1 := sin ((lat2 - lat1) * PI / 180 / 2)).
  set (s2 := sin ((lon2 - lon1) * PI / 180 / 2)).
  set (c1 := cos (lat1 * PI / 180)). set (c2 := cos (lat2 * PI / 180)).
  replace (- s1 * - s1 + c2 * c1 * - s2 * - s2)
    with (s1 * s1 + c1 * c2 * s2 * s2) by ring.
  reflexivity.
Qed.

(** X1: [calculateDistance], in the hook and in the backend, is symmetric:
    the distance from a position to a zone center is the distance from the
    center to the position. *)
Theorem calculateDistance_symmetric (lat1 lon1 lat2 lon2 : R) :
  Hook.calculateDistance lat1 lon1 lat2 lon2
    = Hook.calculateDistance lat2 lon2 lat1 lon1
  ∧ Server.calculateDistance lat1 lon1 lat2 lon2
    = Server.calculateDistance lat2 lon2 lat1 lon1.
Proof.
  split; [apply hook_distance_sym|].
  rewrite !server_distance_haversine, <- !hook_distance_haversine.
  apply hook_distance_sym.
Qed.

Lemma hook_distance_range (lat1 lon1 lat2 lon2 : R) :
  0 <= Hook.calculateDistance lat1 lon1 lat2 lon2 <= 6371000 * (2 * (PI / 2)).
Proof.
  unfold Hook.calculateDistance. cbv zeta.
  match goal with
  | |- context [JS.atan2 (sqrt ?a) (sqrt ?b)] =>
      pose proof (JS_atan2_sqrt_range a b) as H
  end.
  split; nra.
Qed.

(** X2: a zone of negative radius contains no position, in the hook and
    in the backend: [calculateDistance] is never negative, so the test
    [distance <= radius] is false (JS numbers idealised as reals; in
    doubles the distance is non-negative or NaN, and the test is false
    for both). *)
Theorem negative_radius_contains_nothing :
  (∀ loc z, Hook.zone_radius z < 0 → Hook.isInZone loc z = false)
  ∧ (∀ body zone,
       Server.zone_radius zone < 0 → Server.in_zone body zone = false).
Proof.
  split.
  - intros loc z Hr. unfold Hook.isInZone. apply JS_le_false.
    pose proof (hook_distance_range (Hook.loc_lat loc) (Hook.loc_lng loc)
                  (Hook.zone_lat z) (Hook.zone_lng z)). lra.
  - intros body zone Hr. unfold Server.in_zone. apply JS_le_false.
    rewrite server_distance_haversine, <- hook_distance_haversine.
    pose proof (hook_distance_range (Server.lat body) (Server.lng body)
                  (Server.zone_lat zone) (Server.zone_lng zone)). lra.
Qed.

End HaversineFacts.

(** ** The hook: membership state and transitions *)

Section HookFacts.

Import Hook.

#[local] Arguments forEach_body : simpl never.
#[local] Arguments isInZone : simpl never.

Implicit Types (st : State) (z zone : DangerZone) (loc : UserLocation)
  (k u n : string) (ts : list Toast) (r : Render).

Lemma has_true k (s : gset string) : has k s = true ↔ k ∈ s.
Proof. unfold has. apply bool_decide_eq_true. Qed.

Lemma has_false k (s : gset string) : has k s = false ↔ k ∉ s.
Proof. unfold has. apply bool_decide_eq_false. Qed.

Lemma has_ext k k' (s s' : gset string) :
  (k ∈ s ↔ k' ∈ s') → has k s = has k' s'.
Proof. unfold has. apply bool_decide_ext. Qed.

(** For one user the key determines the zone id. *)
Lemma zoneKey_inj u z1 z2 : zoneKey u z1 = zoneKey u z2 → zone_id z1 = zone_id z2.
Proof.
  unfold zoneKey. intros H.
  apply (String.app_inj u) in H. by apply (String.app_inj "-") in H.
Qed.

(** The three branches of the loop body. *)
Lemma forEach_body_enter loc u n now st ts z :
  isInZone loc z = true → has (zoneKey u z) (notifiedZonesRef st) = false →
  forEach_body loc u n now (st, ts) z =
    (if has (zoneKey u z) (adminNotifiedRef st) then
       {| notifiedZonesRef := {[zoneKey u z]} ∪ notifiedZonesRef st;
          adminNotifiedRef := adminNotifiedRef st;
          dangerZoneAlerts := dangerZoneAlerts st |}
     else
       {| notifiedZonesRef := {[zoneKey u z]} ∪ notifiedZonesRef st;
          adminNotifiedRef := {[zoneKey u z]} ∪ adminNotifiedRef st;
          dangerZoneAlerts := dangerZoneAlerts st ++
            [entry_alert loc u n now z] |},
     ts ++ [ToastEntered z]).
Proof.
  intros Hin Hh. unfold forEach_body. rewrite Hin, Hh. simpl.
  by destruct (has (zoneKey u z) (adminNotifiedRef st)).
Qed.

Lemma forEach_body_leave loc u n now st ts z :
  isInZone loc z = false → has (zoneKey u z) (notifiedZonesRef st) = true →
  forEach_body loc u n now (st, ts) z =
    ({| notifiedZonesRef := notifiedZonesRef st ∖ {[zoneKey u z]};
        adminNotifiedRef := adminNotifiedRef st;
        dangerZoneAlerts := dangerZoneAlerts st |},
     ts ++ [ToastLeft z]).
Proof. intros Hin Hh. unfold forEach_body. by rewrite Hin, Hh. Qed.

Lemma forEach_body_same loc u n now st ts z :
  has (zoneKey u z) (notifiedZonesRef st) = isInZone loc z →
  forEach_body loc u n now (st, ts) z = (st, ts).
Proof.
  intros Hh. unfold forEach_body. rewrite Hh.
  by destruct (isInZone loc z).
Qed.

(** After the body, the key of the zone is stored exactly when the location
    is in the zone; every other key is as before. *)
Lemma forEach_body_notified loc u n now st ts z k :
  has k (notifiedZonesRef (forEach_body loc u n now (st, ts) z).1) =
  if decide (k = zoneKey u z) then isInZone loc z
  else has k (notifiedZonesRef st).
Proof.
  destruct (isInZone loc z) eqn:Hin,
    (has (zoneKey u z) (notifiedZonesRef st)) eqn:Hh.
  - rewrite forEach_body_same by congruence. case_decide; by subst.
  - rewrite forEach_body_enter by done.
    destruct (has (zoneKey u z) (adminNotifiedRef st)); simpl;
      (case_decide;
       [subst; apply has_true, elem_of_union_l, elem_of_singleton; done
       | apply has_ext; rewrite elem_of_union, elem_of_singleton; tauto]).
  - rewrite forEach_body_leave by done. simpl.
    case_decide;
      [subst; apply has_false; rewrite elem_of_difference, elem_of_singleton; tauto
      | apply has_ext; rewrite elem_of_difference, elem_of_singleton; tauto].
  - rewrite forEach_body_same by congruence. case_decide; by subst.
Qed.

(** The toasts of earlier zones are kept, in order. *)
Lemma forEach_body_toasts loc u n now st ts z :
  (forEach_body loc u n now (st, ts) z).2 =
  ts ++
  (if isInZone loc z && negb (has (zoneKey u z) (notifiedZonesRef st))
   then [ToastEntered z]
   else if negb (isInZone loc z) && has (zoneKey u z) (notifiedZonesRef st)
   then [ToastLeft z] else []).
Proof.
  destruct (isInZone loc z) eqn:Hin,
    (has (zoneKey u z) (notifiedZonesRef st)) eqn:Hh.
  - rewrite forEach_body_same by congruence. simpl. by rewrite app_nil_r.
  - by rewrite forEach_body_enter.
  - by rewrite forEach_body_leave.
  - rewrite forEach_body_same by congruence. simpl. by rewrite app_nil_r.
Qed.

(** The loop over zones whose ids differ from the one of [z] leaves the key
    of [z] alone and shows no toast about it. *)
Lemma forEach_other_zones loc u n now zs : ∀ st ts z,
  zone_id z ∉ zone_id <$> zs →
  let res := fold_left (forEach_body loc u n now) zs (st, ts) in
  has (zoneKey u z) (notifiedZonesRef res.1)
    = has (zoneKey u z) (notifiedZonesRef st)
  ∧ toasts_of (zone_id z) res.2 = toasts_of (zone_id z) ts.
Proof.
  induction zs as [|z0 zs IH]; intros st ts z Hnotin; simpl in *; [done|].
  apply not_elem_of_cons in Hnotin as [Hne Hnotin].
  destruct (forEach_body loc u n now (st, ts) z0) as [st1 ts1] eqn:Hb.
  destruct (IH st1 ts1 z Hnotin) as [IH1 IH2]. simpl in IH1, IH2.
  rewrite IH1, IH2. split.
  - replace st1 with (forEach_body loc u n now (st, ts) z0).1 by by rewrite Hb.
    rewrite forEach_body_notified. case_decide as Hk; [|done].
    apply zoneKey_inj in Hk. done.
  - replace ts1 with (forEach_body loc u n now (st, ts) z0).2 by by rewrite Hb.
    rewrite forEach_body_toasts. unfold toasts_of. rewrite filter_app.
    assert (∀ t, toast_zone t = z0 →
              filter (λ t, zone_id (toast_zone t) = zone_id z) [t] = []) as Hf.
    { intros t Ht. rewrite filter_cons_False, filter_nil; [done|].
      rewrite Ht. congruence. }
    repeat case_match; rewrite ?Hf, ?filter_nil, ?app_nil_r; done.
Qed.

(** The loop over a list with unique ids: for a zone of the list, the key is
    stored afterwards exactly when the location is in the zone, and the only
    toast about the zone is the one of its change of containment. *)
Lemma forEach_zone loc u n now zs : ∀ st ts z,
  NoDup (zone_id <$> zs) → z ∈ zs →
  let res := fold_left (forEach_body loc u n now) zs (st, ts) in
  let prior := has (zoneKey u z) (notifiedZonesRef st) in
  has (zoneKey u z) (notifiedZonesRef res.1) = isInZone loc z
  ∧ toasts_of (zone_id z) res.2 =
      toasts_of (zone_id z) ts ++
      (if isInZone loc z && negb prior then [ToastEntered z]
       else if negb (isInZone loc z) && prior then [ToastLeft z] else []).
Proof.
  induction zs as [|z0 zs IH]; intros st ts z Hnd Hin; simpl in *.
  { by apply elem_of_nil in Hin. }
  apply NoDup_cons in Hnd as [Hfresh Hnd].
  destruct (forEach_body loc u n now (st, ts) z0) as [st1 ts1] eqn:Hb.
  assert (st1 = (forEach_body loc u n now (st, ts) z0).1) as Hst1 by by rewrite Hb.
  assert (ts1 = (forEach_body loc u n now (st, ts) z0).2) as Hts1 by by rewrite Hb.
  apply elem_of_cons in Hin as [->|Hin].
  - destruct (forEach_other_zones loc u n now zs st1 ts1 z0 Hfresh) as [H1 H2].
    simpl in H1, H2. rewrite H1, H2. split.
    + rewrite Hst1, forEach_body_notified. by rewrite decide_True.
    + rewrite Hts1, forEach_body_toasts. unfold toasts_of.
      rewrite filter_app. f_equal.
      repeat case_match; rewrite ?filter_nil; try done;
        by rewrite filter_cons_True, filter_nil.
  - destruct (IH st1 ts1 z Hnd Hin) as [IH1 IH2]. simpl in IH1, IH2.
    rewrite IH1, IH2. split; [done|].
    assert (zone_id z ≠ zone_id z0) as Hne.
    { intros Heq. apply Hfresh. rewrite <- Heq. by apply list_elem_of_fmap_2. }
    destruct (forEach_other_zones loc u n now [z0] st ts z) as [H1 H2].
    { simpl. by rewrite list_elem_of_singleton. }
    simpl in H1, H2. rewrite Hb in H1, H2. simpl in H1, H2.
    by rewrite H1, H2.
Qed.

(** A loop that enters every zone of a list with unique ids: one entry
    toast for each zone, and one alert for each zone as well when none of
    the keys is in [adminNotifiedRef]. *)
Lemma forEach_all_enter loc u n now zs : ∀ st ts,
  NoDup (zone_id <$> zs) →
  (∀ z, z ∈ zs → isInZone loc z = true
                 ∧ has (zoneKey u z) (notifiedZonesRef st) = false
                 ∧ has (zoneKey u z) (adminNotifiedRef st) = false) →
  let res := fold_left (forEach_body loc u n now) zs (st, ts) in
  res.2 = ts ++ (ToastEntered <$> zs)
  ∧ dangerZoneAlerts res.1
    = dangerZoneAlerts st ++ (entry_alert loc u n now <$> zs).
Proof.
  induction zs as [|z0 zs IH]; intros st ts Hnd H; simpl.
  { by rewrite !app_nil_r. }
  apply NoDup_cons in Hnd as [Hfresh Hnd].
  destruct (H z0) as (Hin & Hh & Ha); [apply list_elem_of_here|].
  rewrite forEach_body_enter by done. rewrite Ha.
  match goal with
  | |- context [fold_left _ zs (?st1, ?ts1)] =>
      destruct (IH st1 ts1 Hnd) as [IH1 IH2]
  end.
  { intros z Hz. destruct (H z) as (Hin' & Hh' & Ha');
      [by apply list_elem_of_further|].
    assert (zoneKey u z ≠ zoneKey u z0) as Hne.
    { intros Heq. apply zoneKey_inj in Heq. apply Hfresh. rewrite <- Heq.
      by apply list_elem_of_fmap_2. }
    split; [done|]. simpl.
    split; apply has_false; rewrite elem_of_union, elem_of_singleton;
      intros [?|Hk]; try done.
    - by apply has_false in Hh'.
    - by apply has_false in Ha'. }
  simpl in IH1, IH2. rewrite IH1, IH2. simpl.
  by rewrite <- !app_assoc.
Qed.

(** A loop in which no zone changes containment does nothing. *)
Lemma forEach_noop loc u n now zs : ∀ st ts,
  (∀ z, z ∈ zs → has (zoneKey u z) (notifiedZonesRef st) = isInZone loc z) →
  fold_left (forEach_body loc u n now) zs (st, ts) = (st, ts).
Proof.
  induction zs as [|z0 zs IH]; intros st ts H; simpl; [done|].
  rewrite forEach_body_same by (apply H, list_elem_of_here).
  apply IH. intros z Hz. by apply H, list_elem_of_further.
Qed.

Lemma run_cons (e : Event) (es : list Event) st :
  run (e :: es) st =
  ((run es (step st e).1).1, (step st e).2 :: (run es (step st e).1).2).
Proof.
  cbn [run]. destruct (step st e) as [st1 t1]. cbn [fst snd].
  by destruct (run es st1).
Qed.

Lemma run_app (es1 es2 : list Event) st :
  run (es1 ++ es2) st =
  ((run es2 (run es1 st).1).1, (run es1 st).2 ++ (run es2 (run es1 st).1).2).
Proof.
  revert st. induction es1 as [|e es1 IH]; intros st.
  { simpl. by destruct (run es2 st). }
  rewrite <- app_comm_cons, !run_cons, IH. done.
Qed.

(** One effect run with a location, seen from a zone of its list. *)
Lemma useEffect_zone r loc st z :
  userLocation r = Some loc →
  NoDup (zone_id <$> dangerZones r) → z ∈ dangerZones r →
  let prior := has (zoneKey (userId r) z) (notifiedZonesRef st) in
  has (zoneKey (userId r) z) (notifiedZonesRef (useEffect r st).1)
    = isInZone loc z
  ∧ toasts_of (zone_id z) (useEffect r st).2 =
      (if isInZone loc z && negb prior then [ToastEntered z]
       else if negb (isInZone loc z) && prior then [ToastLeft z] else []).
Proof.
  intros Hloc Hnd Hin. unfold useEffect. rewrite Hloc.
  apply (forEach_zone loc (userId r) (r_username r) (date_now r)
           (dangerZones r) st [] z Hnd Hin).
Qed.

Lemma useEffect_noop r loc st :
  userLocation r = Some loc →
  (∀ z, z ∈ dangerZones r →
     has (zoneKey (userId r) z) (notifiedZonesRef st) = isInZone loc z) →
  useEffect r st = (st, []).
Proof.
  intros Hloc H. unfold useEffect. rewrite Hloc. by apply forEach_noop.
Qed.

(** C1: after every effect run of every session, the key of a (user, zone)
    pair of the run is in [notifiedZonesRef] if and only if the location of
    that run is within the radius of the zone under [calculateDistance]
    (zone ids unique in the list, as the data model has them); and a zone
    whose containment did not change leaves state and toasts as they were. *)
Theorem membership_invariant (es : list Event) (st0 : State) r loc z :
  userLocation r = Some loc →
  NoDup (zone_id <$> dangerZones r) →
  z ∈ dangerZones r →
  (has (zoneKey (userId r) z)
       (notifiedZonesRef (run (es ++ [EvRender r]) st0).1) = true
   ↔ (calculateDistance (loc_lat loc) (loc_lng loc) (zone_lat z) (zone_lng z)
        <= zone_radius z)%R)
  ∧ (∀ st ts now,
       has (zoneKey (userId r) z) (notifiedZonesRef st) = isInZone loc z →
       forEach_body loc (userId r) (r_username r) now (st, ts) z = (st, ts))
  ∧ (∀ st,
       (∀ z', z' ∈ dangerZones r →
          has (zoneKey (userId r) z') (notifiedZonesRef st) = isInZone loc z') →
       useEffect r st = (st, [])).
Proof.
  intros Hloc Hnd Hin. split; [|split].
  - rewrite run_app. simpl.
    destruct (useEffect r (run es st0).1) as [st1 t1] eqn:Hu. simpl.
    replace st1 with (useEffect r (run es st0).1).1 by by rewrite Hu.
    destruct (useEffect_zone r loc (run es st0).1 z Hloc Hnd Hin) as [-> _].
    unfold isInZone. apply JS_le_true.
  - intros st ts now. apply forEach_body_same.
  - intros st. by apply useEffect_noop.
Qed.

(** *** Admin alerts *)

Lemma admin_inv_body stored loc u n now st ts z :
  admin_inv stored st →
  admin_inv stored (forEach_body loc u n now (st, ts) z).1.
Proof.
  intros (app & Happ & Hcount).
  destruct (isInZone loc z) eqn:Hin,
    (has (zoneKey u z) (notifiedZonesRef st)) eqn:Hh.
  - rewrite forEach_body_same by congruence. by exists app.
  - rewrite forEach_body_enter by done.
    destruct (has (zoneKey u z) (adminNotifiedRef st)) eqn:Had; simpl.
    + by exists app.
    + eexists (app ++ [_]). simpl. split.
      { rewrite Happ. by rewrite <- app_assoc. }
      intros k. unfold alerts_of. rewrite filter_app, length_app.
      specialize (Hcount k). unfold alerts_of in Hcount.
      destruct (decide (k = zoneKey u z)) as [->|Hne].
      * rewrite Had in Hcount.
        rewrite filter_cons_True by done. rewrite filter_nil. simpl.
        replace (has (zoneKey u z) ({[zoneKey u z]} ∪ adminNotifiedRef st))
          with true
          by (symmetry; apply has_true, elem_of_union_l, elem_of_singleton; done).
        lia.
      * rewrite filter_cons_False by (simpl; congruence).
        rewrite filter_nil. simpl.
        replace (has k ({[zoneKey u z]} ∪ adminNotifiedRef st))
          with (has k (adminNotifiedRef st))
          by (apply has_ext; rewrite elem_of_union, elem_of_singleton; tauto).
        lia.
  - rewrite forEach_body_leave by done. by exists app.
  - rewrite forEach_body_same by congruence. by exists app.
Qed.

Lemma admin_inv_forEach stored loc u n now zs : ∀ st ts,
  admin_inv stored st →
  admin_inv stored (fold_left (forEach_body loc u n now) zs (st, ts)).1.
Proof.
  induction zs as [|z zs IH]; intros st ts H; simpl; [done|].
  pose proof (admin_inv_body stored loc u n now st ts z H) as H1.
  destruct (forEach_body loc u n now (st, ts) z) as [st1 ts1].
  by apply IH.
Qed.

Lemma admin_inv_run stored (rs : list Render) : ∀ st,
  admin_inv stored st →
  admin_inv stored (run (EvRender <$> rs) st).1.
Proof.
  induction rs as [|r rs IH]; intros st H; [done|].
  rewrite fmap_cons, run_cons. simpl. apply IH.
  unfold useEffect. destruct (userLocation r); [|done].
  by apply admin_inv_forEach.
Qed.

Lemma adminNotified_body_mono loc u n now st ts z :
  adminNotifiedRef st ⊆ adminNotifiedRef (forEach_body loc u n now (st, ts) z).1.
Proof.
  destruct (isInZone loc z) eqn:Hin,
    (has (zoneKey u z) (notifiedZonesRef st)) eqn:Hh.
  - by rewrite forEach_body_same by congruence.
  - rewrite forEach_body_enter by done.
    destruct (has (zoneKey u z) (adminNotifiedRef st)); simpl; [done|].
    apply union_subseteq_r.
  - by rewrite forEach_body_leave by done.
  - by rewrite forEach_body_same by congruence.
Qed.

Lemma adminNotified_useEffect_mono r st :
  adminNotifiedRef st ⊆ adminNotifiedRef (useEffect r st).1.
Proof.
  unfold useEffect. destruct (userLocation r) as [loc|]; [|done].
  generalize (@nil Toast). revert st.
  induction (dangerZones r) as [|z zs IH]; intros st ts; simpl; [done|].
  pose proof (adminNotified_body_mono loc (userId r) (r_username r)
                (date_now r) st ts z) as H1.
  destruct (forEach_body loc (userId r) (r_username r) (date_now r) (st, ts) z)
    as [st1 ts1].
  etrans; [exact H1|apply IH].
Qed.

(** C10: in a session of effect runs of the hook (no [clearNotifications])
    at most one admin alert is appended to the stored list under each
    (user, zone) key; an effect run never removes a key from
    [adminNotifiedRef], leaving a zone deletes the key from
    [notifiedZonesRef] only, entering it again shows the entry toast and
    appends no alert, and after [clearNotifications] an entry appends an
    alert again. *)
Theorem admin_alert_once_per_session (rs : list Render)
    (stored : list DangerAlert) :
  (∃ appended,
     dangerZoneAlerts (run (EvRender <$> rs) (initial stored)).1
       = stored ++ appended
     ∧ ∀ k, (length (alerts_of k appended) ≤ 1)%nat)
  ∧ (∀ r st, adminNotifiedRef st ⊆ adminNotifiedRef (useEffect r st).1)
  ∧ (∀ loc u n now st ts z,
       isInZone loc z = false →
       has (zoneKey u z) (notifiedZonesRef st) = true →
       let res := forEach_body loc u n now (st, ts) z in
       notifiedZonesRef res.1 = notifiedZonesRef st ∖ {[zoneKey u z]}
       ∧ adminNotifiedRef res.1 = adminNotifiedRef st
       ∧ dangerZoneAlerts res.1 = dangerZoneAlerts st
       ∧ res.2 = ts ++ [ToastLeft z])
  ∧ (∀ loc u n now st ts z,
       isInZone loc z = true →
       has (zoneKey u z) (notifiedZonesRef st) = false →
       has (zoneKey u z) (adminNotifiedRef st) = true →
       let res := forEach_body loc u n now (st, ts) z in
       dangerZoneAlerts res.1 = dangerZoneAlerts st
       ∧ res.2 = ts ++ [ToastEntered z])
  ∧ (∀ loc u n now st ts z,
       isInZone loc z = true →
       let res := forEach_body loc u n now (clearNotifications st, ts) z in
       ∃ a, alert_key a = zoneKey u z
            ∧ dangerZoneAlerts res.1 = dangerZoneAlerts st ++ [a]).
Proof.
  split; [|split; [|split; [|split]]].
  - destruct (admin_inv_run stored rs (initial stored)) as (app & Happ & Hc).
    { exists []. split; [by rewrite app_nil_r|]. intros k. simpl. lia. }
    exists app. split; [done|]. intros k. specialize (Hc k).
    destruct (has k _); lia.
  - apply adminNotified_useEffect_mono.
  - intros loc u n now st ts z Hin Hh. by rewrite forEach_body_leave.
  - intros loc u n now st ts z Hin Hh Had.
    rewrite forEach_body_enter by done. by rewrite Had.
  - intros loc u n now st ts z Hin.
    assert (∀ k, has k (∅ : gset string) = false) as Hempty.
    { intros k. apply has_false, not_elem_of_empty. }
    rewrite forEach_body_enter; [| done | apply Hempty].
    simpl. rewrite Hempty. eexists. split; last reflexivity. done.
Qed.

(** *** Crossing the boundary of a zone *)

Lemma transitions_cons zid r (rs : list Render) st :
  transitions zid (r :: rs) st =
  toasts_of zid (useEffect r st).2 :: transitions zid rs (useEffect r st).1.
Proof. unfold transitions. by rewrite fmap_cons, run_cons. Qed.

Lemma run_renders_cons r (rs : list Render) st :
  (run (EvRender <$> (r :: rs)) st).1
  = (run (EvRender <$> rs) (useEffect r st).1).1.
Proof. by rewrite fmap_cons, run_cons. Qed.

Lemma transitions_app zid (rs1 rs2 : list Render) : ∀ st,
  transitions zid (rs1 ++ rs2) st =
  transitions zid rs1 st
    ++ transitions zid rs2 (run (EvRender <$> rs1) st).1.
Proof.
  induction rs1 as [|r rs1 IH]; intros st; [done|].
  rewrite <- app_comm_cons, !transitions_cons, IH, run_renders_cons. done.
Qed.

(** One effect run, seen from a tracked zone. *)
Lemma hook_step u z r b st :
  tracks u z r → side b z r →
  has (zoneKey u z) (notifiedZonesRef (useEffect r st).1) = b
  ∧ toasts_of (zone_id z) (useEffect r st).2 =
      (if b && negb (has (zoneKey u z) (notifiedZonesRef st))
       then [ToastEntered z]
       else if negb b && has (zoneKey u z) (notifiedZonesRef st)
       then [ToastLeft z] else []).
Proof.
  intros (<- & Hnd & Hin) (loc & Hloc & <-).
  apply (useEffect_zone r loc st z Hloc Hnd Hin).
Qed.

(** Effect runs that stay on the side the state records show no toast. *)
Lemma hook_stay u z b (rs : list Render) : ∀ st,
  Forall (tracks u z) rs → Forall (side b z) rs →
  has (zoneKey u z) (notifiedZonesRef st) = b →
  has (zoneKey u z) (notifiedZonesRef (run (EvRender <$> rs) st).1) = b
  ∧ transitions (zone_id z) rs st = replicate (length rs) [].
Proof.
  induction rs as [|r rs IH]; intros st Ht Hs Hb; [done|].
  apply Forall_cons in Ht as [Ht Hts]. apply Forall_cons in Hs as [Hs Hss].
  destruct (hook_step u z r b st Ht Hs) as [H1 H2].
  destruct (IH _ Hts Hss H1) as [IH1 IH2].
  rewrite run_renders_cons, transitions_cons, IH1, IH2, H2, Hb.
  by destruct b.
Qed.

(** A first effect run on the other side shows the one toast of the
    crossing, the following runs on that side show none. *)
Lemma hook_cross u z b r (rs : list Render) st :
  Forall (tracks u z) (r :: rs) → Forall (side b z) (r :: rs) →
  has (zoneKey u z) (notifiedZonesRef st) = negb b →
  has (zoneKey u z) (notifiedZonesRef (run (EvRender <$> (r :: rs)) st).1) = b
  ∧ transitions (zone_id z) (r :: rs) st =
      [if b then ToastEntered z else ToastLeft z] :: replicate (length rs) [].
Proof.
  intros Ht Hs Hb.
  apply Forall_cons in Ht as [Ht Hts]. apply Forall_cons in Hs as [Hs Hss].
  destruct (hook_step u z r b st Ht Hs) as [H1 H2].
  destruct (hook_stay u z b rs _ Hts Hss H1) as [H3 H4].
  rewrite run_renders_cons, transitions_cons, H3, H4, H2, Hb.
  by destruct b.
Qed.

Lemma hook_out_and_back u z (ins1 outs ins2 : list Render) (ro ri : Render) st :
  Forall (tracks u z) (ins1 ++ ro :: outs ++ ri :: ins2) →
  Forall (side true z) ins1 →
  Forall (side false z) (ro :: outs) →
  Forall (side true z) (ri :: ins2) →
  has (zoneKey u z) (notifiedZonesRef st) = true →
  transitions (zone_id z) (ins1 ++ ro :: outs ++ ri :: ins2) st
  = replicate (length ins1) []
      ++ [ToastLeft z] :: replicate (length outs) []
      ++ [ToastEntered z] :: replicate (length ins2) [].
Proof.
  intros Ht Hin1 Hout Hin2 Hst.
  apply Forall_app in Ht as [Ht1 Ht]. rewrite app_comm_cons in Ht.
  apply Forall_app in Ht as [Ht2 Ht3].
  destruct (hook_stay u z true ins1 st Ht1 Hin1 Hst) as [H1 T1].
  destruct (hook_cross u z false ro outs _ Ht2 Hout H1) as [H2 T2].
  destruct (hook_cross u z true ri ins2 _ Ht3 Hin2 H2) as [H3 T3].
  rewrite transitions_app, T1. f_equal.
  rewrite app_comm_cons, transitions_app, T2. simpl. f_equal. f_equal.
  exact T3.
Qed.

(** *** Running the same effect twice *)


(** *** The scenario *)

Lemma center_in_Z1 : isInZone Scenario.center Scenario.Z1 = true.
Proof.
  unfold isInZone. simpl. rewrite hook_distance_self.
  apply JS_le_true. lra.
Qed.

Lemma north_not_in_Z1 : isInZone Scenario.north Scenario.Z1 = false.
Proof.
  unfold isInZone. simpl. rewrite hook_distance_meridian by lra.
  apply JS_le_false. pose proof PI2_3_2. lra.
Qed.

Lemma has_empty k : has k (∅ : gset string) = false.
Proof. apply has_false, not_elem_of_empty. Qed.

Lemma scenario_tracks loc now :
  tracks "TID-AB12CD-34EF" Scenario.Z1 (Scenario.render loc now).
Proof.
  split; [reflexivity|]. split; simpl.
  - apply NoDup_singleton.
  - apply list_elem_of_here.
Qed.

(** The scenario of the specification: a first sample at the center, then
    two samples to the north, give 'entered', 'left', and nothing. *)
Lemma scenario_trace :
  transitions "Z1"
    ([Scenario.render Scenario.center 1]
       ++ [Scenario.render Scenario.north 2; Scenario.render Scenario.north 3])
    (initial [])
  = [[ToastEntered Scenario.Z1]; [ToastLeft Scenario.Z1]; []].
Proof.
  destruct (hook_cross "TID-AB12CD-34EF" Scenario.Z1 true
              (Scenario.render Scenario.center 1) [] (initial []))
    as [H1 T1].
  { apply Forall_cons_2; [apply scenario_tracks|apply Forall_nil_2]. }
  { apply Forall_cons_2; [|apply Forall_nil_2].
    exists Scenario.center. split; [reflexivity|apply center_in_Z1]. }
  { apply has_empty. }
  destruct (hook_cross "TID-AB12CD-34EF" Scenario.Z1 false
              (Scenario.render Scenario.north 2)
              [Scenario.render Scenario.north 3]
              (run (EvRender <$> [Scenario.render Scenario.center 1])
                   (initial [])).1)
    as [H2 T2].
  { repeat (apply Forall_cons_2; [apply scenario_tracks|]).
    apply Forall_nil_2. }
  { repeat (apply Forall_cons_2;
              [exists Scenario.north;
               split; [reflexivity|apply north_not_in_Z1]|]).
    apply Forall_nil_2. }
  { exact H1. }
  rewrite (transitions_app "Z1"). simpl Hook.zone_id in T1, T2.
  rewrite T1, T2. reflexivity.
Qed.

(** *** What an effect run leaves alone *)

#[local] Set Warnings "-clear-no-such-hyp".

Lemma forEach_body_cases loc u n now st ts z :
  let res := forEach_body loc u n now (st, ts) z in
  (res = (st, ts))
  ∨ (res.2 = ts ++ [ToastLeft z]
     ∧ notifiedZonesRef res.1 = notifiedZonesRef st ∖ {[zoneKey u z]}
     ∧ adminNotifiedRef res.1 = adminNotifiedRef st
     ∧ dangerZoneAlerts res.1 = dangerZoneAlerts st)
  ∨ (res.2 = ts ++ [ToastEntered z]
     ∧ notifiedZonesRef res.1 = {[zoneKey u z]} ∪ notifiedZonesRef st
     ∧ ((adminNotifiedRef res.1 = adminNotifiedRef st
         ∧ zoneKey u z ∈ adminNotifiedRef st
         ∧ dangerZoneAlerts res.1 = dangerZoneAlerts st)
        ∨ (adminNotifiedRef res.1 = {[zoneKey u z]} ∪ adminNotifiedRef st
           ∧ dangerZoneAlerts res.1
             = dangerZoneAlerts st ++ [entry_alert loc u n now z]))).
Proof.
  intros res. unfold res.
  destruct (isInZone loc z) eqn:Hin,
    (has (zoneKey u z) (notifiedZonesRef st)) eqn:Hh.
  - left. by apply forEach_body_same; congruence.
  - right. right. rewrite forEach_body_enter by done.
    destruct (has (zoneKey u z) (adminNotifiedRef st)) eqn:Ha; simpl.
    + split; [done|]. split; [done|]. left. by apply has_true in Ha.
    + split; [done|]. split; [done|]. by right.
  - right. left. by rewrite forEach_body_leave.
  - left. by apply forEach_body_same; congruence.
Qed.

(** What the loop over the zones does to the state and to the toasts,
    whatever the zones (duplicate ids included). *)
Lemma forEach_frame loc u n now zs : ∀ st ts,
  let res := fold_left (forEach_body loc u n now) zs (st, ts) in
  (notifiedZonesRef st ⊆ adminNotifiedRef st →
   notifiedZonesRef res.1 ⊆ adminNotifiedRef res.1)
  ∧ (∀ k, (∀ z, z ∈ zs → k ≠ zoneKey u z) →
       (k ∈ notifiedZonesRef res.1 ↔ k ∈ notifiedZonesRef st)
       ∧ (k ∈ adminNotifiedRef res.1 ↔ k ∈ adminNotifiedRef st))
  ∧ (∃ shown appended,
       res.2 = ts ++ shown
       ∧ dangerZoneAlerts res.1 = dangerZoneAlerts st ++ appended
       ∧ length shown ≤ length zs
       ∧ length appended ≤ length (filter (λ t, is_entered t = true) shown)
       ∧ Forall (λ a, ∃ z, z ∈ zs ∧ a = entry_alert loc u n now z) appended).
Proof.
  induction zs as [|z zs IH]; intros st ts; simpl.
  { split; [done|]. split; [done|]. exists [], [].
    rewrite !app_nil_r. repeat split; auto. }
  destruct (forEach_body loc u n now (st, ts) z) as [st1 ts1] eqn:Hb.
  destruct (IH st1 ts1) as (IH1 & IH2 & shown & appended & E1 & E2 & L1 & L2 & F).
  pose proof (forEach_body_cases loc u n now st ts z) as Hc.
  cbv zeta in Hc. rewrite Hb in Hc. simpl in Hc.
  assert (∀ a, (∃ z0, z0 ∈ zs ∧ a = entry_alert loc u n now z0) →
               ∃ z0, z0 ∈ z :: zs ∧ a = entry_alert loc u n now z0) as Hweak.
  { intros a (z0 & Hz0 & ->). exists z0. split; [|done].
    by apply list_elem_of_further. }
  split; [|split].
  - intros Hsub. apply IH1.
    destruct Hc as [[= -> ->]|[(_ & Hn & Ha & _)|(_ & Hn & [(Ha & Hk & _)|(Ha & _)])]];
      rewrite ?Hn, ?Ha; set_solver.
  - intros k Hk.
    destruct (IH2 k) as [K1 K2].
    { intros z0 Hz0. apply Hk. by apply list_elem_of_further. }
    rewrite K1, K2.
    assert (k ≠ zoneKey u z) as Hne by (apply Hk, list_elem_of_here).
    destruct Hc as [[= -> ->]|[(_ & Hn & Ha & _)|(_ & Hn & [(Ha & _ & _)|(Ha & _)])]];
      rewrite ?Hn, ?Ha; set_solver.
  - destruct Hc as [[= -> ->]|[(Ht & _ & _ & Hal)|(Ht & _ & [(_ & _ & Hal)|(_ & Hal)])]].
    + exists shown, appended. repeat split; auto.
      eapply Forall_impl; [exact F|exact Hweak].
    + exists (ToastLeft z :: shown), appended.
      rewrite E1, E2, Ht, Hal, <- app_assoc. simpl.
      repeat split; auto; try lia.
      eapply Forall_impl; [exact F|exact Hweak].
    + exists (ToastEntered z :: shown), appended.
      rewrite E1, E2, Ht, Hal, <- app_assoc. simpl.
      repeat split; auto; try lia.
      eapply Forall_impl; [exact F|exact Hweak].
    + exists (ToastEntered z :: shown), (entry_alert loc u n now z :: appended).
      rewrite E1, E2, Ht, Hal, <- !app_assoc. simpl.
      repeat split; auto; try lia.
      apply Forall_cons_2.
      * exists z. split; [apply list_elem_of_here|done].
      * eapply Forall_impl; [exact F|exact Hweak].
Qed.

(** X3: in every session of the hook, with [clearNotifications] calls
    anywhere, every key of [notifiedZonesRef] is also in [adminNotifiedRef]:
    a user is never recorded inside a zone whose admin alert has not been
    stored since the last clearing. *)
Theorem notified_subset_adminNotified (es : list Event)
    (stored : list DangerAlert) :
  notifiedZonesRef (run es (initial stored)).1
    ⊆ adminNotifiedRef (run es (initial stored)).1.
Proof.
  assert (∀ st, notifiedZonesRef st ⊆ adminNotifiedRef st →
                notifiedZonesRef (run es st).1 ⊆ adminNotifiedRef (run es st).1)
    as H.
  { induction es as [|e es IH]; intros st Hsub; [done|].
    rewrite run_cons. simpl. apply IH.
    destruct e as [r|]; simpl; [|done].
    unfold useEffect. destruct (userLocation r) as [loc|]; [|done].
    by apply (forEach_frame loc (userId r) (r_username r) (date_now r)
                (dangerZones r) st []). }
  apply H. done.
Qed.

(** X4: an effect run for user [u] touches only the keys of [u] with the
    zones of its list: every other key is in [notifiedZonesRef] and in
    [adminNotifiedRef] after the run exactly when it was before. *)
Theorem useEffect_other_keys (r : Render) (st : State) (k : string) :
  (∀ z, z ∈ dangerZones r → k ≠ zoneKey (userId r) z) →
  (k ∈ notifiedZonesRef (useEffect r st).1 ↔ k ∈ notifiedZonesRef st)
  ∧ (k ∈ adminNotifiedRef (useEffect r st).1 ↔ k ∈ adminNotifiedRef st).
Proof.
  intros Hk. unfold useEffect. destruct (userLocation r) as [loc|]; [|done].
  by apply (forEach_frame loc (userId r) (r_username r) (date_now r)
              (dangerZones r) st []).
Qed.

(** X5: an effect run only appends to the stored alert list: the alerts
    already stored stay, in order; it shows at most one toast for each
    entry of the zone list, and appends at most one alert for each entry
    toast, each of them the alert of an entry of this user into a zone of
    the list. *)
Theorem useEffect_appends (r : Render) (st : State) :
  ∃ appended,
    dangerZoneAlerts (useEffect r st).1 = dangerZoneAlerts st ++ appended
    ∧ length (useEffect r st).2 ≤ length (dangerZones r)
    ∧ length appended
      ≤ length (filter (λ t, is_entered t = true) (useEffect r st).2)
    ∧ Forall (λ a, ∃ loc z, userLocation r = Some loc ∧ z ∈ dangerZones r
                     ∧ a = entry_alert loc (userId r) (r_username r)
                             (date_now r) z) appended.
Proof.
  unfold useEffect. destruct (userLocation r) as [loc|].
  - destruct (forEach_frame loc (userId r) (r_username r) (date_now r)
                (dangerZones r) st [])
      as (_ & _ & shown & appended & E1 & E2 & L1 & L2 & F).
    simpl in E1. exists appended. rewrite E1, E2.
    repeat split; auto.
    eapply Forall_impl; [exact F|]. intros a (z & Hz & ->). by exists loc, z.
  - exists []. simpl. rewrite app_nil_r. repeat split; auto; lia.
Qed.

End HookFacts.

(** ** The backend handler *)

Section ServerFacts.

Import Server.

#[local] Arguments in_zone : simpl never.




Lemma post_locations_zones body now e1 e2 db :
  danger_zones (post_locations body now e1 e2 db).1 = danger_zones db.
Proof. unfold post_locations. by destruct e1. Qed.

Lemma server_distance_self (lat lon : R) :
  Server.calculateDistance lat lon lat lon = 0%R.
Proof.
  rewrite server_distance_haversine, <- hook_distance_haversine.
  apply hook_distance_self.
Qed.

End ServerFacts.

(** ** The contract *)

Section ContractFacts.

Import Contract.

Local Open Scope Z_scope.

Implicit Types (st : State) (env : Env) (evs : list Event).

(** *** Running transactions *)

Lemma bind_run {A B} (m : M A) (f : A → M B) st :
  (m ≫= f) st =
  match m st with
  | None => None
  | Some (a, st1, ev1) =>
      match f a st1 with
      | None => None
      | Some (b, st2, ev2) => Some (b, st2, ev1 ++ ev2)
      end
  end.
Proof. reflexivity. Qed.

Lemma bind_silent {A B} (m : M A) (f : A → M B) st a st1 :
  m st = Some (a, st1, []) → (m ≫= f) st = f a st1.
Proof.
  intros H. rewrite bind_run, H. by destruct (f a st1) as [[[b st2] ev2]|].
Qed.

Lemma bind_inv {A B} (m : M A) (f : A → M B) st b st2 evs :
  (m ≫= f) st = Some (b, st2, evs) →
  ∃ a st1 ev1 ev2,
    m st = Some (a, st1, ev1) ∧ f a st1 = Some (b, st2, ev2)
    ∧ evs = ev1 ++ ev2.
Proof.
  rewrite bind_run. destruct (m st) as [[[a st1] ev1]|]; [|done].
  destruct (f a st1) as [[[b' st2'] ev2]|] eqn:Hf; [|done].
  intros [= -> -> <-]. by exists a, st1, ev1, ev2.
Qed.

Lemma bind_get {B} (f : State → M B) st : (get ≫= f) st = f st st.
Proof. by apply bind_silent. Qed.

Lemma bind_modify {B} (g : State → State) (f : unit → M B) st :
  (modify g ≫= f) st = f tt (g st).
Proof. by apply bind_silent. Qed.

Lemma bind_require {B} (b : bool) (f : unit → M B) st :
  b = true → (require b ≫= f) st = f tt st.
Proof. intros ->. by apply bind_silent. Qed.

Lemma bind_checked {A B} (o : option A) (f : A → M B) st a :
  o = Some a → (checked o ≫= f) st = f a st.
Proof. intros ->. by apply bind_silent. Qed.

Lemma bind_emit {B} (e : Event) (f : unit → M B) st :
  (emit e ≫= f) st =
  match f tt st with
  | None => None
  | Some (b, st2, ev2) => Some (b, st2, e :: ev2)
  end.
Proof. reflexivity. Qed.

(** Takes a successful run apart, primitive by primitive. *)
Ltac tx_inv H :=
  cbv beta zeta in H;
  lazymatch type of H with
  | mbind _ _ _ = Some _ =>
      let Hm := fresh "Hm" in
      apply bind_inv in H as (? & ? & ? & ? & Hm & H & ?);
      tx_inv Hm; tx_inv H
  | get _ = Some _ => unfold get in H; simplify_eq
  | modify _ _ = Some _ => unfold modify in H; simplify_eq
  | emit _ _ = Some _ => unfold emit in H; simplify_eq
  | mret _ _ = Some _ => unfold mret, M_ret in H; simplify_eq
  | revert _ = Some _ => discriminate H
  | require ?b _ = Some _ =>
      unfold require in H; destruct b eqn:?; simplify_eq
  | checked ?o _ = Some _ =>
      unfold checked in H; destruct o eqn:?; simplify_eq
  | onlyOwner _ _ = Some _ => unfold onlyOwner in H; tx_inv H
  | onlyAdmin _ _ = Some _ => unfold onlyAdmin in H; tx_inv H
  | onlyRegisteredTourist _ _ = Some _ =>
      unfold onlyRegisteredTourist in H; tx_inv H
  | (if ?b then _ else _) _ = Some _ => destruct b eqn:?; tx_inv H
  | (match ?o with Some _ => _ | None => _ end) _ = Some _ =>
      destruct o eqn:?; tx_inv H
  | _ => idtac
  end.

Lemma uint256_Some x y : uint256 x = Some y → y = x ∧ 0 ≤ x ≤ MAX_UINT256.
Proof. unfold uint256. case_bool_decide; [|done]. by intros [= ->]. Qed.

Lemma uint256_in_range x : 0 ≤ x ≤ MAX_UINT256 → uint256 x = Some x.
Proof. intros H. unfold uint256. by rewrite bool_decide_eq_true_2. Qed.

(** *** The count of active alerts *)

Lemma active_app (l1 l2 : list EmergencyAlert) :
  active (l1 ++ l2) = active l1 ++ active l2.
Proof. apply filter_app. Qed.

Lemma active_dismiss (l : list EmergencyAlert) : ∀ (i : nat) a,
  l !! i = Some a → a_isDismissed a = false →
  S (length (active (<[i := set_a_isDismissed true a]> l)))
  = length (active l).
Proof.
  unfold active.
  induction l as [|x l IH]; intros i a Hl Ha; [done|].
  destruct i as [|i]; simpl in *.
  - simplify_eq. rewrite filter_cons_False by (simpl; congruence).
    by rewrite filter_cons_True.
  - destruct (decide (a_isDismissed x = false)).
    + rewrite !filter_cons_True by done. simpl. f_equal. by eapply IH.
    + rewrite !filter_cons_False by done. by eapply IH.
Qed.

Lemma createEmergencyAlert_count env t s zn zl st st' evs u :
  count_ok st →
  _createEmergencyAlert env t s zn zl st = Some (u, st', evs) →
  count_ok st'.
Proof.
  unfold count_ok, _createEmergencyAlert. intros [Hc Hb] H. tx_inv H.
  simpl in *.
  repeat match goal with
         | H : uint256 _ = Some _ |- _ => apply uint256_Some in H as [-> ?]
         end.
  rewrite active_app, length_app. simpl. lia.
Qed.

Lemma checkDangerZoneEntry_count env t lat lng (zones : list DangerZone) :
  ∀ st st' evs u,
  count_ok st →
  _checkDangerZoneEntry_from env zones t lat lng st = Some (u, st', evs) →
  count_ok st'.
Proof.
  induction zones as [|z zones IH]; intros st st' evs u Hc H; simpl in H.
  { tx_inv H. done. }
  destruct (z_isActive z); simpl in H; [|by eapply IH].
  tx_inv H.
  - eapply createEmergencyAlert_count; [|done]. done.
  - done.
  - by eapply IH.
Qed.

Lemma dispatch_count env c st st' evs u :
  count_ok st → dispatch env c st = Some (u, st', evs) → count_ok st'.
Proof.
  intros Hc H. destruct c; simpl in H.
  - unfold addAdmin in H. tx_inv H. done.
  - unfold removeAdmin in H. tx_inv H. done.
  - unfold void, registerTourist in H. tx_inv H. done.
  - unfold updateStatus in H. tx_inv H; [|done].
    eapply createEmergencyAlert_count; [|done]. done.
  - unfold updateLocation, _checkDangerZoneEntry in H. tx_inv H.
    eapply checkDangerZoneEntry_count; [|done]. done.
  - unfold void, createDangerZone in H. tx_inv H. done.
  - unfold updateDangerZone in H. tx_inv H. done.
  - unfold removeDangerZone in H. tx_inv H. done.
  - unfold dismissAlert in H. tx_inv H.
    unfold count_ok in *. simpl. destruct Hc as [Hc Hb].
    match goal with
    | H : uint256 _ = Some _ |- _ => apply uint256_Some in H as [-> ?]
    end.
    match goal with
    | Hl : alerts _ !! _ = Some ?a, Hd : negb (a_isDismissed ?a) = true |- _ =>
        apply negb_true_iff in Hd;
        pose proof (active_dismiss _ _ _ Hl Hd)
    end.
    lia.
Qed.

Lemma transact_count st tx : count_ok st → count_ok (transact st tx).1.
Proof.
  intros Hc. unfold transact.
  destruct (dispatch tx.1 tx.2 st) as [[[u st'] evs]|] eqn:H; [|done].
  by eapply dispatch_count.
Qed.

Lemma history_cons tx (txs : list (Env * Call)) st :
  history (tx :: txs) st =
  ((history txs (transact st tx).1).1,
   (transact st tx).2 :: (history txs (transact st tx).1).2).
Proof.
  cbn [history]. destruct (transact st tx) as [st1 evs]. cbn [fst snd].
  by destruct (history txs st1).
Qed.

Lemma history_count (txs : list (Env * Call)) : ∀ st,
  count_ok st → count_ok (history txs st).1.
Proof.
  induction txs as [|tx txs IH]; intros st Hc; [done|].
  rewrite history_cons. simpl. by apply IH, transact_count.
Qed.

Lemma reachable_count st : reachable st → count_ok st.
Proof.
  intros (env & txs & ->). apply history_count.
  split; [reflexivity|]. vm_compute. discriminate.
Qed.

(** The loop of [getActiveAlerts] fills the slots from [index] on with the
    active alerts, in order, when they fit. *)
Lemma getActiveAlerts_from_fits (todo : list EmergencyAlert) :
  ∀ (arr : list EmergencyAlert) (index : nat),
  (index + length (active todo) ≤ length arr)%nat →
  getActiveAlerts_from todo arr index
  = Some (take index arr ++ active todo
            ++ drop (index + length (active todo)) arr).
Proof.
  unfold active.
  induction todo as [|a todo IH]; intros arr index Hfit; simpl.
  { simpl. by rewrite Nat.add_0_r, take_drop. }
  destruct (a_isDismissed a) eqn:Ha; simpl.
  - rewrite filter_cons_False in Hfit |- * by congruence. by apply IH.
  - rewrite filter_cons_True in Hfit |- * by done. simpl in Hfit.
    rewrite bool_decide_eq_true_2 by lia.
    rewrite IH by (rewrite length_insert; lia).
    f_equal.
    destruct (lookup_lt_is_Some_2 arr index) as [x Hx]; [lia|].
    rewrite take_insert_lt, drop_insert_lt by lia.
    rewrite (take_S_r _ _ x Hx).
    rewrite insert_app_r_alt by (rewrite length_take; lia).
    rewrite length_take, Nat.min_l by lia.
    rewrite Nat.sub_diag. simpl. rewrite <- app_assoc. simpl.
    by rewrite Nat.add_succ_r.
Qed.

Lemma getActiveAlerts_active env st :
  count_ok st →
  isAdmin_at st (msg_sender env) || bool_decide (msg_sender env = owner st)
    = true →
  getActiveAlerts env st = Some (active (alerts st), st, []).
Proof.
  intros Hc Hadmin. unfold getActiveAlerts, onlyAdmin.
  rewrite bind_silent with (a := tt) (st1 := st);
    [|by rewrite bind_get, Hadmin].
  rewrite bind_get. rewrite (proj1 Hc), Nat2Z.id.
  rewrite getActiveAlerts_from_fits by (rewrite length_replicate; lia).
  simpl. rewrite drop_ge by (rewrite length_replicate; lia).
  by rewrite app_nil_r.
Qed.

Lemma tourist_at_set_tourist a t st : tourist_at (set_tourist a t st) a = t.
Proof. unfold tourist_at, set_tourist. simpl. by rewrite lookup_insert_eq. Qed.

Lemma createEmergencyAlert_run env t s zn zl st :
  0 ≤ alertCounter st < MAX_UINT256 → 0 ≤ alertCount st < MAX_UINT256 →
  _createEmergencyAlert env t s zn zl st =
  Some (tt,
        set_alertCount (alertCount st + 1)
          (set_alerts (alerts st ++ [new_alert env st t s zn zl])
             (set_alertCounter (alertCounter st + 1) st)),
        [EmergencyAlertCreated ("ALERT-" +:+ _uint2str (alertCounter st + 1))
           t (t_touristId (tourist_at st t)) s (block_timestamp env)]).
Proof.
  intros H1 H2. unfold _createEmergencyAlert.
  rewrite bind_get.
  rewrite (bind_checked _ _ _ (alertCounter st + 1))
    by (apply uint256_in_range; lia).
  rewrite bind_modify, bind_get, bind_modify, bind_get.
  rewrite (bind_checked _ _ _ (alertCount st + 1))
    by (apply uint256_in_range; simpl; lia).
  rewrite bind_modify. reflexivity.
Qed.

Lemma onlyAdmin_run env st :
  isAdmin_at st (msg_sender env) || bool_decide (msg_sender env = owner st)
    = true →
  onlyAdmin env st = Some (tt, st, []).
Proof. intros H. unfold onlyAdmin. by rewrite bind_get, H. Qed.

(** [dismissAlert] by an admin, at an index of the array: it reverts on an
    alert already dismissed, and otherwise sets the flag and decrements
    [alertCount]. *)
Lemma dismissAlert_run env (i : Z) a st :
  count_ok st →
  isAdmin_at st (msg_sender env) || bool_decide (msg_sender env = owner st)
    = true →
  0 ≤ i → alerts st !! Z.to_nat i = Some a →
  dismissAlert env i st =
  if a_isDismissed a then None
  else Some (tt,
             set_alertCount (alertCount st - 1)
               (set_alerts
                  (<[Z.to_nat i := set_a_isDismissed true a]> (alerts st)) st),
             [AlertDismissed (a_alertId a) (msg_sender env)]).
Proof.
  intros [Hc Hb] Hadmin Hi Hl. unfold dismissAlert.
  rewrite (bind_silent _ _ _ tt st) by by apply onlyAdmin_run.
  rewrite bind_get.
  pose proof (lookup_lt_Some _ _ _ Hl) as Hlt.
  rewrite bind_require by (apply bool_decide_eq_true_2; lia).
  rewrite Hl. destruct (a_isDismissed a) eqn:Ha; [done|].
  rewrite bind_require by done. rewrite bind_modify.
  pose proof (active_dismiss _ _ _ Hl Ha) as Hlen.
  rewrite (bind_checked _ _ _ (alertCount st - 1))
    by (apply uint256_in_range; lia).
  rewrite bind_modify. reflexivity.
Qed.

(** C9: in every storage the contract can reach, [alertCount] is the number
    of alerts whose [isDismissed] flag is false, and [getActiveAlerts],
    called by an admin, returns exactly those alerts, in order, with no
    empty slot. [_createEmergencyAlert] appends an alert that is not
    dismissed and increments [alertCount]; [dismissAlert] reverts on an
    alert already dismissed and otherwise sets its flag and decrements
    [alertCount]. *)
Theorem alertCount_counts_active st :
  reachable st →
  alertCount st = Z.of_nat (length (active (alerts st)))
  ∧ (∀ env,
       isAdmin_at st (msg_sender env) || bool_decide (msg_sender env = owner st)
         = true →
       getActiveAlerts env st = Some (active (alerts st), st, []))
  ∧ (∀ env t s zn zl,
       0 ≤ alertCounter st < MAX_UINT256 → alertCount st < MAX_UINT256 →
       ∃ st' evs,
         _createEmergencyAlert env t s zn zl st = Some (tt, st', evs)
         ∧ alerts st' = alerts st ++ [new_alert env st t s zn zl]
         ∧ a_isDismissed (new_alert env st t s zn zl) = false
         ∧ alertCount st' = alertCount st + 1)
  ∧ (∀ env i a,
       isAdmin_at st (msg_sender env) || bool_decide (msg_sender env = owner st)
         = true →
       0 ≤ i → alerts st !! Z.to_nat i = Some a →
       dismissAlert env i st =
       if a_isDismissed a then None
       else Some (tt,
                  set_alertCount (alertCount st - 1)
                    (set_alerts
                       (<[Z.to_nat i := set_a_isDismissed true a]> (alerts st))
                       st),
                  [AlertDismissed (a_alertId a) (msg_sender env)])).
Proof.
  intros Hr. pose proof (reachable_count st Hr) as Hc.
  split; [exact (proj1 Hc)|]. split; [|split].
  - intros env. by apply getActiveAlerts_active.
  - intros env t s zn zl H1 H2.
    rewrite createEmergencyAlert_run by (destruct Hc; lia).
    eexists _, _. split; [reflexivity|]. by split.
  - intros env i a. by apply dismissAlert_run.
Qed.

(** *** Location updates *)

Lemma check_passed env t lat lng (zones : list DangerZone) st :
  Forall (passed lat lng) zones →
  _checkDangerZoneEntry_from env zones t lat lng st = Some (tt, st, []).
Proof.
  induction 1 as [|z zones [Hz|Hz] _ IH]; simpl; [done| |].
  - by rewrite Hz.
  - destruct (z_isActive z); simpl; [|done].
    by rewrite (bind_checked _ _ _ false).
Qed.

Lemma check_hit env t lat lng (pre post : list DangerZone) z st :
  Forall (passed lat lng) pre →
  z_isActive z = true → inZone lat lng z = Some true →
  _checkDangerZoneEntry_from env (pre ++ z :: post) t lat lng st =
  if bool_decide (t_status (tourist_at st t) = Safe) then
    (modify (set_tourist t (set_t_status Alert (tourist_at st t)));;
     _createEmergencyAlert env t Alert (z_name z) (z_level z)) st
  else Some (tt, st, []).
Proof.
  intros Hpre Hact Hin.
  induction Hpre as [|z0 pre [Hz|Hz] _ IH]; simpl.
  - rewrite Hact. simpl. rewrite (bind_checked _ _ _ true) by done.
    rewrite bind_get. by case_bool_decide.
  - by rewrite Hz.
  - destruct (z_isActive z0); simpl; [|done].
    by rewrite (bind_checked _ _ _ false).
Qed.

(** With a status that is not [Safe] the loop changes nothing, wherever
    the position is. *)
Lemma check_elevated env t lat lng (zones : list DangerZone) st :
  t_status (tourist_at st t) ≠ Safe →
  Forall (λ z, z_isActive z = true → is_Some (inZone lat lng z)) zones →
  _checkDangerZoneEntry_from env zones t lat lng st = Some (tt, st, []).
Proof.
  intros Hst. induction 1 as [|z zones Hz _ IH]; simpl; [done|].
  destruct (z_isActive z); simpl; [|done].
  destruct Hz as [b Hb]; [done|].
  rewrite (bind_checked _ _ _ b) by done.
  destruct b; [|done].
  rewrite bind_get. by rewrite bool_decide_eq_false_2.
Qed.

(** Whenever the loop returns with a status that is not [Safe], it has
    changed nothing. *)
Lemma check_elevated_inv env t lat lng (zones : list DangerZone) :
  ∀ st st' evs u,
  t_status (tourist_at st t) ≠ Safe →
  _checkDangerZoneEntry_from env zones t lat lng st = Some (u, st', evs) →
  st' = st ∧ evs = [].
Proof.
  induction zones as [|z zones IH]; intros st st' evs u Hst H; simpl in H.
  { by tx_inv H. }
  destruct (z_isActive z); simpl in H; [|by eapply IH].
  tx_inv H.
  - match goal with
    | Hb : bool_decide _ = true |- _ => apply bool_decide_eq_true in Hb
    end. done.
  - done.
  - by eapply IH.
Qed.

Lemma updateLocation_run env lat lng st :
  t_isActive (tourist_at st (msg_sender env)) = true →
  updateLocation env lat lng st =
  match _checkDangerZoneEntry_from env (dangerZones st) (msg_sender env)
          lat lng (located env lat lng st) with
  | Some (u, st', evs) =>
      Some (u, st',
            LocationUpdated (msg_sender env)
              (t_touristId (tourist_at st (msg_sender env)))
              lat lng (block_timestamp env) :: evs)
  | None => None
  end.
Proof.
  intros Hreg. unfold updateLocation, onlyRegisteredTourist.
  rewrite bind_silent with (a := tt) (st1 := st);
    [|by rewrite bind_get, Hreg].
  rewrite bind_get, bind_modify, bind_emit.
  unfold _checkDangerZoneEntry. rewrite bind_get. reflexivity.
Qed.

Lemma located_status env lat lng st :
  t_status (tourist_at (located env lat lng st) (msg_sender env))
  = t_status (tourist_at st (msg_sender env)).
Proof. unfold located. by rewrite tourist_at_set_tourist. Qed.

(** A location update outside every active zone: the position is stored,
    [LocationUpdated] is the only event. *)
Lemma updateLocation_outside env lat lng st :
  t_isActive (tourist_at st (msg_sender env)) = true →
  Forall (passed lat lng) (dangerZones st) →
  updateLocation env lat lng st =
  Some (tt, located env lat lng st,
        [LocationUpdated (msg_sender env)
           (t_touristId (tourist_at st (msg_sender env)))
           lat lng (block_timestamp env)]).
Proof.
  intros Hreg Hz. rewrite updateLocation_run by done.
  by rewrite check_passed.
Qed.

(** A location update of a tourist whose status is not [Safe]. *)
Lemma updateLocation_elevated env lat lng st :
  t_isActive (tourist_at st (msg_sender env)) = true →
  t_status (tourist_at st (msg_sender env)) ≠ Safe →
  Forall (λ z, z_isActive z = true → is_Some (inZone lat lng z))
         (dangerZones st) →
  updateLocation env lat lng st =
  Some (tt, located env lat lng st,
        [LocationUpdated (msg_sender env)
           (t_touristId (tourist_at st (msg_sender env)))
           lat lng (block_timestamp env)]).
Proof.
  intros Hreg Hst Hz. rewrite updateLocation_run by done.
  rewrite check_elevated; [done| |done].
  by rewrite located_status.
Qed.

(** Whenever a location update returns for a tourist whose status is not
    [Safe], it has stored the position and emitted [LocationUpdated]
    only. *)
Lemma updateLocation_elevated_inv env lat lng st st' evs u :
  t_status (tourist_at st (msg_sender env)) ≠ Safe →
  updateLocation env lat lng st = Some (u, st', evs) →
  st' = located env lat lng st
  ∧ evs = [LocationUpdated (msg_sender env)
             (t_touristId (tourist_at st (msg_sender env)))
             lat lng (block_timestamp env)].
Proof.
  intros Hst H.
  destruct (t_isActive (tourist_at st (msg_sender env))) eqn:Hreg.
  - rewrite updateLocation_run in H by done.
    destruct (_checkDangerZoneEntry_from env (dangerZones st) (msg_sender env)
                lat lng (located env lat lng st))
      as [[[u' st1] evs1]|] eqn:Hc; [|done].
    apply check_elevated_inv in Hc as [-> ->];
      [|by rewrite located_status].
    by simplify_eq.
  - unfold updateLocation, onlyRegisteredTourist in H.
    apply bind_inv in H as (? & ? & ? & ? & Hm & _).
    rewrite bind_get, Hreg in Hm. done.
Qed.

(** A location update of a [Safe] tourist in an active zone: the first
    such zone of the array gives the one alert. *)
Lemma updateLocation_entered env lat lng st (pre post : list DangerZone) z :
  t_isActive (tourist_at st (msg_sender env)) = true →
  t_status (tourist_at st (msg_sender env)) = Safe →
  dangerZones st = pre ++ z :: post →
  Forall (passed lat lng) pre →
  z_isActive z = true → inZone lat lng z = Some true →
  0 ≤ alertCounter st < MAX_UINT256 → 0 ≤ alertCount st < MAX_UINT256 →
  let st1 :=
    set_tourist (msg_sender env)
      (set_t_status Alert (tourist_at (located env lat lng st) (msg_sender env)))
      (located env lat lng st) in
  updateLocation env lat lng st =
  Some (tt,
        set_alertCount (alertCount st + 1)
          (set_alerts
             (alerts st ++
                [new_alert env st1 (msg_sender env) Alert (z_name z) (z_level z)])
             (set_alertCounter (alertCounter st + 1) st1)),
        [LocationUpdated (msg_sender env)
           (t_touristId (tourist_at st (msg_sender env)))
           lat lng (block_timestamp env);
         EmergencyAlertCreated ("ALERT-" +:+ _uint2str (alertCounter st + 1))
           (msg_sender env) (t_touristId (tourist_at st (msg_sender env)))
           Alert (block_timestamp env)]).
Proof.
  intros Hreg Hsafe Hzones Hpre Hact Hin Hc1 Hc2 st1.
  rewrite updateLocation_run by done.
  rewrite Hzones, check_hit by done.
  rewrite located_status, Hsafe, bool_decide_eq_true_2 by done.
  rewrite bind_modify. fold st1.
  rewrite createEmergencyAlert_run by done.
  unfold st1, located. rewrite !tourist_at_set_tourist. reflexivity.
Qed.

(** *** The decimal rendering of the counters *)

Lemma digit_char (d : Z) :
  0 ≤ d ≤ 9 →
  Z.of_N (Ascii.N_of_ascii (Ascii.ascii_of_N (Z.to_N (48 + d)))) - 48 = d.
Proof.
  intros H. rewrite Ascii.N_ascii_embedding by lia. lia.
Qed.

Lemma parse_digits_digits (fuel : nat) : ∀ (i : Z) (acc : string),
  0 ≤ i < 10 ^ Z.of_nat fuel →
  ∃ k, 0 ≤ k ∧ (i = 0 → k = 0) ∧ (0 < i → 0 < k)
       ∧ ∀ a0, parse_digits (digits fuel i acc) a0
               = parse_digits acc (a0 * 10 ^ k + i).
Proof.
  induction fuel as [|fuel IH]; intros i acc Hi.
  { exists 0. simpl in *. repeat split; try lia.
    intros a0. f_equal. lia. }
  simpl digits. case_bool_decide as H0.
  { subst i. exists 0. repeat split; try lia. intros a0. f_equal. lia. }
  assert (0 ≤ i / 10 < 10 ^ Z.of_nat fuel) as Hq.
  { rewrite Nat2Z.inj_succ, Z.pow_succ_r in Hi by lia.
    split; [apply Z.div_pos; lia|].
    apply Z.div_lt_upper_bound; lia. }
  destruct (IH (i / 10)
              (String (Ascii.ascii_of_N (Z.to_N (48 + (i - i / 10 * 10)))) acc)
              Hq) as (k & Hk & _ & _ & Hp).
  exists (k + 1). repeat split; try lia.
  intros a0. rewrite Hp. simpl parse_digits.
  assert (0 ≤ i - i / 10 * 10 ≤ 9) as Hd.
  { pose proof (Z.mod_pos_bound i 10 ltac:(lia)).
    pose proof (Z.div_mod i 10 ltac:(lia)). lia. }
  rewrite digit_char by done.
  rewrite bool_decide_eq_true_2 by done.
  f_equal. rewrite Z.pow_add_r by lia. lia.
Qed.

Lemma uint2str_parse (i : Z) :
  0 ≤ i ≤ MAX_UINT256 → parse_uint (_uint2str i) = Some i.
Proof.
  intros Hi. unfold _uint2str. case_bool_decide as H0; [by subst|].
  assert (0 ≤ i < 10 ^ Z.of_nat 78) as Hlt.
  { split; [lia|]. eapply Z.le_lt_trans; [apply Hi|]. by vm_compute. }
  destruct (parse_digits_digits 78 i "" Hlt) as (k & Hk & _ & Hpos & Hp).
  unfold parse_uint.
  destruct (digits 78 i "") as [|c s] eqn:Hs.
  - specialize (Hp 1). simpl in Hp.
    assert (0 < k) by (apply Hpos; lia).
    assert (10 ^ 1 ≤ 10 ^ k) by (apply Z.pow_le_mono_r; lia).
    exfalso. injection Hp as Hp. lia.
  - rewrite (Hp 0). simpl. done.
Qed.

Lemma uint2str_inj (n m : Z) :
  0 ≤ n ≤ MAX_UINT256 → 0 ≤ m ≤ MAX_UINT256 →
  _uint2str n = _uint2str m → n = m.
Proof.
  intros Hn Hm Heq. apply uint2str_parse in Hn, Hm.
  rewrite Heq, Hm in Hn. by simplify_eq.
Qed.

(** X6: [_uint2str] writes the decimal digits of its argument: read back
    as a decimal number, the string of every [uint256] gives the number
    again, so two different numbers never get the same string. *)
Theorem uint2str_round_trip (n : Z) :
  0 ≤ n ≤ MAX_UINT256 →
  parse_uint (_uint2str n) = Some n
  ∧ ∀ m, 0 ≤ m ≤ MAX_UINT256 → _uint2str m = _uint2str n → m = n.
Proof.
  intros Hn. split; [by apply uint2str_parse|].
  intros m Hm Heq. by apply uint2str_inj.
Qed.

(** *** Invariants of the storage *)

#[local] Set Warnings "-clear-no-such-hyp".

Lemma history_inv (I : State → Prop) :
  (∀ env c st u st' evs,
     I st → dispatch env c st = Some (u, st', evs) → I st') →
  ∀ (txs : list (Env * Call)) st, I st → I (history txs st).1.
Proof.
  intros Hstep. induction txs as [|tx txs IH]; intros st HI; [done|].
  rewrite history_cons. simpl. apply IH. unfold transact.
  destruct (dispatch tx.1 tx.2 st) as [[[u st'] evs]|] eqn:H; [|done].
  by eapply Hstep.
Qed.

Lemma reachable_inv (I : State → Prop) :
  (∀ env, I (constructor env)) →
  (∀ env c st u st' evs,
     I st → dispatch env c st = Some (u, st', evs) → I st') →
  ∀ st, reachable st → I st.
Proof. intros H0 Hstep st (env & txs & ->). by apply history_inv. Qed.

Lemma history_rel (R : State → State → Prop) :
  (∀ st, R st st) →
  (∀ st1 st2 st3, R st1 st2 → R st2 st3 → R st1 st3) →
  (∀ env c st u st' evs, dispatch env c st = Some (u, st', evs) → R st st') →
  ∀ (txs : list (Env * Call)) st, R st (history txs st).1.
Proof.
  intros Hrefl Htrans Hstep.
  induction txs as [|tx txs IH]; intros st; [apply Hrefl|].
  rewrite history_cons. simpl. eapply Htrans; [|apply IH]. unfold transact.
  destruct (dispatch tx.1 tx.2 st) as [[[u st'] evs]|] eqn:H; [|apply Hrefl].
  by eapply Hstep.
Qed.

(** What the two internal functions do when they return. *)
Lemma createEmergencyAlert_inv env t s zn zl st u st' evs :
  _createEmergencyAlert env t s zn zl st = Some (u, st', evs) →
  st' = set_alertCount (alertCount st + 1)
          (set_alerts (alerts st ++ [new_alert env st t s zn zl])
             (set_alertCounter (alertCounter st + 1) st))
  ∧ 0 ≤ alertCounter st + 1 ≤ MAX_UINT256
  ∧ 0 ≤ alertCount st + 1 ≤ MAX_UINT256.
Proof.
  unfold _createEmergencyAlert. intros H. tx_inv H. simpl in *.
  repeat match goal with
         | H : uint256 _ = Some _ |- _ => apply uint256_Some in H as [-> ?]
         end.
  done.
Qed.

Lemma check_inv env t lat lng (zones : list DangerZone) : ∀ st u st' evs,
  _checkDangerZoneEntry_from env zones t lat lng st = Some (u, st', evs) →
  (st' = st ∧ evs = [])
  ∨ ∃ z, z ∈ zones ∧ z_isActive z = true
         ∧ inZone lat lng z = Some true
         ∧ t_status (tourist_at st t) = Safe
         ∧ _createEmergencyAlert env t Alert (z_name z) (z_level z)
             (set_tourist t (set_t_status Alert (tourist_at st t)) st)
           = Some (u, st', evs).
Proof.
  induction zones as [|z zones IH]; intros st u st' evs H; simpl in H.
  { tx_inv H. by left. }
  destruct (z_isActive z) eqn:Hact; simpl in H.
  - tx_inv H.
    + right. exists z. split; [apply list_elem_of_here|].
      match goal with
      | Hb : bool_decide _ = true |- _ => apply bool_decide_eq_true in Hb
      end.
      simpl. by repeat split.
    + by left.
    + apply IH in H as [?|(z0 & ? & ?)]; [by left|].
      right. exists z0. split; [by apply list_elem_of_further|done].
  - apply IH in H as [?|(z0 & ? & ?)]; [by left|].
    right. exists z0. split; [by apply list_elem_of_further|done].
Qed.

(** Takes a dispatched call apart, down to the storage it leaves. *)
Ltac call_inv H :=
  unfold addAdmin, removeAdmin, void, registerTourist, updateStatus,
    updateLocation, _checkDangerZoneEntry, createDangerZone,
    updateDangerZone, removeDangerZone, dismissAlert in H;
  tx_inv H;
  repeat match goal with
         | Hc : _checkDangerZoneEntry_from _ _ _ _ _ _ = Some _ |- _ =>
             apply check_inv in Hc as [[-> ->]|(? & ? & ? & ? & ? & Hc)]
         end;
  repeat match goal with
         | Hc : _createEmergencyAlert _ _ _ _ _ _ = Some _ |- _ =>
             apply createEmergencyAlert_inv in Hc as (-> & ? & ?)
         end;
  repeat match goal with
         | Hu : uint256 _ = Some _ |- _ => apply uint256_Some in Hu as [-> ?]
         end.

Lemma isAdmin_at_insert st a b (v : bool) :
  default false (<[a := v]> (isAdmin st) !! b)
  = if bool_decide (a = b) then v else isAdmin_at st b.
Proof.
  unfold isAdmin_at. case_bool_decide as H.
  - subst. by rewrite lookup_insert_eq.
  - by rewrite lookup_insert_ne.
Qed.

Lemma tourist_at_set_tourist_ne a b t st :
  a ≠ b → tourist_at (set_tourist a t st) b = tourist_at st b.
Proof.
  intros H. unfold tourist_at, set_tourist. simpl. by rewrite lookup_insert_ne.
Qed.

(** *** The admins *)

Lemma remove_swap_first (a : address) : ∀ (todo pre : list address),
  a ∈ todo →
  ∃ mid post,
    todo = mid ++ a :: post ∧ (a ∉ mid)
    ∧ remove_swap (length pre) a (pre ++ todo) todo
      = removelast (<[length (pre ++ mid) := List.last (pre ++ todo) 0]>
                      (pre ++ todo)).
Proof.
  induction todo as [|x todo IH]; intros pre Hin.
  { by apply elem_of_nil in Hin. }
  simpl. case_bool_decide as Hx.
  - subst x. exists [], todo. split; [done|]. split; [apply not_elem_of_nil|].
    by rewrite app_nil_r.
  - apply elem_of_cons in Hin as [?|Hin]; [congruence|].
    destruct (IH (pre ++ [x]) Hin) as (mid & post & -> & Hmid & Heq).
    exists (x :: mid), post. split; [done|].
    split; [apply not_elem_of_cons; split; [congruence|done]|].
    rewrite length_app in Heq. simpl in Heq.
    rewrite Nat.add_1_r in Heq. rewrite <- !app_assoc in Heq. simpl in Heq.
    by rewrite Heq.
Qed.

Lemma swap_pop_elements (a : address) (p q : list address) :
  NoDup (p ++ a :: q) →
  let r := removelast (<[length p := List.last (p ++ a :: q) 0]> (p ++ a :: q)) in
  NoDup r ∧ ∀ x, x ∈ r ↔ x ∈ p ++ a :: q ∧ x ≠ a.
Proof.
  intros Hnd r. unfold r. clear r.
  replace (length p) with (length p + 0)%nat by lia.
  rewrite insert_app_r. simpl.
  apply NoDup_app in Hnd as (Hp & Hpq & Haq).
  apply NoDup_cons in Haq as [Ha Hq].
  destruct (decide (q = [])) as [->|Hne].
  - rewrite List.last_last, List.removelast_last. split; [done|].
    intros x. rewrite elem_of_app, list_elem_of_singleton. split.
    + intros Hx. split; [by left|]. intros ->.
      apply (Hpq a Hx), list_elem_of_here.
    + intros [[?|?] ?]; done.
  - destruct (exists_last Hne) as (q' & y & ->).
    rewrite (app_comm_cons q' [y] a), app_assoc, List.last_last.
    rewrite (app_comm_cons q' [y] y), app_assoc, List.removelast_last.
    apply NoDup_app in Hq as (Hq' & Hq'y & _).
    assert (y ≠ a) as Hya.
    { intros ->. apply Ha, elem_of_app. right. apply list_elem_of_here. }
    assert (y ∉ q') as Hyq.
    { intros Hy. apply (Hq'y y Hy), list_elem_of_here. }
    split.
    + apply NoDup_app. split; [done|]. split.
      * intros x Hx Hx'. apply elem_of_cons in Hx' as [->|Hx'].
        -- apply (Hpq y Hx). apply list_elem_of_further, elem_of_app.
           right. apply list_elem_of_here.
        -- apply (Hpq x Hx). apply list_elem_of_further, elem_of_app.
           by left.
      * apply NoDup_cons. split; done.
    + intros x. clear Hp Hq' Hq'y Hne Hyq. set_solver.
Qed.

Lemma remove_swap_elements (a : address) (l : list address) :
  NoDup l → a ∈ l →
  NoDup (remove_swap 0 a l l)
  ∧ ∀ x, x ∈ remove_swap 0 a l l ↔ x ∈ l ∧ x ≠ a.
Proof.
  intros Hnd Hin.
  destruct (remove_swap_first a l [] Hin) as (mid & post & -> & _ & Heq).
  simpl in Heq. rewrite Heq. by apply swap_pop_elements.
Qed.

Ltac bools :=
  repeat match goal with
         | Hb : negb _ = true |- _ => apply negb_true_iff in Hb
         | Hb : negb _ = false |- _ => apply negb_false_iff in Hb
         | Hb : bool_decide _ = true |- _ => apply bool_decide_eq_true in Hb
         | Hb : bool_decide _ = false |- _ => apply bool_decide_eq_false in Hb
         end.

Lemma dispatch_admins_ok env0 env c st u st' evs :
  admins_ok env0 st → dispatch env c st = Some (u, st', evs) →
  admins_ok env0 st'.
Proof.
  intros (Ho & Hnd & Hiff & Hown) H. destruct c; simpl in H; call_inv H;
    try done;
    match goal with Hn : NoDup (admins ?s) |- _ => rename s into st0 end;
    bools.
  - split; [done|]. simpl. split; [|split].
    + apply NoDup_app. split; [done|]. split; [|apply NoDup_singleton].
      intros x Hx Hx'. apply list_elem_of_singleton in Hx' as ->.
      apply Hiff in Hx. congruence.
    + intros a. unfold isAdmin_at at 1. simpl. rewrite isAdmin_at_insert.
      rewrite elem_of_app, list_elem_of_singleton, Hiff.
      case_bool_decide; subst; split; auto.
      intros [?|?]; [done|congruence].
    + apply elem_of_app. by left.
  - assert (_admin ∈ admins st0) as Hin by by apply Hiff.
    destruct (remove_swap_elements _admin (admins st0) Hnd Hin) as [Hnd' Hel].
    split; [done|]. simpl. split; [done|]. split.
    + intros a. unfold isAdmin_at at 1. simpl. rewrite isAdmin_at_insert.
      rewrite Hel, Hiff. case_bool_decide; subst; split.
      * intros [_ ?]. done.
      * done.
      * intros [? _]. done.
      * intros ?. split; [done|congruence].
    + apply Hel. split; [done|congruence].
Qed.

(** X7: in every storage the contract can reach, the owner is the account
    that deployed it, the [admins] array lists exactly the addresses that
    [isAdmin] marks, each once, and the owner is among them: the
    swap-and-pop of [removeAdmin] removes the one address and nothing
    else, and [getAdmins] returns the current admins without
    duplicates. *)
Theorem admins_array_matches_mapping (env0 : Env)
    (txs : list (Env * Call)) :
  let st := (history txs (constructor env0)).1 in
  owner st = msg_sender env0
  ∧ NoDup (admins st)
  ∧ (∀ a, a ∈ admins st ↔ isAdmin_at st a = true)
  ∧ owner st ∈ admins st
  ∧ getAdmins st = Some (admins st, st, []).
Proof.
  intros st.
  assert (admins_ok env0 st) as (H1 & H2 & H3 & H4).
  { apply history_inv.
    - intros env c s u s' evs. apply dispatch_admins_ok.
    - split; [done|]. simpl. split; [apply NoDup_singleton|]. split.
      + intros a. unfold isAdmin_at. simpl.
        rewrite list_elem_of_singleton. split.
        * intros ->. by rewrite lookup_singleton_eq.
        * intros Ha. destruct (decide (a = msg_sender env0)); [done|].
          by rewrite lookup_singleton_ne in Ha.
      + apply list_elem_of_here. }
  repeat split; try done; by apply H3.
Qed.

(** *** Who may call what *)

Lemma bind_fail {A B} (m : M A) (f : A → M B) st :
  m st = None → (m ≫= f) st = None.
Proof. intros H. by rewrite bind_run, H. Qed.

Lemma modifier_fails env st :
  (allowed env st ByOwner = false → onlyOwner env st = None)
  ∧ (allowed env st ByAdmin = false → onlyAdmin env st = None)
  ∧ (allowed env st ByTourist = false → onlyRegisteredTourist env st = None).
Proof.
  unfold allowed, onlyOwner, onlyAdmin, onlyRegisteredTourist.
  repeat split; intros H; by rewrite bind_get, H.
Qed.

(** X8: a call whose sender does not pass the modifier of the function
    reverts: admin management is for the owner, zone management and
    [dismissAlert] for an admin or the owner, [updateStatus] and
    [updateLocation] for a registered tourist. The storage stays as it was
    and no event is emitted. *)
Theorem guarded_calls_revert (env : Env) (c : Call) (st : State) :
  allowed env st (guard c) = false →
  dispatch env c st = None ∧ transact st (env, c) = (st, []).
Proof.
  intros H.
  assert (dispatch env c st = None) as Hd.
  { destruct (modifier_fails env st) as (Ho & Ha & Ht).
    destruct c; simpl in *; try done;
      unfold addAdmin, removeAdmin, void, updateStatus, updateLocation,
        createDangerZone, updateDangerZone, removeDangerZone, dismissAlert;
      apply bind_fail; first [solve [auto] | apply bind_fail; solve [auto]]. }
  split; [done|]. unfold transact. simpl. by rewrite Hd.
Qed.

(** *** The zone registry *)

Lemma zone_id_inj (i j : Z) :
  0 ≤ i ≤ MAX_UINT256 → 0 ≤ j ≤ MAX_UINT256 →
  "ZONE-" +:+ _uint2str i = "ZONE-" +:+ _uint2str j → i = j.
Proof.
  intros Hi Hj H. apply (String.app_inj "ZONE-") in H.
  by apply uint2str_inj.
Qed.

Lemma dispatch_zones_ok env c st u st' evs :
  zones_ok st → dispatch env c st = Some (u, st', evs) → zones_ok st'.
Proof.
  intros (Hc & Hb & Hz) H. destruct c; simpl in H; call_inv H; try done;
    match goal with
    | Hn : zoneCounter ?s = Z.of_nat _ |- _ => rename s into st0
    end;
    bools.
  - (* createDangerZone *)
    unfold zones_ok. simpl. rewrite length_app. simpl.
    split; [lia|]. split; [lia|].
    intros i z Hi.
    destruct (decide (i < length (dangerZones st0))%nat) as [Hlt|Hge].
    + rewrite lookup_app_l in Hi by done.
      destruct (Hz i z Hi) as [Hid Hidx]. split; [done|].
      rewrite lookup_insert_ne; [done|].
      rewrite Hid. intros Heq. apply zone_id_inj in Heq; lia.
    + rewrite lookup_app_r in Hi by lia.
      apply list_lookup_singleton_Some in Hi as [Hi <-]. simpl.
      assert (i = length (dangerZones st0)) as -> by lia.
      rewrite Hc. split; [done|].
      rewrite lookup_insert_eq. f_equal. lia.
  - (* updateDangerZone *)
    unfold zones_ok. simpl. rewrite length_insert.
    split; [done|]. split; [done|].
    intros i z Hi.
    match goal with
    | Hl : dangerZones st0 !! ?j = Some ?z0 |- _ =>
        destruct (decide (i = j)) as [->|Hne];
        [rewrite list_lookup_insert_eq in Hi by (by eapply lookup_lt_Some);
         injection Hi as <-; simpl; by apply Hz
        |rewrite list_lookup_insert_ne in Hi by done; by apply Hz]
    end.
  - (* removeDangerZone *)
    unfold zones_ok. simpl. rewrite length_insert.
    split; [done|]. split; [done|].
    intros i z Hi.
    match goal with
    | Hl : dangerZones st0 !! ?j = Some ?z0 |- _ =>
        destruct (decide (i = j)) as [->|Hne];
        [rewrite list_lookup_insert_eq in Hi by (by eapply lookup_lt_Some);
         injection Hi as <-; simpl; by apply Hz
        |rewrite list_lookup_insert_ne in Hi by done; by apply Hz]
    end.
Qed.

(** X9: in every storage the contract can reach, the zone at index [i] has
    the id ZONE-(i+1), [zoneIdToIndex] maps that id back to [i], and no two
    zones share an id. *)
Theorem zone_ids_index_the_array (st : State) (i : nat) (z : DangerZone) :
  reachable st →
  dangerZones st !! i = Some z →
  z_zoneId z = "ZONE-" +:+ _uint2str (Z.of_nat i + 1)
  ∧ zoneIdToIndex st !! z_zoneId z = Some (Z.of_nat i)
  ∧ NoDup (z_zoneId <$> dangerZones st).
Proof.
  intros Hr Hi.
  assert (zones_ok st) as (Hc & Hb & Hz).
  { clear Hi. revert st Hr. apply reachable_inv.
    - intros env. split; [done|]. split; [by vm_compute|].
      intros j z0 Hj. simpl in Hj. by rewrite lookup_nil in Hj.
    - intros env c s u s' evs. apply dispatch_zones_ok. }
  destruct (Hz i z Hi) as [H1 H2]. split; [done|]. split; [done|].
  apply NoDup_alt. intros j k zid Hj Hk.
  rewrite list_lookup_fmap in Hj, Hk.
  destruct (dangerZones st !! j) as [zj|] eqn:Ej; [|done].
  destruct (dangerZones st !! k) as [zk|] eqn:Ek; [|done].
  simpl in Hj, Hk. injection Hj as <-. injection Hk as Hk.
  destruct (Hz j zj Ej) as [_ Hj2]. destruct (Hz k zk Ek) as [_ Hk2].
  rewrite Hk in Hk2. rewrite Hj2 in Hk2. injection Hk2 as Hk2. lia.
Qed.

(** *** The alerts *)

Lemma alert_ids_push (l : list EmergencyAlert) (c : Z) (a : EmergencyAlert) :
  c = Z.of_nat (length l) →
  (∀ (i : nat) x, l !! i = Some x →
     a_alertId x = "ALERT-" +:+ _uint2str (Z.of_nat i + 1)) →
  a_alertId a = "ALERT-" +:+ _uint2str (c + 1) →
  ∀ (i : nat) x, (l ++ [a]) !! i = Some x →
    a_alertId x = "ALERT-" +:+ _uint2str (Z.of_nat i + 1).
Proof.
  intros Hc Hl Ha i x Hi.
  destruct (decide (i < length l)%nat) as [Hlt|Hge].
  - rewrite lookup_app_l in Hi by done. by apply Hl.
  - rewrite lookup_app_r in Hi by lia.
    apply list_lookup_singleton_Some in Hi as [Hi <-].
    rewrite Ha. do 2 f_equal. lia.
Qed.

Lemma dispatch_alerts_ok env c st u st' evs :
  alerts_ok st → dispatch env c st = Some (u, st', evs) → alerts_ok st'.
Proof.
  intros (Hc & Hb & Hids) H. destruct c; simpl in H; call_inv H; try done;
    match goal with
    | Hn : alertCounter ?s = Z.of_nat _ |- _ => rename s into st0
    end;
    bools; unfold alerts_ok; simpl in *;
    try (rewrite length_app; simpl;
         split; [lia|]; split; [lia|];
         apply (alert_ids_push _ (alertCounter st0)); done).
  - (* dismissAlert *)
    rewrite length_insert. split; [done|]. split; [done|].
    intros i a Hi.
    match goal with
    | Hl : alerts st0 !! ?j = Some ?a0 |- _ =>
        destruct (decide (i = j)) as [->|Hne];
        [rewrite list_lookup_insert_eq in Hi by (by eapply lookup_lt_Some);
         injection Hi as <-; simpl; by apply Hids
        |rewrite list_lookup_insert_ne in Hi by done; by apply Hids]
    end.
Qed.

Lemma alerts_kept_refl st : alerts_kept st st.
Proof.
  intros i a Hi. exists a. split; [done|]. split; [by destruct a|done].
Qed.

Lemma alerts_kept_trans st1 st2 st3 :
  alerts_kept st1 st2 → alerts_kept st2 st3 → alerts_kept st1 st3.
Proof.
  intros H12 H23 i a Hi.
  destruct (H12 i a Hi) as (a2 & H2 & E2 & D2).
  destruct (H23 i a2 H2) as (a3 & H3 & E3 & D3).
  exists a3. split; [done|]. split; [|auto].
  rewrite <- E3, <- E2. by destruct a.
Qed.

Lemma alerts_kept_push st (l : list EmergencyAlert) st' :
  alerts st' = alerts st ++ l → alerts_kept st st'.
Proof.
  intros H i a Hi. exists a. rewrite H.
  split; [by apply lookup_app_l_Some|]. split; [by destruct a|done].
Qed.

Lemma dispatch_alerts_kept env c st u st' evs :
  dispatch env c st = Some (u, st', evs) → alerts_kept st st'.
Proof.
  intros H. destruct c; simpl in H; call_inv H;
    try (apply alerts_kept_refl);
    try (by apply (alerts_kept_push _ []); simpl; rewrite ?app_nil_r);
    try (by eapply alerts_kept_push; simpl).
  (* dismissAlert *)
  bools. intros i a Hi. simpl.
  match goal with
  | Hl : alerts _ !! ?j = Some ?a0 |- _ =>
      destruct (decide (i = j)) as [->|Hne];
      [rewrite list_lookup_insert_eq by (by eapply lookup_lt_Some);
       rewrite Hl in Hi; injection Hi as <-;
       eexists; split; [done|]; by destruct a0
      |rewrite list_lookup_insert_ne by done;
       exists a; split; [done|]; split; [by destruct a|done]]
  end.
Qed.

(** X10: in every storage the contract can reach, the alert at index [i]
    has the id ALERT-(i+1), so no two alerts share an id; and whatever is
    called afterwards, the alert stays at its index with all its fields,
    except that [isDismissed] may turn true, and then stays true. *)
Theorem alerts_are_kept (st : State) (txs : list (Env * Call))
    (i : nat) (a : EmergencyAlert) :
  reachable st →
  alerts st !! i = Some a →
  a_alertId a = "ALERT-" +:+ _uint2str (Z.of_nat i + 1)
  ∧ NoDup (a_alertId <$> alerts st)
  ∧ ∃ a', alerts (history txs st).1 !! i = Some a'
          ∧ set_a_isDismissed (a_isDismissed a') a = a'
          ∧ (a_isDismissed a = true → a_isDismissed a' = true).
Proof.
  intros Hr Hi.
  assert (alerts_ok st) as (Hc & Hb & Hids).
  { clear Hi. revert st Hr. apply reachable_inv.
    - intros env. split; [done|]. split; [by vm_compute|].
      intros j z0 Hj. simpl in Hj. by rewrite lookup_nil in Hj.
    - intros env c s u s' evs. apply dispatch_alerts_ok. }
  split; [by apply Hids|]. split.
  - apply NoDup_alt. intros j k aid Hj Hk.
    rewrite list_lookup_fmap in Hj, Hk.
    destruct (alerts st !! j) as [aj|] eqn:Ej; [|done].
    destruct (alerts st !! k) as [ak|] eqn:Ek; [|done].
    simpl in Hj, Hk. injection Hj as <-. injection Hk as Hk.
    rewrite (Hids j aj Ej), (Hids k ak Ek) in Hk.
    apply (String.app_inj "ALERT-") in Hk.
    pose proof (lookup_lt_Some _ _ _ Ej). pose proof (lookup_lt_Some _ _ _ Ek).
    apply uint2str_inj in Hk; lia.
  - apply (history_rel alerts_kept alerts_kept_refl alerts_kept_trans);
      [|done].
    intros env c s u s' evs. apply dispatch_alerts_kept.
Qed.

(** *** What becomes of a zone *)

Lemma zones_kept_refl st : zones_kept st st.
Proof. intros i z Hi. exists z. by repeat split. Qed.

Lemma zones_kept_trans st1 st2 st3 :
  zones_kept st1 st2 → zones_kept st2 st3 → zones_kept st1 st3.
Proof.
  intros H12 H23 i z Hi.
  destruct (H12 i z Hi) as (z2 & H2 & A2 & B2 & C2 & D2 & E2 & F2).
  destruct (H23 i z2 H2) as (z3 & H3 & A3 & B3 & C3 & D3 & E3 & F3).
  exists z3. repeat split; try congruence.
  intros Hz. specialize (F2 Hz). subst z2. by apply F3.
Qed.

Lemma zones_kept_same st st' :
  dangerZones st' = dangerZones st → zones_kept st st'.
Proof. intros H i z Hi. exists z. rewrite H. by repeat split. Qed.

Lemma dispatch_zones_kept env c st u st' evs :
  dispatch env c st = Some (u, st', evs) → zones_kept st st'.
Proof.
  intros H. destruct c; simpl in H; call_inv H;
    try (by apply zones_kept_same); bools; intros i z Hi; simpl.
  - (* createDangerZone *)
    exists z. split; [by apply lookup_app_l_Some|]. by repeat split.
  - (* updateDangerZone *)
    match goal with
    | Hl : dangerZones _ !! ?j = Some ?z0 |- _ =>
        destruct (decide (i = j)) as [->|Hne];
        [rewrite list_lookup_insert_eq by (by eapply lookup_lt_Some);
         rewrite Hl in Hi; injection Hi as <-;
         eexists; split; [done|]; repeat split; congruence
        |rewrite list_lookup_insert_ne by done;
         exists z; by repeat split]
    end.
  - (* removeDangerZone *)
    match goal with
    | Hl : dangerZones _ !! ?j = Some ?z0 |- _ =>
        destruct (decide (i = j)) as [->|Hne];
        [rewrite list_lookup_insert_eq by (by eapply lookup_lt_Some);
         rewrite Hl in Hi; injection Hi as <-;
         eexists; split; [done|]; repeat split; congruence
        |rewrite list_lookup_insert_ne by done;
         exists z; by repeat split]
    end.
Qed.

(** X11: zones are never deleted or moved. Whatever is called, a zone
    stays at its index with its id, its center and its creation data: only
    name, radius, level and the active flag change; and a zone that has
    been removed (made inactive) is never changed again, so it stays
    inactive. *)
Theorem zones_are_kept (st : State) (txs : list (Env * Call))
    (i : nat) (z : DangerZone) :
  dangerZones st !! i = Some z →
  ∃ z', dangerZones (history txs st).1 !! i = Some z'
    ∧ z_zoneId z' = z_zoneId z
    ∧ z_latitude z' = z_latitude z ∧ z_longitude z' = z_longitude z
    ∧ z_createdBy z' = z_createdBy z ∧ z_createdAt z' = z_createdAt z
    ∧ (z_isActive z = false → z' = z).
Proof.
  apply (history_rel zones_kept zones_kept_refl zones_kept_trans).
  intros env c s u s' evs. apply dispatch_zones_kept.
Qed.

(** *** The registry of tourists *)

Lemma tourist_at_insert st a b t :
  default zeroTourist (<[a := t]> (tourists st) !! b)
  = if decide (a = b) then t else tourist_at st b.
Proof.
  unfold tourist_at. case_decide as H.
  - subst. by rewrite lookup_insert_eq.
  - by rewrite lookup_insert_ne.
Qed.

Lemma tourists_kept_refl st : tourists_kept st st.
Proof. intros a Ha. by repeat split. Qed.

Lemma tourists_kept_trans st1 st2 st3 :
  tourists_kept st1 st2 → tourists_kept st2 st3 → tourists_kept st1 st3.
Proof.
  intros H12 H23 a Ha.
  destruct (H12 a Ha) as (A & B & C & D & E & F & G).
  destruct (H23 a A) as (A' & B' & C' & D' & E' & F' & G').
  cbv zeta in *. repeat split; congruence.
Qed.

Lemma tourists_kept_same st st' :
  tourists st' = tourists st → tourists_kept st st'.
Proof. intros H a Ha. unfold tourist_at. rewrite H. by repeat split. Qed.

Lemma tourists_kept_insert st st' a t' :
  tourists st' = <[a := t']> (tourists st) →
  (t_isActive (tourist_at st a) = true →
   t_isActive t' = true
   ∧ t_touristId t' = t_touristId (tourist_at st a)
   ∧ t_username t' = t_username (tourist_at st a)
   ∧ t_email t' = t_email (tourist_at st a)
   ∧ t_phone t' = t_phone (tourist_at st a)
   ∧ t_dateOfBirth t' = t_dateOfBirth (tourist_at st a)
   ∧ t_registeredAt t' = t_registeredAt (tourist_at st a)) →
  tourists_kept st st'.
Proof.
  intros H Hid b Hb. cbv zeta.
  assert (tourist_at st' b = if decide (a = b) then t' else tourist_at st b)
    as ->.
  { unfold tourist_at at 1. by rewrite H, tourist_at_insert. }
  case_decide; [subst; by apply Hid|]. by repeat split.
Qed.

Lemma active_insert st st' a t' :
  tourists st' = <[a := t']> (tourists st) →
  t_isActive t' = t_isActive (tourist_at st a) →
  ∀ b, t_isActive (tourist_at st' b) = t_isActive (tourist_at st b).
Proof.
  intros H Ha b. unfold tourist_at at 1. rewrite H, tourist_at_insert.
  by case_decide; subst.
Qed.

Ltac tourists_change :=
  simpl; unfold set_tourist; simpl; rewrite ?insert_insert_eq; reflexivity.

Ltac tourists_read :=
  unfold tourist_at in *; simpl in *; rewrite ?lookup_insert_eq; simpl.

Lemma dispatch_tourists_kept env c st u st' evs :
  dispatch env c st = Some (u, st', evs) → tourists_kept st st'.
Proof.
  intros H. destruct c; simpl in H; call_inv H; bools;
    try (by apply tourists_kept_same);
    (eapply tourists_kept_insert; [tourists_change|]);
    intros Ha; tourists_read; try congruence; by repeat split.
Qed.

Lemma dispatch_registry_ok env c st u st' evs :
  registry_ok st → dispatch env c st = Some (u, st', evs) → registry_ok st'.
Proof.
  intros (Hnd & Hiff & Hcnt) H.
  destruct c; simpl in H; call_inv H; try done;
    match goal with
    | Hn : NoDup (registeredTourists ?s) |- _ => rename s into st0
    end;
    bools; unfold registry_ok; simpl;
    try (split; [done|]; split; [|done]; intros a; rewrite Hiff;
         match goal with
         | |- _ ↔ t_isActive (tourist_at ?s' a) = true =>
             erewrite (active_insert st0 s');
             [done|tourists_change|tourists_read; done]
         end).
  (* registerTourist *)
  split; [|split].
  - apply NoDup_app. split; [done|]. split; [|apply NoDup_singleton].
    intros x Hx Hx'. apply list_elem_of_singleton in Hx' as ->.
    apply Hiff in Hx. congruence.
  - intros a. unfold tourist_at. simpl. rewrite tourist_at_insert.
    rewrite elem_of_app, list_elem_of_singleton, Hiff.
    case_decide; subst; simpl; split; auto.
    intros [?|?]; [done|congruence].
  - rewrite length_app. simpl. lia.
Qed.

(** X12: in every storage the contract can reach, [registeredTourists]
    lists exactly the wallets whose tourist is active, each once, so
    [getTouristCount] is the number of registered wallets; and a
    registration is permanent: whatever is called afterwards, a registered
    wallet stays registered with the id, name, email, phone, date of birth
    and registration time it registered with. *)
Theorem registrations_are_kept (st : State) (txs : list (Env * Call)) :
  reachable st →
  NoDup (registeredTourists st)
  ∧ (∀ a, a ∈ registeredTourists st ↔ t_isActive (tourist_at st a) = true)
  ∧ getTouristCount st
    = Some (Z.of_nat (length (registeredTourists st)), st, [])
  ∧ tourists_kept st (history txs st).1.
Proof.
  intros Hr.
  assert (registry_ok st) as (Hnd & Hiff & Hcnt).
  { revert st Hr. apply reachable_inv.
    - intros env. split; [apply NoDup_nil_2|]. split; [|done].
      intros a. unfold tourist_at. simpl. rewrite lookup_empty. simpl.
      split; [by intros ?%elem_of_nil|done].
    - intros env c s u s' evs. apply dispatch_registry_ok. }
  split; [done|]. split; [done|]. split; [reflexivity|].
  apply (history_rel tourists_kept tourists_kept_refl tourists_kept_trans).
  intros env c s u s' evs. apply dispatch_tourists_kept.
Qed.

(** *** The filtering views *)

Lemma count_from_filter {A} (keep : A → bool) (todo : list A) : ∀ count,
  count_from keep todo count
  = (count + length (filter (λ x, keep x = true) todo))%nat.
Proof.
  induction todo as [|x todo IH]; intros count; simpl; [lia|].
  destruct (keep x) eqn:Hx.
  - rewrite IH, filter_cons_True by done. simpl. lia.
  - rewrite IH, filter_cons_False by congruence. done.
Qed.

Lemma fill_from_fits {A} (keep : A → bool) (todo : list A) :
  ∀ (result : list A) (index : nat),
  (index + length (filter (λ x, keep x = true) todo) ≤ length result)%nat →
  fill_from keep todo result index
  = Some (take index result ++ filter (λ x, keep x = true) todo
            ++ drop (index + length (filter (λ x, keep x = true) todo))
                 result).
Proof.
  induction todo as [|a todo IH]; intros arr index Hfit; simpl.
  { by rewrite Nat.add_0_r, take_drop. }
  destruct (keep a) eqn:Ha.
  - rewrite filter_cons_True in Hfit |- * by done. simpl in Hfit.
    rewrite bool_decide_eq_true_2 by lia.
    rewrite IH by (rewrite length_insert; lia).
    f_equal.
    destruct (lookup_lt_is_Some_2 arr index) as [x Hx]; [lia|].
    rewrite take_insert_lt, drop_insert_lt by lia.
    rewrite (take_S_r _ _ x Hx).
    rewrite insert_app_r_alt by (rewrite length_take; lia).
    rewrite length_take, Nat.min_l by lia.
    rewrite Nat.sub_diag. simpl. rewrite <- app_assoc. simpl.
    by rewrite Nat.add_succ_r.
  - rewrite filter_cons_False in Hfit |- * by congruence. by apply IH.
Qed.

Lemma count_then_fill {A} (keep : A → bool) (todo : list A) (zero : A) :
  fill_from keep todo (replicate (count_from keep todo 0) zero) 0
  = Some (filter (λ x, keep x = true) todo).
Proof.
  rewrite count_from_filter. simpl.
  rewrite fill_from_fits by (rewrite length_replicate; lia).
  simpl. rewrite drop_ge by (rewrite length_replicate; lia).
  by rewrite app_nil_r.
Qed.

(** X13: [getActiveDangerZones], in any storage and for any caller,
    returns exactly the zones whose active flag is set, in the order of
    the array; it never reverts and has no empty slot. *)
Theorem getActiveDangerZones_filters (st : State) :
  getActiveDangerZones st
  = Some (filter (λ z, z_isActive z = true) (dangerZones st), st, []).
Proof.
  unfold getActiveDangerZones. rewrite bind_get. cbv zeta.
  unfold checked. by rewrite count_then_fill.
Qed.

(** X14: [getTouristsByStatus], called by an admin or the owner, returns
    exactly the tourists of the registered wallets whose status is the
    one asked for, in the order of registration; called by anyone else it
    reverts. *)
Theorem getTouristsByStatus_filters (env : Env) (s : SafetyStatus)
    (st : State) :
  getTouristsByStatus env s st
  = if allowed env st ByAdmin then
      Some (filter (λ t, t_status t = s)
              (tourist_at st <$> registeredTourists st), st, [])
    else None.
Proof.
  unfold getTouristsByStatus. simpl allowed.
  destruct (isAdmin_at st (msg_sender env)
            || bool_decide (msg_sender env = owner st)) eqn:Hadm.
  - rewrite (bind_silent _ _ _ tt st) by by apply onlyAdmin_run.
    rewrite bind_get. cbv zeta. unfold checked.
    rewrite count_then_fill. do 3 f_equal.
    apply list_filter_iff. intros t. split.
    + by intros ?%bool_decide_eq_true.
    + intros ?. by apply bool_decide_eq_true.
  - apply bind_fail. by apply modifier_fails.
Qed.

(** *** The zone test at its bounds *)

Lemma int256_in_range x : MIN_INT256 ≤ x ≤ MAX_INT256 → int256 x = Some x.
Proof. intros H. unfold int256. by rewrite bool_decide_eq_true_2. Qed.

Lemma int256_Some x y : int256 x = Some y → y = x ∧ MIN_INT256 ≤ x ≤ MAX_INT256.
Proof. unfold int256. case_bool_decide; naive_solver. Qed.

Lemma square_bound (x b : Z) : - b ≤ x ≤ b → 0 ≤ x * x ≤ b * b.
Proof. intros H. split; nia. Qed.

Lemma distanceSquared_nonneg lat lng z d :
  distanceSquared lat lng z = Some d → 0 ≤ d.
Proof.
  unfold distanceSquared. intros H.
  destruct (int256 (lat - z_latitude z)) as [a|] eqn:Ha; [|done].
  destruct (int256 (lng - z_longitude z)) as [b|] eqn:Hb; [|done].
  simpl in H.
  destruct (int256 (a * a)) as [a2|] eqn:Ha2; [|done].
  destruct (int256 (b * b)) as [b2|] eqn:Hb2; [|done].
  simpl in H.
  apply int256_Some in Ha2 as [-> _], Hb2 as [-> _], H as [-> _]. nia.
Qed.

(** X15: with the coordinates of the position and of the zone within
    2^125 in absolute value (scaled degrees are far inside) and a radius
    whose square times 100 fits an [int256], the zone test of
    [_checkDangerZoneEntry] does not overflow and compares the squared
    coordinate distance with 100 times the squared radius. *)
Theorem inZone_without_overflow (lat lng : Z) (z : DangerZone) :
  - 2 ^ 125 ≤ lat ≤ 2 ^ 125 → - 2 ^ 125 ≤ lng ≤ 2 ^ 125 →
  - 2 ^ 125 ≤ z_latitude z ≤ 2 ^ 125 → - 2 ^ 125 ≤ z_longitude z ≤ 2 ^ 125 →
  z_radius z * z_radius z * 100 ≤ MAX_INT256 →
  inZone lat lng z
  = Some (bool_decide
            ((lat - z_latitude z) * (lat - z_latitude z)
             + (lng - z_longitude z) * (lng - z_longitude z)
             ≤ z_radius z * z_radius z * 100)).
Proof.
  intros Hlat Hlng Hzlat Hzlng Hr.
  assert (H126 : 2 ^ 126 = 2 * 2 ^ 125) by done.
  assert (H252 : 2 ^ 126 * 2 ^ 126 = 2 ^ 252) by done.
  assert (H255 : 2 ^ 255 = 8 * 2 ^ 252) by done.
  assert (H256 : 2 ^ 256 = 16 * 2 ^ 252) by done.
  assert (0 < 2 ^ 252) by done.
  pose proof (square_bound (lat - z_latitude z) (2 ^ 126) ltac:(lia)) as Ha.
  pose proof (square_bound (lng - z_longitude z) (2 ^ 126) ltac:(lia)) as Hb.
  rewrite H252 in Ha, Hb.
  assert (0 ≤ z_radius z * z_radius z) by nia.
  unfold inZone, distanceSquared, radiusSquared, MAX_INT256 in *.
  rewrite (int256_in_range (lat - _)) by (unfold MIN_INT256, MAX_INT256; lia).
  simpl.
  rewrite (int256_in_range (lng - _)) by (unfold MIN_INT256, MAX_INT256; lia).
  simpl.
  rewrite (int256_in_range (_ * _)) by (unfold MIN_INT256, MAX_INT256; lia).
  simpl.
  rewrite (int256_in_range (_ * _)) by (unfold MIN_INT256, MAX_INT256; lia).
  simpl.
  rewrite int256_in_range by (unfold MIN_INT256, MAX_INT256; lia).
  simpl.
  rewrite uint256_in_range by (unfold MAX_UINT256; lia). simpl.
  rewrite uint256_in_range by (unfold MAX_UINT256; lia). simpl.
  unfold int256_of_uint256, MAX_INT256.
  by rewrite (bool_decide_eq_true_2 (_ ≤ 2 ^ 255 - 1)) by lia.
Qed.

Lemma radiusSquared_oversized z :
  MAX_UINT256 < z_radius z * z_radius z * 100 → radiusSquared z = None.
Proof.
  intros H. unfold radiusSquared, uint256.
  case_bool_decide as H1; [|done]. simpl.
  by rewrite bool_decide_eq_false_2 by lia.
Qed.

Lemma check_overflow env t lat lng (pre post : list DangerZone) z st :
  Forall (passed lat lng) pre →
  z_isActive z = true → inZone lat lng z = None →
  _checkDangerZoneEntry_from env (pre ++ z :: post) t lat lng st = None.
Proof.
  intros Hpre Hact Hin.
  induction Hpre as [|z0 pre [Hz|Hz] _ IH]; simpl.
  - rewrite Hact. simpl. apply bind_fail. unfold checked. by rewrite Hin.
  - by rewrite Hz.
  - destruct (z_isActive z0); simpl; [|done].
    by rewrite (bind_checked _ _ _ false).
Qed.

(** X16: [createDangerZone] and [updateDangerZone] put no upper bound on
    the radius. Once the loop of [_checkDangerZoneEntry] reaches an
    active zone whose squared radius times 100 exceeds a [uint256], the
    checked multiplication reverts: [updateLocation] fails for that
    position, whoever the sender is and whatever their status. *)
Theorem oversized_zone_reverts_updateLocation (env : Env) (lat lng : Z)
    (st : State) (pre post : list DangerZone) (z : DangerZone) :
  dangerZones st = pre ++ z :: post →
  Forall (passed lat lng) pre →
  z_isActive z = true →
  MAX_UINT256 < z_radius z * z_radius z * 100 →
  updateLocation env lat lng st = None.
Proof.
  intros Hzones Hpre Hact Hr.
  destruct (t_isActive (tourist_at st (msg_sender env))) eqn:Hreg.
  - rewrite updateLocation_run by done.
    rewrite Hzones, check_overflow; [done..|].
    unfold inZone. rewrite radiusSquared_oversized by done.
    by destruct (distanceSquared lat lng z).
  - unfold updateLocation. apply bind_fail.
    unfold onlyRegisteredTourist. by rewrite bind_get, Hreg.
Qed.

(** X17: the conversion [int256(zone.radius * zone.radius * 100)] is not
    checked. A radius whose square times 100 fits a [uint256] but not an
    [int256] wraps to a negative number, and the zone then contains no
    position at all, not even its own center. *)
Theorem wrapped_radius_contains_nothing (lat lng : Z) (z : DangerZone) :
  MAX_INT256 < z_radius z * z_radius z * 100 ≤ MAX_UINT256 →
  inZone lat lng z ≠ Some true.
Proof.
  intros [Hlo Hhi] Hin. unfold inZone in Hin.
  destruct (distanceSquared lat lng z) as [d|] eqn:Hd; [|done].
  apply distanceSquared_nonneg in Hd. simpl in Hin.
  unfold radiusSquared in Hin.
  assert (0 ≤ z_radius z * z_radius z ≤ MAX_UINT256) as Hrr by nia.
  rewrite uint256_in_range in Hin by done. simpl in Hin.
  rewrite uint256_in_range in Hin by lia. simpl in Hin.
  unfold int256_of_uint256 in Hin.
  rewrite (bool_decide_eq_false_2 (_ ≤ MAX_INT256)) in Hin by lia.
  injection Hin as Hin. apply bool_decide_eq_true in Hin.
  unfold MAX_UINT256 in Hhi. lia.
Qed.

(** *** Status updates *)

(** X18: a call of [updateStatus] that returns has stored the status
    asked for. With [Alert] or [Danger] it has pushed exactly one new
    active alert, also when the status was that already; with [Safe] it
    has pushed none and has left every earlier alert as it was, so that
    going back to [Safe] dismisses nothing. *)
Theorem updateStatus_alerts (env : Env) (s : SafetyStatus) (st st' : State)
    (u : unit) (evs : list Event) :
  updateStatus env s st = Some (u, st', evs) →
  t_status (tourist_at st' (msg_sender env)) = s
  ∧ (if bool_decide (s = Safe) then
       alerts st' = alerts st ∧ alertCount st' = alertCount st
     else
       ∃ a, alerts st' = alerts st ++ [a]
            ∧ a_tourist a = msg_sender env ∧ a_status a = s
            ∧ a_zoneName a = "" ∧ a_isDismissed a = false
            ∧ alertCount st' = alertCount st + 1).
Proof.
  intros H. unfold updateStatus in H. tx_inv H.
  - match goal with
    | Hc : _createEmergencyAlert _ _ _ _ _ _ = Some _ |- _ =>
        unfold _createEmergencyAlert in Hc; tx_inv Hc
    end.
    repeat match goal with
           | Hc : uint256 _ = Some _ |- _ => apply uint256_Some in Hc as [-> _]
           end.
    simpl. unfold tourist_at at 1. simpl. rewrite lookup_insert_eq. simpl.
    split; [done|].
    rewrite bool_decide_eq_false_2 by (intros ->; bools; naive_solver).
    eexists. split; [reflexivity|]. by simpl.
  - simpl. unfold tourist_at at 1. simpl. rewrite lookup_insert_eq. simpl.
    split; [done|].
    bools. destruct s; [|naive_solver..].
    by rewrite bool_decide_eq_true_2.
Qed.

(** *** Tourist identifiers *)

Lemma hexchar_hex (b : Z) :
  ∃ c, hexchar b = String c "" ∧ is_hex c = true.
Proof.
  unfold hexchar.
  pose proof (Z.mod_pos_bound b 16 ltac:(lia)) as Hb.
  assert (Z.to_nat (b `mod` 16) < 16)%nat as Hn by lia.
  destruct (Z.to_nat (b `mod` 16)) as [|n]; [by eexists|].
  do 15 (destruct n as [|n]; [by eexists|]). lia.
Qed.

(** X19: whatever the hash, [_generateTouristId] returns fifteen
    characters: TID-, six characters of 0-9 and A-F, a dash, and four
    more of them. *)
Theorem generateTouristId_format (env : Env) :
  ∃ a b : string,
    _generateTouristId env = "TID-" +:+ a +:+ "-" +:+ b
    ∧ String.length a = 6%nat ∧ String.length b = 4%nat
    ∧ forallb is_hex (String.list_ascii_of_string a) = true
    ∧ forallb is_hex (String.list_ascii_of_string b) = true
    ∧ String.length (_generateTouristId env) = 15%nat.
Proof.
  unfold _generateTouristId. cbn [seq fmap list_fmap].
  repeat match goal with
         | |- context [hexchar ?x] =>
             let c := fresh "c" in let Hc := fresh "Hc" in
             let He := fresh "He" in
             destruct (hexchar_hex x) as (c & He & Hc); rewrite He; clear He
         end.
  cbn [String.concat String.append].
  eexists (String _ (String _ (String _ (String _ (String _ (String _ "")))))),
          (String _ (String _ (String _ (String _ "")))).
  split; [reflexivity|]. split; [done|]. split; [done|].
  cbn [String.list_ascii_of_string forallb String.length].
  repeat match goal with Hc : is_hex _ = true |- _ => rewrite Hc; clear Hc end.
  done.
Qed.

(** X20: after a registration that returns, from a sender other than the
    zero address, [getTouristById] on the identifier returned finds the
    tourist just stored: the data passed, status [Safe], no position. The
    wallet is registered, last in [registeredTourists], and cannot
    register again. *)
Theorem register_then_lookup (env : Env) (_username _email _phone : string)
    (_dateOfBirth : Z) (st st' : State) (tid : string) (evs : list Event) :
  msg_sender env ≠ 0 →
  registerTourist env _username _email _phone _dateOfBirth st
  = Some (tid, st', evs) →
  tid = _generateTouristId env
  ∧ getTouristById tid st'
    = Some ({| t_touristId := tid; t_username := _username;
               t_email := _email; t_phone := _phone;
               t_dateOfBirth := _dateOfBirth; t_status := Safe;
               t_registeredAt := block_timestamp env; t_isActive := true;
               t_lastLatitude := 0; t_lastLongitude := 0;
               t_lastLocationUpdate := 0 |}, st', [])
  ∧ isRegistered (msg_sender env) st' = Some (true, st', [])
  ∧ registeredTourists st' = registeredTourists st ++ [msg_sender env]
  ∧ (∀ env' u e p d, msg_sender env' = msg_sender env →
       registerTourist env' u e p d st' = None).
Proof.
  intros Hsender H. unfold registerTourist in H. tx_inv H.
  split; [done|].
  split; [|split; [|split]].
  - unfold getTouristById. rewrite bind_get. simpl.
    rewrite lookup_insert_eq. simpl.
    rewrite bool_decide_eq_false_2 by done. simpl.
    unfold tourist_at. simpl. by rewrite lookup_insert_eq.
  - unfold isRegistered. rewrite bind_get. simpl.
    unfold tourist_at. simpl. by rewrite lookup_insert_eq.
  - done.
  - intros env' u e p d Heq. unfold registerTourist.
    rewrite bind_get. apply bind_fail. rewrite Heq.
    unfold tourist_at. simpl. by rewrite lookup_insert_eq.
Qed.

(** *** The outcomes of the scan *)

(** The scan passes over every zone, stops at a zone or overflows. *)
Lemma scan_cases lat lng (zones : list DangerZone) :
  Forall (passed lat lng) zones
  ∨ (∃ z, stops_at lat lng zones z)
  ∨ overflows lat lng zones.
Proof.
  induction zones as [|z zones IH]; [left; constructor|].
  assert (passed lat lng z →
          Forall (passed lat lng) (z :: zones)
          ∨ (∃ z0, stops_at lat lng (z :: zones) z0)
          ∨ overflows lat lng (z :: zones)) as Hnext.
  { intros Hz.
    destruct IH as [H|[(z0 & pre & post & -> & Hp & Ha & Hi)
                      |(pre & z0 & post & -> & Hp & Ha & Hi)]].
    - left. by constructor.
    - right; left. exists z0, (z :: pre), post.
      split; [done|]. split; [by constructor|done].
    - right; right. exists (z :: pre), z0, post.
      split; [done|]. split; [by constructor|done]. }
  destruct (z_isActive z) eqn:Hact; [|apply Hnext; by left].
  destruct (inZone lat lng z) as [[|]|] eqn:Hin.
  - right; left. exists z, [], zones. split; [done|]. by split.
  - apply Hnext. by right.
  - right; right. exists [], z, zones. split; [done|]. by split.
Qed.

Lemma updateLocation_unregistered env lat lng st :
  t_isActive (tourist_at st (msg_sender env)) = false →
  updateLocation env lat lng st = None.
Proof.
  intros Hreg. unfold updateLocation. apply bind_fail.
  unfold onlyRegisteredTourist. by rewrite bind_get, Hreg.
Qed.

(** A scan that overflows reverts the location update. *)
Lemma updateLocation_overflows env lat lng st :
  overflows lat lng (dangerZones st) → updateLocation env lat lng st = None.
Proof.
  intros (pre & z & post & Hz & Hp & Ha & Hi).
  destruct (t_isActive (tourist_at st (msg_sender env))) eqn:Hreg;
    [|by apply updateLocation_unregistered].
  rewrite updateLocation_run by done.
  by rewrite Hz, check_overflow.
Qed.

(** A location update with a status that is not [Safe]: it reverts
    exactly when the scan overflows, and otherwise only stores the
    position. *)
Lemma updateLocation_elevated_cases env lat lng st :
  t_isActive (tourist_at st (msg_sender env)) = true →
  t_status (tourist_at st (msg_sender env)) ≠ Safe →
  (updateLocation env lat lng st = None ↔ overflows lat lng (dangerZones st))
  ∧ (updateLocation env lat lng st = None
     ∨ updateLocation env lat lng st
       = Some (tt, located env lat lng st, [location_event env lat lng st])).
Proof.
  intros Hreg Hst.
  pose proof (updateLocation_overflows env lat lng st) as Hrev.
  assert (overflows lat lng (dangerZones st)
          ∨ updateLocation env lat lng st
            = Some (tt, located env lat lng st,
                    [location_event env lat lng st])) as [Ho|Hrun].
  { destruct (scan_cases lat lng (dangerZones st))
      as [Hp|[(z & pre & post & Hz & Hp & Ha & Hi)|Ho]]; [| |by left].
    - right. by apply updateLocation_outside.
    - right. rewrite updateLocation_run by done.
      rewrite Hz, check_hit by done.
      rewrite located_status. by rewrite bool_decide_eq_false_2. }
  - split; [|left; by apply Hrev]. split; [done|apply Hrev].
  - split; [|by right]. split.
    + intros Hnone. by rewrite Hnone in Hrun.
    + intros Ho. by rewrite (Hrev Ho) in Hrun.
Qed.

(** The events of a location update that returns: [LocationUpdated],
    then at most one [EmergencyAlertCreated]. *)
Lemma updateLocation_events env lat lng st u st' evs :
  updateLocation env lat lng st = Some (u, st', evs) →
  evs = [location_event env lat lng st]
  ∨ ∃ e, evs = [location_event env lat lng st; e]
         ∧ is_alert_event e = true.
Proof.
  intros H.
  destruct (t_isActive (tourist_at st (msg_sender env))) eqn:Hreg;
    [|by rewrite updateLocation_unregistered in H].
  rewrite updateLocation_run in H by done.
  destruct (_checkDangerZoneEntry_from env (dangerZones st) (msg_sender env)
              lat lng (located env lat lng st))
    as [[[u' st1] evs1]|] eqn:Hc; [|done].
  injection H as <- <- <-.
  apply check_inv in Hc as [[_ ->]|(z & _ & _ & _ & _ & Hc)]; [by left|].
  right. unfold _createEmergencyAlert in Hc. tx_inv Hc.
  eexists. split; [reflexivity|done].
Qed.

End ContractFacts.

(** ** The claims across the three implementations *)

Section Claims.

Local Open Scope R_scope.

#[local] Arguments Hook.forEach_body : simpl never.
#[local] Arguments Hook.isInZone : simpl never.
#[local] Arguments Server.in_zone : simpl never.

(** C1, at the scenario: after the run at the center the key of [Z1] is
    stored, and the distance is within the radius. *)
Lemma membership_invariant_witness :
  Hook.userLocation (Scenario.render Scenario.center 0) = Some Scenario.center
  ∧ NoDup (Hook.zone_id <$> Hook.dangerZones (Scenario.render Scenario.center 0))
  ∧ Scenario.Z1 ∈ Hook.dangerZones (Scenario.render Scenario.center 0)
  ∧ (Hook.has (Hook.zoneKey "TID-AB12CD-34EF" Scenario.Z1)
       (Hook.notifiedZonesRef
          (Hook.run ([] ++ [Hook.EvRender (Scenario.render Scenario.center 0)])
                    (Hook.initial [])).1) = true
     ↔ Hook.calculateDistance 10 20 10 20 <= 1000).
Proof.
  assert (NoDup (Hook.zone_id <$>
            Hook.dangerZones (Scenario.render Scenario.center 0))) as Hnd.
  { simpl. apply NoDup_singleton. }
  assert (Scenario.Z1 ∈ Hook.dangerZones (Scenario.render Scenario.center 0))
    as Hin by (simpl; apply list_elem_of_here).
  split; [reflexivity|]. split; [exact Hnd|]. split; [exact Hin|].
  exact (proj1 (membership_invariant [] (Hook.initial [])
                  (Scenario.render Scenario.center 0) Scenario.center
                  Scenario.Z1 eq_refl Hnd Hin)).
Defined.

(** C3: containment is the closed disk. In the hook and in the backend a
    position is in the zone exactly when [calculateDistance] is at most the
    radius, so a position at distance exactly the radius is inside; in the
    contract a position is in the zone exactly when the squared coordinate
    distance is at most the squared radius, equality included. *)
Theorem boundary_is_inside :
  (∀ loc z,
     let d := Hook.calculateDistance (Hook.loc_lat loc) (Hook.loc_lng loc)
                (Hook.zone_lat z) (Hook.zone_lng z) in
     (Hook.isInZone loc z = true ↔ d <= Hook.zone_radius z)
     ∧ (d = Hook.zone_radius z → Hook.isInZone loc z = true))
  ∧ (∀ body zone,
       let d := Server.calculateDistance (Server.lat body) (Server.lng body)
                  (Server.zone_lat zone) (Server.zone_lng zone) in
       (Server.in_zone body zone = true ↔ d <= Server.zone_radius zone)
       ∧ (d = Server.zone_radius zone → Server.in_zone body zone = true))
  ∧ (∀ lat lng zone d r,
       Contract.distanceSquared lat lng zone = Some d →
       Contract.radiusSquared zone = Some r →
       (Contract.inZone lat lng zone = Some true ↔ (d ≤ r)%Z)
       ∧ (d = r → Contract.inZone lat lng zone = Some true)).
Proof.
  split; [|split].
  - intros loc z d.
    assert (Hook.isInZone loc z = true ↔ d <= Hook.zone_radius z) as H
      by apply JS_le_true.
    split; [exact H|]. intros Heq. apply H. lra.
  - intros body zone d.
    assert (Server.in_zone body zone = true ↔ d <= Server.zone_radius zone)
      as H by apply JS_le_true.
    split; [exact H|]. intros Heq. apply H. lra.
  - intros lat lng zone d r Hd Hr.
    assert (Contract.inZone lat lng zone = Some (bool_decide (d ≤ r)%Z)) as H.
    { unfold Contract.inZone. rewrite Hd, Hr. reflexivity. }
    rewrite H. split.
    + split.
      * intros [= Hb]. by apply bool_decide_eq_true in Hb.
      * intros Hle. by rewrite bool_decide_eq_true_2.
    + intros ->. by rewrite bool_decide_eq_true_2.
Qed.

(** C3, at a zone of radius zero (hook) and at a position 0.01 degrees
    north of a zone of 1000 m (contract): both on the boundary. *)
Lemma boundary_is_inside_witness :
  Hook.calculateDistance 10 20 10 20 = 0
  ∧ Hook.isInZone Scenario.center Scenario.point_zone = true
  ∧ Contract.distanceSquared 10010000%Z 20000000%Z Scenario.quarry
      = Some 100000000%Z
  ∧ Contract.inZone 10010000%Z 20000000%Z Scenario.quarry = Some true.
Proof.
  destruct boundary_is_inside as (Hhook & _ & Hcontract).
  split; [apply hook_distance_self|].
  split.
  - apply (Hhook Scenario.center Scenario.point_zone). simpl.
    apply hook_distance_self.
  - split; [reflexivity|].
    refine (proj2 (Hcontract _ _ _ 100000000%Z 100000000%Z _ _) eq_refl);
      reflexivity.
Defined.

(** C9, at the storage of the scenario after the first location update:
    one alert, not dismissed, and a count of one. *)
Lemma alertCount_counts_active_witness :
  Contract.reachable Scenario.alerted
  ∧ Contract.alertCount Scenario.alerted = 1%Z
  ∧ Contract.alertCount Scenario.alerted
    = Z.of_nat (length (Contract.active (Contract.alerts Scenario.alerted))).
Proof.
  assert (Contract.reachable Scenario.alerted) as Hr.
  { exists Scenario.admin_env, (Scenario.setup ++ take 1 Scenario.in_out_in).
    vm_compute. reflexivity. }
  split; [exact Hr|]. split; [vm_compute; reflexivity|].
  exact (proj1 (alertCount_counts_active Scenario.alerted Hr)).
Defined.

(** C10, at the scenario: in, out and in again appends at most one alert
    under each key. *)
Lemma admin_alert_once_per_session_witness :
  ∃ appended,
    Hook.dangerZoneAlerts
      (Hook.run (Hook.EvRender <$>
                   [Scenario.render Scenario.center 1;
                    Scenario.render Scenario.north 2;
                    Scenario.render Scenario.center 3])
                (Hook.initial [])).1 = [] ++ appended
    ∧ ∀ k, (length (Hook.alerts_of k appended) ≤ 1)%nat.
Proof.
  exact (proj1 (admin_alert_once_per_session
                  [Scenario.render Scenario.center 1;
                   Scenario.render Scenario.north 2;
                   Scenario.render Scenario.center 3] [])).
Defined.

(** *** The scenario, in the backend and in the hook *)

Lemma beyond_pole_in_zone :
  Hook.isInZone Scenario.beyond_pole Scenario.polar_zone = true.
Proof.
  unfold Hook.isInZone. simpl. rewrite hook_distance_meridian by lra.
  apply JS_le_true. pose proof PI_4. lra.
Qed.

(** *** Calling twice *)



(** *** Several zones at once *)

Local Open Scope Z_scope.

(** C5, as stated, fails in the contract: the tourist, with status [Safe],
    reports the common center of the three active zones; the update emits
    [LocationUpdated] and one [EmergencyAlertCreated], stores one alert,
    for the first zone, and nothing tells of the two other zones. *)
Lemma contract_three_zones_one_event :
  Contract.t_status (Contract.tourist_at Scenario.deployed 2) = Contract.Safe
  ∧ Contract.dangerZones Scenario.deployed
    = [Scenario.quarry; Scenario.harbour; Scenario.cliff]
  ∧ Contract.inZone 10000000 20000000 Scenario.quarry = Some true
  ∧ Contract.inZone 10000000 20000000 Scenario.harbour = Some true
  ∧ Contract.inZone 10000000 20000000 Scenario.cliff = Some true
  ∧ Contract.updateLocation (Scenario.tourist_env 1002) 10000000 20000000
      Scenario.deployed
    = Some (tt, Scenario.alerted,
            [Contract.LocationUpdated 2 "TID-B2D4F6-8ACE"
               10000000 20000000 1002;
             Contract.EmergencyAlertCreated "ALERT-1" 2 "TID-B2D4F6-8ACE"
               Contract.Alert 1002])
  ∧ Contract.a_zoneName <$> Contract.alerts Scenario.alerted = ["Old Quarry"].
Proof. vm_compute. repeat split; reflexivity. Qed.

(** C5, amended: in the contract, a location update of a registered tourist
    with status [Safe] whose position is in an active zone creates exactly
    one alert, for the first active zone of the array that has the
    position, sets the status to [Alert] and stops the scan: the events are
    [LocationUpdated] and one [EmergencyAlertCreated], whatever zones
    follow. This holds when every zone before that one in the array is
    inactive or is tested, without overflow, not to have the position, and
    [alertCounter] and [alertCount] are below 2^256 - 1. When the scan
    overflows instead, the update reverts. The hook, on entering all the
    zones of its list at once (ids unique, keys in neither ref), shows one
    entry toast for each zone and appends one alert for each zone. *)
Theorem first_zone_gets_the_alert (env : Contract.Env) (lat lng : Z)
    (st : Contract.State) (pre post : list Contract.DangerZone)
    (z : Contract.DangerZone) :
  Contract.t_isActive (Contract.tourist_at st (Contract.msg_sender env)) = true →
  Contract.t_status (Contract.tourist_at st (Contract.msg_sender env))
    = Contract.Safe →
  Contract.dangerZones st = pre ++ z :: post →
  Forall (Contract.passed lat lng) pre →
  Contract.z_isActive z = true →
  Contract.inZone lat lng z = Some true →
  0 ≤ Contract.alertCounter st < Contract.MAX_UINT256 →
  0 ≤ Contract.alertCount st < Contract.MAX_UINT256 →
  (∃ st' a created,
     Contract.updateLocation env lat lng st
       = Some (tt, st', [Contract.location_event env lat lng st; created])
     ∧ Contract.is_alert_event created = true
     ∧ Contract.alerts st' = Contract.alerts st ++ [a]
     ∧ Contract.a_zoneName a = Contract.z_name z
     ∧ Contract.a_zoneLevel a = Contract.z_level z
     ∧ Contract.a_tourist a = Contract.msg_sender env
     ∧ Contract.a_isDismissed a = false
     ∧ Contract.alertCount st' = Contract.alertCount st + 1
     ∧ Contract.t_status (Contract.tourist_at st' (Contract.msg_sender env))
       = Contract.Alert)
  ∧ (∀ env' lat' lng' cst,
       Contract.overflows lat' lng' (Contract.dangerZones cst) →
       Contract.updateLocation env' lat' lng' cst = None)
  ∧ (∀ r loc hst,
       Hook.userLocation r = Some loc →
       NoDup (Hook.zone_id <$> Hook.dangerZones r) →
       (∀ z', z' ∈ Hook.dangerZones r →
          Hook.isInZone loc z' = true
          ∧ Hook.has (Hook.zoneKey (Hook.userId r) z')
              (Hook.notifiedZonesRef hst) = false
          ∧ Hook.has (Hook.zoneKey (Hook.userId r) z')
              (Hook.adminNotifiedRef hst) = false) →
       (Hook.useEffect r hst).2 = Hook.ToastEntered <$> Hook.dangerZones r
       ∧ Hook.dangerZoneAlerts (Hook.useEffect r hst).1
         = Hook.dangerZoneAlerts hst
             ++ (Hook.entry_alert loc (Hook.userId r) (Hook.r_username r)
                   (Hook.date_now r) <$> Hook.dangerZones r)).
Proof.
  intros Hreg Hsafe Hz Hpre Hact Hin Hc1 Hc2. split; [|split].
  - pose proof (updateLocation_entered env lat lng st pre post z
                  Hreg Hsafe Hz Hpre Hact Hin Hc1 Hc2) as H.
    cbv zeta in H. rewrite H. eexists _, _, _.
    split; [reflexivity|]. split; [reflexivity|].
    split; [reflexivity|]. simpl.
    split; [reflexivity|]. split; [reflexivity|]. split; [reflexivity|].
    split; [reflexivity|]. split; [reflexivity|].
    unfold Contract.tourist_at. simpl. by rewrite lookup_insert_eq.
  - intros env' lat' lng' cst. apply updateLocation_overflows.
  - intros r loc hst Hloc Hnd Hall. unfold Hook.useEffect. rewrite Hloc.
    apply (forEach_all_enter loc (Hook.userId r) (Hook.r_username r)
             (Hook.date_now r) (Hook.dangerZones r) hst [] Hnd Hall).
Qed.

(** C5, amended, at the scenario: the tourist is at the common center of
    the three zones, the alert names the first one. *)
Lemma first_zone_gets_the_alert_witness :
  Contract.dangerZones Scenario.deployed
    = [] ++ Scenario.quarry :: [Scenario.harbour; Scenario.cliff]
  ∧ Contract.inZone 10000000 20000000 Scenario.quarry = Some true
  ∧ ∃ st' a created,
      Contract.updateLocation (Scenario.tourist_env 1002) 10000000 20000000
        Scenario.deployed
      = Some (tt, st',
              [Contract.LocationUpdated 2 "TID-B2D4F6-8ACE"
                 10000000 20000000 1002; created])
      ∧ Contract.is_alert_event created = true
      ∧ Contract.alerts st' = Contract.alerts Scenario.deployed ++ [a]
      ∧ Contract.a_zoneName a = "Old Quarry".
Proof.
  assert (Contract.dangerZones Scenario.deployed
          = [] ++ Scenario.quarry :: [Scenario.harbour; Scenario.cliff]) as Hz
    by (vm_compute; reflexivity).
  assert (Contract.inZone 10000000 20000000 Scenario.quarry = Some true) as Hin
    by (vm_compute; reflexivity).
  split; [exact Hz|]. split; [exact Hin|].
  destruct (first_zone_gets_the_alert (Scenario.tourist_env 1002)
              10000000 20000000 Scenario.deployed []
              [Scenario.harbour; Scenario.cliff] Scenario.quarry)
    as [(st' & a & created & H1 & H2 & H3 & H4 & _) _].
  - vm_compute; reflexivity.
  - vm_compute; reflexivity.
  - exact Hz.
  - constructor.
  - reflexivity.
  - exact Hin.
  - vm_compute. split; [discriminate|reflexivity].
  - vm_compute. split; [discriminate|reflexivity].
  - exists st', a, created. split; [exact H1|]. split; [exact H2|].
    split; [exact H3|exact H4].
Defined.

(** *** An elevated status *)

(** C6, as stated, fails in the contract: the tourist, with status
    [Alert] and last seen north of the zones, enters them; the update
    emits [LocationUpdated] only, no transition tells of the entry. *)
Lemma contract_elevated_entry_emits_no_transition :
  Contract.t_status (Contract.tourist_at Scenario.away 2) = Contract.Alert
  ∧ Contract.t_lastLatitude (Contract.tourist_at Scenario.away 2) = 10050000
  ∧ Contract.dangerZones Scenario.away
    = [Scenario.quarry; Scenario.harbour; Scenario.cliff]
  ∧ Contract.inZone 10050000 20000000 Scenario.quarry = Some false
  ∧ Contract.inZone 10050000 20000000 Scenario.harbour = Some false
  ∧ Contract.inZone 10050000 20000000 Scenario.cliff = Some false
  ∧ Contract.inZone 10000000 20000000 Scenario.quarry = Some true
  ∧ Contract.updateLocation (Scenario.tourist_env 1004) 10000000 20000000
      Scenario.away
    = Some (tt,
            Contract.located (Scenario.tourist_env 1004) 10000000 20000000
              Scenario.away,
            [Contract.LocationUpdated 2 "TID-B2D4F6-8ACE"
               10000000 20000000 1004]).
Proof. vm_compute. repeat split; reflexivity. Qed.

(** C6, amended: in the contract, a location update of a registered tourist
    whose status is [Alert] or [Danger] pushes no alert and emits no
    transition. It reverts exactly when the scan overflows, that is, when
    it reaches, every zone before it being inactive or tested not to have
    the position, an active zone whose test overflows; otherwise it stores
    the position and emits [LocationUpdated] only, and the alerts,
    [alertCount] and the status stay. No location update that returns
    pushes an alert unless the status is [Safe]. The hook does not read
    any status: an entry into a zone whose key is in neither ref appends
    an alert. *)
Theorem no_alert_while_elevated_in_contract (env : Contract.Env)
    (lat lng : Z) (st : Contract.State) :
  Contract.t_isActive (Contract.tourist_at st (Contract.msg_sender env)) = true →
  Contract.t_status (Contract.tourist_at st (Contract.msg_sender env))
    ≠ Contract.Safe →
  (Contract.updateLocation env lat lng st = None
   ↔ Contract.overflows lat lng (Contract.dangerZones st))
  ∧ (Contract.updateLocation env lat lng st = None
     ∨ Contract.updateLocation env lat lng st
       = Some (tt, Contract.located env lat lng st,
               [Contract.location_event env lat lng st]))
  ∧ Contract.alerts (Contract.located env lat lng st) = Contract.alerts st
  ∧ Contract.alertCount (Contract.located env lat lng st)
    = Contract.alertCount st
  ∧ Contract.t_status
      (Contract.tourist_at (Contract.located env lat lng st)
         (Contract.msg_sender env))
    = Contract.t_status (Contract.tourist_at st (Contract.msg_sender env))
  ∧ (∀ env' lat' lng' cst cst' evs,
       Contract.t_status (Contract.tourist_at cst (Contract.msg_sender env'))
         ≠ Contract.Safe →
       Contract.updateLocation env' lat' lng' cst = Some (tt, cst', evs) →
       Contract.alerts cst' = Contract.alerts cst
       ∧ filter (λ e, Contract.is_alert_event e = true) evs = [])
  ∧ (∀ loc u n now hst ts z,
       Hook.isInZone loc z = true →
       Hook.has (Hook.zoneKey u z) (Hook.notifiedZonesRef hst) = false →
       Hook.has (Hook.zoneKey u z) (Hook.adminNotifiedRef hst) = false →
       ∃ a, Hook.dangerZoneAlerts
              (Hook.forEach_body loc u n now (hst, ts) z).1
            = Hook.dangerZoneAlerts hst ++ [a]).
Proof.
  intros Hreg Hst.
  destruct (updateLocation_elevated_cases env lat lng st Hreg Hst)
    as [Hrev Hrun].
  split; [exact Hrev|]. split; [exact Hrun|].
  split; [reflexivity|]. split; [reflexivity|].
  split; [apply located_status|]. split.
  - intros env' lat' lng' cst cst' evs Hel H.
    apply updateLocation_elevated_inv in H as [-> ->]; [|done]. done.
  - intros loc u n now hst ts z Hin Hh Ha.
    rewrite forEach_body_enter by done. rewrite Ha. simpl. by eexists.
Qed.

(** C6, amended, at the scenario: the tourist, with status [Alert], is
    back at the center of the zones. *)
Lemma no_alert_while_elevated_in_contract_witness :
  Contract.t_isActive (Contract.tourist_at Scenario.alerted 2) = true
  ∧ Contract.t_status (Contract.tourist_at Scenario.alerted 2) ≠ Contract.Safe
  ∧ (Contract.updateLocation (Scenario.tourist_env 1004) 10000000 20000000
       Scenario.alerted = None
     ∨ Contract.updateLocation (Scenario.tourist_env 1004) 10000000 20000000
         Scenario.alerted
       = Some (tt,
               Contract.located (Scenario.tourist_env 1004) 10000000 20000000
                 Scenario.alerted,
               [Contract.location_event (Scenario.tourist_env 1004)
                  10000000 20000000 Scenario.alerted])).
Proof.
  assert (Contract.t_isActive (Contract.tourist_at Scenario.alerted 2) = true)
    as Hreg by (vm_compute; reflexivity).
  assert (Contract.t_status (Contract.tourist_at Scenario.alerted 2)
          ≠ Contract.Safe) as Hst by (vm_compute; discriminate).
  split; [exact Hreg|]. split; [exact Hst|].
  exact (proj1 (proj2 (no_alert_while_elevated_in_contract
                         (Scenario.tourist_env 1004) 10000000 20000000
                         Scenario.alerted Hreg Hst))).
Defined.

(** *** Out of a zone and back *)

(** C7, as stated, fails in the contract: the tourist enters the zones,
    leaves them and enters again; the first update creates the alert, the
    update outside emits no exit event and the second entry, with status
    [Alert], emits no entry event. *)
Lemma contract_crossing_emits_no_transition :
  (Contract.history Scenario.in_out_in Scenario.deployed).2
  = [[Contract.LocationUpdated 2 "TID-B2D4F6-8ACE" 10000000 20000000 1002;
      Contract.EmergencyAlertCreated "ALERT-1" 2 "TID-B2D4F6-8ACE"
        Contract.Alert 1002];
     [Contract.LocationUpdated 2 "TID-B2D4F6-8ACE" 10050000 20000000 1003];
     [Contract.LocationUpdated 2 "TID-B2D4F6-8ACE" 10000000 20000000 1004]].
Proof. vm_compute. reflexivity. Qed.

(** C7, amended: in the hook, for a zone of the list (ids unique) and a user
    recorded inside it, effect runs that stay inside, then leave, stay
    outside, come back and stay inside show, about that zone, exactly one
    'left' toast at the first run outside and exactly one 'entered' toast at
    the first run inside again, and nothing at the other runs. The contract
    has no exit event and keeps no membership per zone: a location update
    that returns emits [LocationUpdated], then at most one
    [EmergencyAlertCreated], and nothing else. For a registered tourist, an
    update at a position that every zone of the array is inactive for, or is
    tested without overflow not to have, stores the position and emits
    [LocationUpdated] only; an update with a status that is not [Safe]
    reverts exactly when the scan overflows (it reaches, every zone before
    it being inactive or tested not to have the position, an active zone
    whose test overflows), and otherwise stores the position and emits
    [LocationUpdated] only. *)
Theorem crossing_out_and_back (u : string) (z : Hook.DangerZone)
    (ins1 outs ins2 : list Hook.Render) (ro ri : Hook.Render)
    (st : Hook.State) :
  Forall (Hook.tracks u z) (ins1 ++ ro :: outs ++ ri :: ins2) →
  Forall (Hook.side true z) ins1 →
  Forall (Hook.side false z) (ro :: outs) →
  Forall (Hook.side true z) (ri :: ins2) →
  Hook.has (Hook.zoneKey u z) (Hook.notifiedZonesRef st) = true →
  Hook.transitions (Hook.zone_id z) (ins1 ++ ro :: outs ++ ri :: ins2) st
  = replicate (length ins1) []
      ++ [Hook.ToastLeft z] :: replicate (length outs) []
      ++ [Hook.ToastEntered z] :: replicate (length ins2) []
  ∧ (∀ env lat lng cst v cst' evs,
       Contract.updateLocation env lat lng cst = Some (v, cst', evs) →
       evs = [Contract.location_event env lat lng cst]
       ∨ ∃ e, evs = [Contract.location_event env lat lng cst; e]
              ∧ Contract.is_alert_event e = true)
  ∧ (∀ env lat lng cst,
       Contract.t_isActive
         (Contract.tourist_at cst (Contract.msg_sender env)) = true →
       Forall (Contract.passed lat lng) (Contract.dangerZones cst) →
       Contract.updateLocation env lat lng cst
       = Some (tt, Contract.located env lat lng cst,
               [Contract.location_event env lat lng cst]))
  ∧ (∀ env lat lng cst,
       Contract.t_isActive
         (Contract.tourist_at cst (Contract.msg_sender env)) = true →
       Contract.t_status (Contract.tourist_at cst (Contract.msg_sender env))
         ≠ Contract.Safe →
       (Contract.updateLocation env lat lng cst = None
        ↔ Contract.overflows lat lng (Contract.dangerZones cst))
       ∧ (Contract.updateLocation env lat lng cst = None
          ∨ Contract.updateLocation env lat lng cst
            = Some (tt, Contract.located env lat lng cst,
                    [Contract.location_event env lat lng cst]))).
Proof.
  intros Ht H1 H2 H3 Hst. split; [by apply (hook_out_and_back u)|].
  split; [|split].
  - intros env lat lng cst v cst' evs. apply updateLocation_events.
  - intros env lat lng cst Hreg Hout. by apply updateLocation_outside.
  - intros env lat lng cst. apply updateLocation_elevated_cases.
Qed.

(** C7, amended, at the scenario: recorded inside [Z1], the user goes
    north and comes back. *)
Lemma crossing_out_and_back_witness :
  let u := "TID-AB12CD-34EF" in
  let st := (Hook.useEffect (Scenario.render Scenario.center 1)
               (Hook.initial [])).1 in
  let ro := Scenario.render Scenario.north 2 in
  let ri := Scenario.render Scenario.center 3 in
  Forall (Hook.tracks u Scenario.Z1) ([] ++ ro :: [] ++ ri :: [])
  ∧ Forall (Hook.side false Scenario.Z1) [ro]
  ∧ Forall (Hook.side true Scenario.Z1) [ri]
  ∧ Hook.has (Hook.zoneKey u Scenario.Z1) (Hook.notifiedZonesRef st) = true
  ∧ Hook.transitions "Z1" ([] ++ ro :: [] ++ ri :: []) st
    = [[Hook.ToastLeft Scenario.Z1]; [Hook.ToastEntered Scenario.Z1]].
Proof.
  intros u st ro ri.
  assert (∀ loc now, Hook.tracks u Scenario.Z1 (Scenario.render loc now))
    as Htr.
  { intros loc now. split; [reflexivity|]. split.
    - simpl. apply NoDup_singleton.
    - simpl. apply list_elem_of_here. }
  assert (Forall (Hook.tracks u Scenario.Z1) ([] ++ ro :: [] ++ ri :: []))
    as Ht.
  { simpl. apply Forall_cons_2; [apply Htr|].
    apply Forall_cons_2; [apply Htr|apply Forall_nil_2]. }
  assert (Forall (Hook.side false Scenario.Z1) [ro]) as Hout.
  { apply Forall_cons_2; [|apply Forall_nil_2]. exists Scenario.north.
    split; [reflexivity|apply north_not_in_Z1]. }
  assert (Forall (Hook.side true Scenario.Z1) [ri]) as Hin.
  { apply Forall_cons_2; [|apply Forall_nil_2]. exists Scenario.center.
    split; [reflexivity|apply center_in_Z1]. }
  assert (Hook.has (Hook.zoneKey u Scenario.Z1) (Hook.notifiedZonesRef st)
          = true) as Hst.
  { apply (hook_step u Scenario.Z1 (Scenario.render Scenario.center 1) true).
    - apply Htr.
    - exists Scenario.center. split; [reflexivity|apply center_in_Z1]. }
  split; [exact Ht|]. split; [exact Hout|]. split; [exact Hin|].
  split; [exact Hst|].
  exact (proj1 (crossing_out_and_back u Scenario.Z1 [] [] [] ro ri st
                  Ht (Forall_nil_2 _) Hout Hin Hst)).
Defined.

(** *** Coordinates out of range *)

Local Close Scope Z_scope.
Local Open Scope R_scope.

(** C8, as stated, fails in the backend: a request with latitude 91 and
    longitude 181 is answered with success and its position is stored. *)
Lemma server_stores_latitude_out_of_range :
  90 < Server.lat Scenario.polar_body
  ∧ 180 < Server.lng Scenario.polar_body
  ∧ Server.post_locations Scenario.polar_body 7 false false
      (Scenario.db "safe" [])
    = ({| Server.profiles := Server.profiles (Scenario.db "safe" []);
          Server.user_locations :=
            [{| Server.loc_user_id := "7c9e6679-7425-40de-944b-e07fc1f90ae7";
                Server.loc_tourist_id := "TID-AB12CD-34EF";
                Server.loc_lat := 91; Server.loc_lng := 181;
                Server.loc_updated_at := 7 |}];
          Server.danger_zones := [];
          Server.alerts := [] |},
       Server.Success
         {| Server.loc_user_id := "7c9e6679-7425-40de-944b-e07fc1f90ae7";
            Server.loc_tourist_id := "TID-AB12CD-34EF";
            Server.loc_lat := 91; Server.loc_lng := 181;
            Server.loc_updated_at := 7 |}).
Proof. split; [simpl; lra|]. split; [simpl; lra|]. reflexivity. Qed.

(** The hook does not validate either: a location of latitude 90.005 is
    evaluated like any other, the state is changed and an alert stored. *)
Lemma hook_evaluates_latitude_out_of_range :
  90 < Hook.loc_lat Scenario.beyond_pole
  ∧ Hook.useEffect Scenario.polar_render (Hook.initial [])
    = ({| Hook.notifiedZonesRef := {["TID-AB12CD-34EF-Z9"]} ∪ ∅;
          Hook.adminNotifiedRef := {["TID-AB12CD-34EF-Z9"]} ∪ ∅;
          Hook.dangerZoneAlerts :=
            [{| Hook.alert_key := "TID-AB12CD-34EF-Z9"; Hook.alert_now := 7;
                Hook.touristId := "TID-AB12CD-34EF";
                Hook.username := "alice"; Hook.zoneName := "Pole";
                Hook.zoneLevel := Hook.low; Hook.timestamp := 7;
                Hook.location := Scenario.beyond_pole |}] |},
       [Hook.ToastEntered Scenario.polar_zone]).
Proof.
  split; [simpl; lra|].
  unfold Hook.useEffect. simpl.
  rewrite forEach_body_enter;
    [| apply beyond_pole_in_zone | apply has_empty].
  simpl. by rewrite has_empty.
Qed.

(** C8, amended: the code validates no coordinate range. The hook skips the
    effect only for a null location: the state is unchanged and no toast
    is shown; every other location, whatever its latitude and longitude, is
    evaluated, and (ids unique) the key of a zone of the list is stored
    afterwards exactly when [calculateDistance] puts the location within
    the radius. The backend answers with status 500, the tables unchanged,
    only when the database reports an error for the upsert; otherwise it
    answers with success and stores the position, whatever its latitude
    and longitude. *)
Theorem no_coordinate_validation :
  (∀ r st, Hook.userLocation r = None → Hook.useEffect r st = (st, []))
  ∧ (∀ r loc st z,
       Hook.userLocation r = Some loc →
       NoDup (Hook.zone_id <$> Hook.dangerZones r) →
       z ∈ Hook.dangerZones r →
       Hook.has (Hook.zoneKey (Hook.userId r) z)
         (Hook.notifiedZonesRef (Hook.useEffect r st).1)
       = Hook.isInZone loc z)
  ∧ (∀ body now e2 db,
       Server.post_locations body now true e2 db = (db, Server.Status500))
  ∧ (∀ body now e2 db,
       ∃ data,
         (Server.post_locations body now false e2 db).2 = Server.Success data
         ∧ Server.loc_lat data = Server.lat body
         ∧ Server.loc_lng data = Server.lng body
         ∧ Server.user_locations (Server.post_locations body now false e2 db).1
           = Server.upsert data (Server.user_locations db)).
Proof.
  split; [|split; [|split]].
  - intros r st H. unfold Hook.useEffect. by rewrite H.
  - intros r loc st z Hloc Hnd Hin.
    by destruct (useEffect_zone r loc st z Hloc Hnd Hin) as [-> _].
  - reflexivity.
  - intros body now e2 db. eexists. split; [reflexivity|].
    split; [reflexivity|]. split; reflexivity.
Qed.

(** C8, amended, at the location beyond the pole. *)
Lemma no_coordinate_validation_witness :
  Hook.has (Hook.zoneKey "TID-AB12CD-34EF" Scenario.polar_zone)
    (Hook.notifiedZonesRef
       (Hook.useEffect Scenario.polar_render (Hook.initial [])).1)
  = Hook.isInZone Scenario.beyond_pole Scenario.polar_zone.
Proof.
  destruct no_coordinate_validation as (_ & H & _).
  apply (H Scenario.polar_render Scenario.beyond_pole (Hook.initial [])
           Scenario.polar_zone).
  - reflexivity.
  - simpl. apply NoDup_singleton.
  - simpl. apply list_elem_of_here.
Defined.

End Claims.

(** ** Instances at the scenario *)

Section Instances.

#[local] Arguments Hook.forEach_body : simpl never.
#[local] Arguments Hook.isInZone : simpl never.

Local Open Scope R_scope.

(** X2, at a zone of radius -1 around the center of the scenario: the
    center itself is not in it. *)
Lemma negative_radius_contains_nothing_witness :
  -1 < 0
  ∧ Hook.isInZone Scenario.center
      {| Hook.zone_id := "Z0"; Hook.zone_name := "Nowhere";
         Hook.zone_lat := 10; Hook.zone_lng := 20;
         Hook.zone_radius := -1; Hook.zone_level := Hook.low |} = false.
Proof.
  assert (-1 < 0) as Hneg by lra.
  split; [exact Hneg|].
  exact (proj1 negative_radius_contains_nothing Scenario.center
           {| Hook.zone_id := "Z0"; Hook.zone_name := "Nowhere";
              Hook.zone_lat := 10; Hook.zone_lng := 20;
              Hook.zone_radius := -1; Hook.zone_level := Hook.low |} Hneg).
Defined.

Local Close Scope R_scope.
Local Open Scope Z_scope.

(** X4, at the render of the scenario: the key of another user is not
    touched. *)
Lemma useEffect_other_keys_witness :
  (∀ z, z ∈ Hook.dangerZones (Scenario.render Scenario.center 0) →
        "TID-000000-0000-Z1"
        ≠ Hook.zoneKey (Hook.userId (Scenario.render Scenario.center 0)) z)
  ∧ ("TID-000000-0000-Z1"
       ∈ Hook.notifiedZonesRef
           (Hook.useEffect (Scenario.render Scenario.center 0)
              (Hook.initial [])).1
     ↔ "TID-000000-0000-Z1" ∈ Hook.notifiedZonesRef (Hook.initial [])).
Proof.
  assert (∀ z, z ∈ Hook.dangerZones (Scenario.render Scenario.center 0) →
            "TID-000000-0000-Z1"
            ≠ Hook.zoneKey (Hook.userId (Scenario.render Scenario.center 0)) z)
    as Hk.
  { intros z Hz. simpl in Hz. apply list_elem_of_singleton in Hz.
    subst z. vm_compute. discriminate. }
  split; [exact Hk|].
  exact (proj1 (useEffect_other_keys (Scenario.render Scenario.center 0)
                  (Hook.initial []) "TID-000000-0000-Z1" Hk)).
Defined.

(** X6, at 2026. *)
Lemma uint2str_round_trip_witness :
  0 ≤ 2026 ≤ Contract.MAX_UINT256
  ∧ Contract.parse_uint (Contract._uint2str 2026) = Some 2026.
Proof.
  assert (0 ≤ 2026 ≤ Contract.MAX_UINT256) as Hn
    by (unfold Contract.MAX_UINT256; lia).
  split; [exact Hn|].
  exact (proj1 (uint2str_round_trip 2026 Hn)).
Defined.

(** X8, at the scenario: the tourist may not create a zone. *)
Lemma guarded_calls_revert_witness :
  Contract.allowed (Scenario.tourist_env 1005) Scenario.deployed
    (Contract.guard
       (Contract.CreateDangerZone "Pier" 0 0 10 Contract.Low)) = false
  ∧ Contract.dispatch (Scenario.tourist_env 1005)
      (Contract.CreateDangerZone "Pier" 0 0 10 Contract.Low)
      Scenario.deployed = None.
Proof.
  assert (Contract.allowed (Scenario.tourist_env 1005) Scenario.deployed
            (Contract.guard
               (Contract.CreateDangerZone "Pier" 0 0 10 Contract.Low)) = false)
    as Hg by (vm_compute; reflexivity).
  split; [exact Hg|].
  exact (proj1 (guarded_calls_revert (Scenario.tourist_env 1005)
                  (Contract.CreateDangerZone "Pier" 0 0 10 Contract.Low)
                  Scenario.deployed Hg)).
Defined.

(** X9, at the first zone of the scenario. *)
Lemma zone_ids_index_the_array_witness :
  Contract.reachable Scenario.deployed
  ∧ Contract.dangerZones Scenario.deployed !! 0%nat = Some Scenario.quarry
  ∧ Contract.zoneIdToIndex Scenario.deployed
      !! Contract.z_zoneId Scenario.quarry = Some (Z.of_nat 0).
Proof.
  assert (Contract.reachable Scenario.deployed) as Hr.
  { exists Scenario.admin_env, Scenario.setup. reflexivity. }
  assert (Contract.dangerZones Scenario.deployed !! 0%nat
          = Some Scenario.quarry) as Hz by (vm_compute; reflexivity).
  split; [exact Hr|]. split; [exact Hz|].
  exact (proj1 (proj2 (zone_ids_index_the_array Scenario.deployed 0
                         Scenario.quarry Hr Hz))).
Defined.

(** X10, at the alert of the scenario, over the two later updates. *)
Lemma alerts_are_kept_witness :
  Contract.reachable Scenario.alerted
  ∧ Contract.alerts Scenario.alerted !! 0%nat = Some Scenario.first_alert
  ∧ Contract.a_alertId Scenario.first_alert
    = "ALERT-" +:+ Contract._uint2str (Z.of_nat 0 + 1)
  ∧ ∃ a', Contract.alerts
            (Contract.history (drop 1 Scenario.in_out_in)
               Scenario.alerted).1 !! 0%nat = Some a'
          ∧ Contract.set_a_isDismissed (Contract.a_isDismissed a')
              Scenario.first_alert = a'.
Proof.
  assert (Contract.reachable Scenario.alerted) as Hr.
  { exists Scenario.admin_env, (Scenario.setup ++ take 1 Scenario.in_out_in).
    vm_compute. reflexivity. }
  assert (Contract.alerts Scenario.alerted !! 0%nat
          = Some Scenario.first_alert) as Ha by (vm_compute; reflexivity).
  split; [exact Hr|]. split; [exact Ha|].
  destruct (alerts_are_kept Scenario.alerted (drop 1 Scenario.in_out_in)
              0 Scenario.first_alert Hr Ha) as (Hid & _ & a' & Ha' & Hset & _).
  split; [exact Hid|]. exists a'. split; [exact Ha'|exact Hset].
Defined.

(** X11, at the first zone of the scenario, over the three updates. *)
Lemma zones_are_kept_witness :
  Contract.dangerZones Scenario.deployed !! 0%nat = Some Scenario.quarry
  ∧ ∃ z', Contract.dangerZones
            (Contract.history Scenario.in_out_in Scenario.deployed).1
            !! 0%nat = Some z'
          ∧ Contract.z_zoneId z' = Contract.z_zoneId Scenario.quarry.
Proof.
  assert (Contract.dangerZones Scenario.deployed !! 0%nat
          = Some Scenario.quarry) as Hz by (vm_compute; reflexivity).
  split; [exact Hz|].
  destruct (zones_are_kept Scenario.deployed Scenario.in_out_in 0
              Scenario.quarry Hz) as (z' & Hz' & Hid & _).
  exists z'. split; [exact Hz'|exact Hid].
Defined.

(** X12, at the scenario, over the three updates. *)
Lemma registrations_are_kept_witness :
  Contract.reachable Scenario.deployed
  ∧ NoDup (Contract.registeredTourists Scenario.deployed)
  ∧ Contract.tourists_kept Scenario.deployed
      (Contract.history Scenario.in_out_in Scenario.deployed).1.
Proof.
  assert (Contract.reachable Scenario.deployed) as Hr.
  { exists Scenario.admin_env, Scenario.setup. reflexivity. }
  split; [exact Hr|].
  destruct (registrations_are_kept Scenario.deployed Scenario.in_out_in Hr)
    as (Hnd & _ & _ & Hk).
  split; [exact Hnd|exact Hk].
Defined.

(** X15, at the center of the first zone of the scenario. *)
Lemma inZone_without_overflow_witness :
  (- 2 ^ 125 ≤ 10000000 ≤ 2 ^ 125) ∧ (- 2 ^ 125 ≤ 20000000 ≤ 2 ^ 125)
  ∧ (- 2 ^ 125 ≤ Contract.z_latitude Scenario.quarry ≤ 2 ^ 125)
  ∧ (- 2 ^ 125 ≤ Contract.z_longitude Scenario.quarry ≤ 2 ^ 125)
  ∧ Contract.z_radius Scenario.quarry * Contract.z_radius Scenario.quarry * 100
    ≤ Contract.MAX_INT256
  ∧ Contract.inZone 10000000 20000000 Scenario.quarry
    = Some (bool_decide
              ((10000000 - Contract.z_latitude Scenario.quarry)
               * (10000000 - Contract.z_latitude Scenario.quarry)
               + (20000000 - Contract.z_longitude Scenario.quarry)
                 * (20000000 - Contract.z_longitude Scenario.quarry)
               ≤ Contract.z_radius Scenario.quarry
                 * Contract.z_radius Scenario.quarry * 100)).
Proof.
  assert (- 2 ^ 125 ≤ 10000000 ≤ 2 ^ 125) as H1 by (vm_compute; intuition discriminate).
  assert (- 2 ^ 125 ≤ 20000000 ≤ 2 ^ 125) as H2 by (vm_compute; intuition discriminate).
  assert (- 2 ^ 125 ≤ Contract.z_latitude Scenario.quarry ≤ 2 ^ 125) as H3
    by (vm_compute; intuition discriminate).
  assert (- 2 ^ 125 ≤ Contract.z_longitude Scenario.quarry ≤ 2 ^ 125) as H4
    by (vm_compute; intuition discriminate).
  assert (Contract.z_radius Scenario.quarry * Contract.z_radius Scenario.quarry
          * 100 ≤ Contract.MAX_INT256) as H5 by (vm_compute; discriminate).
  split; [exact H1|]. split; [exact H2|]. split; [exact H3|].
  split; [exact H4|]. split; [exact H5|].
  exact (inZone_without_overflow 10000000 20000000 Scenario.quarry
           H1 H2 H3 H4 H5).
Defined.

(** X16, at a contract whose only zone has a radius of 2^128 m: the
    registered tourist cannot report a position. *)
Lemma oversized_zone_reverts_updateLocation_witness :
  Contract.dangerZones Scenario.blocked = [] ++ Scenario.everywhere :: []
  ∧ Forall (Contract.passed 0 0) []
  ∧ Contract.z_isActive Scenario.everywhere = true
  ∧ Contract.MAX_UINT256
    < Contract.z_radius Scenario.everywhere
      * Contract.z_radius Scenario.everywhere * 100
  ∧ Contract.updateLocation (Scenario.tourist_env 1002) 0 0 Scenario.blocked
    = None.
Proof.
  assert (Contract.dangerZones Scenario.blocked
          = [] ++ Scenario.everywhere :: []) as Hz by (vm_compute; reflexivity).
  assert (Forall (Contract.passed 0 0) []) as Hp by constructor.
  assert (Contract.MAX_UINT256
          < Contract.z_radius Scenario.everywhere
            * Contract.z_radius Scenario.everywhere * 100) as Hr
    by (vm_compute; reflexivity).
  split; [exact Hz|]. split; [exact Hp|]. split; [reflexivity|].
  split; [exact Hr|].
  exact (oversized_zone_reverts_updateLocation (Scenario.tourist_env 1002) 0 0
           Scenario.blocked [] [] Scenario.everywhere Hz Hp eq_refl Hr).
Defined.

(** X17, at a zone of radius 3e37 m and its own center. *)
Lemma wrapped_radius_contains_nothing_witness :
  (Contract.MAX_INT256
   < Contract.z_radius Scenario.wrapped * Contract.z_radius Scenario.wrapped
     * 100 ≤ Contract.MAX_UINT256)
  ∧ Contract.inZone 0 0 Scenario.wrapped ≠ Some true.
Proof.
  assert (Contract.MAX_INT256
          < Contract.z_radius Scenario.wrapped
            * Contract.z_radius Scenario.wrapped * 100
          ≤ Contract.MAX_UINT256) as Hr.
  { split; vm_compute; [reflexivity|discriminate]. }
  split; [exact Hr|].
  exact (wrapped_radius_contains_nothing 0 0 Scenario.wrapped Hr).
Defined.

(** X18, at the scenario: the tourist reports [Danger]. *)
Lemma updateStatus_alerts_witness :
  Contract.updateStatus (Scenario.tourist_env 1002) Contract.Danger
    Scenario.deployed
  = Some (tt, (Contract.transact Scenario.deployed Scenario.report_danger).1,
          (Contract.transact Scenario.deployed Scenario.report_danger).2)
  ∧ Contract.t_status
      (Contract.tourist_at
         (Contract.transact Scenario.deployed Scenario.report_danger).1
         (Contract.msg_sender (Scenario.tourist_env 1002)))
    = Contract.Danger.
Proof.
  assert (Contract.updateStatus (Scenario.tourist_env 1002) Contract.Danger
            Scenario.deployed
          = Some (tt,
                  (Contract.transact Scenario.deployed
                     Scenario.report_danger).1,
                  (Contract.transact Scenario.deployed
                     Scenario.report_danger).2)) as Hrun
    by (vm_compute; reflexivity).
  split; [exact Hrun|].
  exact (proj1 (updateStatus_alerts (Scenario.tourist_env 1002)
                  Contract.Danger Scenario.deployed _ tt _ Hrun)).
Defined.

(** X20, at the registration of the scenario. *)
Lemma register_then_lookup_witness :
  Contract.msg_sender (Scenario.tourist_env 1001) ≠ 0
  ∧ Contract.registerTourist (Scenario.tourist_env 1001)
      "alice" "alice@example.org" "555" 0 Scenario.zoned
    = Some ("TID-B2D4F6-8ACE", Scenario.deployed,
            [Contract.TouristRegistered 2 "TID-B2D4F6-8ACE" "alice" 1001])
  ∧ "TID-B2D4F6-8ACE" = Contract._generateTouristId (Scenario.tourist_env 1001)
  ∧ Contract.isRegistered (Contract.msg_sender (Scenario.tourist_env 1001))
      Scenario.deployed
    = Some (true, Scenario.deployed, []).
Proof.
  assert (Contract.msg_sender (Scenario.tourist_env 1001) ≠ 0) as Hs
    by (simpl; discriminate).
  assert (Contract.registerTourist (Scenario.tourist_env 1001)
            "alice" "alice@example.org" "555" 0 Scenario.zoned
          = Some ("TID-B2D4F6-8ACE", Scenario.deployed,
                  [Contract.TouristRegistered 2 "TID-B2D4F6-8ACE" "alice"
                     1001])) as Hrun by (vm_compute; reflexivity).
  split; [exact Hs|]. split; [exact Hrun|].
  destruct (register_then_lookup (Scenario.tourist_env 1001)
              "alice" "alice@example.org" "555" 0 Scenario.zoned
              Scenario.deployed "TID-B2D4F6-8ACE" _ Hs Hrun)
    as (Hid & _ & Hreg & _).
  split; [exact Hid|exact Hreg].
Defined.

End Instances.
